(** * opm-common: summary-number packing, well injection properties and the
    UDQ evaluator

    A shallow embedding of

    - [Opm::EclIO] utilities ([is_number], [combineSummaryNumbers],
      [splitSummaryNumber]) of the summary-file reader, and the utilities
      of EclUtil.cpp for byte order, block sizes and formatted arrays,
    - [Opm::Well::WellInjectionProperties]
      (opm/input/eclipse/Schedule/Well/WellInjectionProperties.cpp),
    - the [UDQASTNode] class as declared in UDQASTNode.hpp, with the
      evaluator, the value sets, the UDQ configuration and the active-UDA
      tracker it relies on,
    - [Opm::UniformTabulated2DFunction]
      (opm/material/common/UniformTabulated2DFunction.hpp).

    C++ [int] is a 32-bit two's complement integer carried by [Z]; [double]
    is the kernel's binary64 [float]; [std::string] is [string]; a thrown
    exception is the [Throw] case of [Result]. *)

From Stdlib Require Import ZArith Lia List String Ascii Bool Floats.
From stdpp Require Import base option gmap strings pretty.

Local Open Scope Z_scope.

(* ------------------------------------------------------------------ *)
(** ** 32-bit [int] *)

Module Int32.

Definition min_int : Z := - 2 ^ 31.
Definition max_int : Z := 2 ^ 31 - 1.

Definition in_range (z : Z) : Prop := min_int <= z <= max_int.

(** Two's complement wrap-around of a mathematical result. *)
Definition wrap (z : Z) : Z := (z + 2 ^ 31) mod 2 ^ 32 - 2 ^ 31.

Definition add (a b : Z) : Z := wrap (a + b).
Definition sub (a b : Z) : Z := wrap (a - b).
Definition mul (a b : Z) : Z := wrap (a * b).
Definition shl (a b : Z) : Z := wrap (Z.shiftl a b).
(** [/] and [%] of C++ truncate towards zero. *)
Definition div (a b : Z) : Z := wrap (Z.quot a b).
Definition rem (a b : Z) : Z := Z.rem a b.
Definition land (a b : Z) : Z := Z.land a b.

End Int32.

(* ------------------------------------------------------------------ *)
(** ** [double] values and their conversions *)

Module Double.

(** Magnitude of a finite binary64 value [m * 2^e], truncated to an
    integer. *)
Definition trunc_magnitude (m : positive) (e : Z) : Z :=
  if 0 <=? e then Z.pos m * 2 ^ e else Z.pos m / 2 ^ (- e).

(** [static_cast<int>(d)]: truncation towards zero.  A value that does not
    fit (or is not a number) has no defined result in C++; x86-64 yields
    the "integer indefinite" value, which is kept here. *)
Definition to_int (d : float) : Z :=
  match Prim2SF d with
  | S754_zero _ => 0
  | S754_finite s m e =>
      let mag := trunc_magnitude m e in
      let v := if s then - mag else mag in
      if (Int32.min_int <=? v) && (v <=? Int32.max_int) then v
      else Int32.min_int
  | S754_infinity _ | S754_nan => Int32.min_int
  end.

(** [m * 2^e * 10^6] rounded to the nearest integer, ties to even. *)
Definition scaled_micro (m : positive) (e : Z) : Z :=
  if 0 <=? e then Z.pos m * 2 ^ e * 10 ^ 6
  else
    let num := Z.pos m * 10 ^ 6 in
    let den := 2 ^ (- e) in
    let q := num / den in
    let r := num mod den in
    if 2 * r <? den then q
    else if den <? 2 * r then q + 1
    else if Z.even q then q else q + 1.

Fixpoint zeros (n : nat) : string :=
  match n with
  | O => EmptyString
  | S k => String "0" (zeros k)
  end.

(** [std::to_string(double)], which prints as [printf("%f")] does: all
    integer digits and six decimals.  The kernel's floats have one NaN,
    which prints as "nan" here; [printf] also prints the sign bit of a
    NaN. *)
Definition to_string (d : float) : string :=
  match Prim2SF d with
  | S754_nan => "nan"
  | S754_infinity s => if s then "-inf" else "inf"
  | S754_zero s => if s then "-0.000000" else "0.000000"
  | S754_finite s m e =>
      let n := scaled_micro m e in
      let int_part := pretty (n / 10 ^ 6) in
      let frac := pretty (n mod 10 ^ 6) in
      let frac6 := zeros (6 - String.length frac) +:+ frac in
      (if s then "-" else "") +:+ int_part +:+ "." +:+ frac6
  end.

End Double.

(* ------------------------------------------------------------------ *)
(** ** Exceptions *)

(** [Opm::KeywordLocation]: where in the deck a keyword was read. *)
Record KeywordLocation : Type := mkKeywordLocation {
  loc_keyword : string;
  loc_filename : string;
  loc_lineno : Z
}.

(** The exception classes the code throws, each with its [what()]. *)
Inductive exception : Type :=
| invalid_argument (what : string)
| logic_error (what : string)
| domain_error (what : string)
| OpmInputError (what : string) (location : KeywordLocation).

Definition what (e : exception) : string :=
  match e with
  | invalid_argument w | logic_error w | domain_error w
  | OpmInputError w _ => w
  end.

(** The outcome of a call: a normal return or a thrown exception.  A
    [Throw] holds the exception only: what a member function has written
    to its object before it throws is not part of the outcome. *)
Inductive Result (A : Type) : Type :=
| Ok (a : A)
| Throw (e : exception).
Arguments Ok {A} a.
Arguments Throw {A} e.

Definition bind {A B : Type} (r : Result A) (k : A -> Result B) : Result B :=
  match r with
  | Ok a => k a
  | Throw e => Throw e
  end.

Notation "'do' x <- r ; k" := (bind r (fun x => k))
  (at level 10, x name, r at level 100, k at level 200).
Notation "'do' ' p <- r ; k" := (bind r (fun x => let 'p := x in k))
  (at level 10, p strict pattern, r at level 100, k at level 200).

(** [needle] occurs in [haystack]. *)
Definition contains (haystack needle : string) : bool :=
  match String.index 0 needle haystack with
  | Some _ => true
  | None => false
  end.

(* ------------------------------------------------------------------ *)
(** ** UDAValue *)

Module UDAValue.

(** Modelled from the spec: UDAValue.hpp is not among the sources.  A
    control target is "either a literal number or a named UDQ/UDA
    reference, i.e. a [UDAValue]" (4.4).  The dimension the C++ class also
    carries plays no part in what follows and is left out. *)
Inductive t : Type :=
| Numeric (double_value : float)
| Named (string_value : string).

(** Modelled from the spec: [is<double>()], true of a literal number. *)
Definition is_double (v : t) : bool :=
  match v with Numeric _ => true | Named _ => false end.

(** Modelled from the spec: [get<double>()]; only a literal number has
    one. *)
Definition get_double (v : t) : Result float :=
  match v with
  | Numeric d => Ok d
  | Named s =>
      Throw (invalid_argument ("The string: '" +:+ s +:+ "' must be numeric"))
  end.

(** Modelled from the spec: [get<std::string>()]; only a named reference
    has one. *)
Definition get_string (v : t) : Result string :=
  match v with
  | Named s => Ok s
  | Numeric _ => Throw (invalid_argument "UDAValue does not hold a string value")
  end.

(** Modelled from the spec: [update(double)] makes the value that literal
    number. *)
Definition update (d : float) (_ : t) : t := Numeric d.

(** Modelled from the spec: [update_value(other)] takes over the value of
    [other]. *)
Definition update_value (other : t) (_ : t) : t := other.

(** Modelled from the spec: [is_defined()]; a number is defined, a
    reference is when it has a name. *)
Definition is_defined (v : t) : bool :=
  match v with
  | Numeric _ => true
  | Named s => negb (String.eqb s "")
  end.

(** Modelled from the spec: [operator*=(double)] scales a literal number;
    a named reference cannot be scaled at deck-processing time. *)
Definition scale (factor : float) (v : t) : Result t :=
  match v with
  | Numeric d => Ok (Numeric (d * factor)%float)
  | Named s =>
      Throw (logic_error ("Can not multiply UDQ: " +:+ s +:+ " with numeric value"))
  end.

End UDAValue.

(* ------------------------------------------------------------------ *)
(** ** Opm::EclIO (EclUtil.cpp) *)

Module EclIO.

(** [std::isdigit] in the "C" locale: the characters '0' to '9'. *)
Definition isdigit (c : ascii) : bool :=
  (48 <=? nat_of_ascii c)%nat && (nat_of_ascii c <=? 57)%nat.

(** [std::all_of(first, last, pred)] over the characters of a string. *)
Fixpoint all_of (pred : ascii -> bool) (s : string) : bool :=
  match s with
  | EmptyString => true
  | String c rest => if pred c then all_of pred rest else false
  end.

(** The predicate of the lambda is [std::isdigit(c) != 0]. *)
Definition is_number (numstr : string) : bool :=
  all_of (fun c => isdigit c) numstr.

Definition combineSummaryNumbers (n1 n2 : Z) : Z :=
  Int32.add n1 (Int32.mul (Int32.shl 1 15) (Int32.add n2 10)).

Definition splitSummaryNumber (n : Z) : Z * Z :=
  let n1 := Int32.rem n (Int32.shl 1 15) in
  let n2 := Int32.sub (Int32.div n (Int32.shl 1 15)) 10 in
  (n1, n2).

(** The characters of a string, in order. *)
Definition chars (s : string) : list ascii := list_ascii_of_string s.

Definition decimal_digits : list ascii := chars "0123456789".

(** Characters that occur in a signed, fractional or exponent number. *)
Definition number_punctuation : list ascii := chars "+-.eEdD".

End EclIO.

(* ------------------------------------------------------------------ *)
(** ** UDA controls and the active-UDA tracker *)

Module UDAControl.

(** Modelled from the spec: the enumeration lives in UDQEnums.hpp, which is
    not among the sources.  These are the controls the well and group
    keywords can bind to a UDA; the enumerators the injection code names
    are [WCONINJE_*] and the [WELTARG_*] of its switch statements. *)
Inductive t : Type :=
| WCONPROD_ORAT | WCONPROD_WRAT | WCONPROD_GRAT | WCONPROD_LRAT
| WCONPROD_RESV | WCONPROD_BHP | WCONPROD_THP | WCONPROD_LIFT
| WCONINJE_RATE | WCONINJE_RESV | WCONINJE_BHP | WCONINJE_THP
| GCONPROD_OIL_TARGET | GCONPROD_WATER_TARGET
| GCONPROD_GAS_TARGET | GCONPROD_LIQUID_TARGET
| GCONINJE_SURFACE_MAX_RATE | GCONINJE_RESV_MAX_RATE
| GCONINJE_TARGET_REINJ_FRACTION | GCONINJE_TARGET_VOID_FRACTION
| WELTARG_ORAT | WELTARG_WRAT | WELTARG_GRAT | WELTARG_LRAT
| WELTARG_RESV | WELTARG_BHP | WELTARG_THP | WELTARG_LIFT.

Definition all : list t :=
  [ WCONPROD_ORAT; WCONPROD_WRAT; WCONPROD_GRAT; WCONPROD_LRAT;
    WCONPROD_RESV; WCONPROD_BHP; WCONPROD_THP; WCONPROD_LIFT;
    WCONINJE_RATE; WCONINJE_RESV; WCONINJE_BHP; WCONINJE_THP;
    GCONPROD_OIL_TARGET; GCONPROD_WATER_TARGET;
    GCONPROD_GAS_TARGET; GCONPROD_LIQUID_TARGET;
    GCONINJE_SURFACE_MAX_RATE; GCONINJE_RESV_MAX_RATE;
    GCONINJE_TARGET_REINJ_FRACTION; GCONINJE_TARGET_VOID_FRACTION;
    WELTARG_ORAT; WELTARG_WRAT; WELTARG_GRAT; WELTARG_LRAT;
    WELTARG_RESV; WELTARG_BHP; WELTARG_THP; WELTARG_LIFT ].

(** Position in the enumeration. *)
Definition index (c : t) : nat :=
  match c with
  | WCONPROD_ORAT => 0 | WCONPROD_WRAT => 1 | WCONPROD_GRAT => 2
  | WCONPROD_LRAT => 3 | WCONPROD_RESV => 4 | WCONPROD_BHP => 5
  | WCONPROD_THP => 6 | WCONPROD_LIFT => 7
  | WCONINJE_RATE => 8 | WCONINJE_RESV => 9 | WCONINJE_BHP => 10
  | WCONINJE_THP => 11
  | GCONPROD_OIL_TARGET => 12 | GCONPROD_WATER_TARGET => 13
  | GCONPROD_GAS_TARGET => 14 | GCONPROD_LIQUID_TARGET => 15
  | GCONINJE_SURFACE_MAX_RATE => 16 | GCONINJE_RESV_MAX_RATE => 17
  | GCONINJE_TARGET_REINJ_FRACTION => 18
  | GCONINJE_TARGET_VOID_FRACTION => 19
  | WELTARG_ORAT => 20 | WELTARG_WRAT => 21 | WELTARG_GRAT => 22
  | WELTARG_LRAT => 23 | WELTARG_RESV => 24 | WELTARG_BHP => 25
  | WELTARG_THP => 26 | WELTARG_LIFT => 27
  end%nat.

#[global] Instance eq_dec : EqDecision t.
Proof. solve_decision. Defined.

#[global] Instance countable : Countable t.
Proof.
  refine (inj_countable' index (fun n => nth n all WCONPROD_ORAT) _).
  intros []; reflexivity.
Defined.

(** [UDQ::controlName]: the name of the enumerator. *)
Definition controlName (c : t) : string :=
  match c with
  | WCONPROD_ORAT => "WCONPROD_ORAT" | WCONPROD_WRAT => "WCONPROD_WRAT"
  | WCONPROD_GRAT => "WCONPROD_GRAT" | WCONPROD_LRAT => "WCONPROD_LRAT"
  | WCONPROD_RESV => "WCONPROD_RESV" | WCONPROD_BHP => "WCONPROD_BHP"
  | WCONPROD_THP => "WCONPROD_THP" | WCONPROD_LIFT => "WCONPROD_LIFT"
  | WCONINJE_RATE => "WCONINJE_RATE" | WCONINJE_RESV => "WCONINJE_RESV"
  | WCONINJE_BHP => "WCONINJE_BHP" | WCONINJE_THP => "WCONINJE_THP"
  | GCONPROD_OIL_TARGET => "GCONPROD_OIL_TARGET"
  | GCONPROD_WATER_TARGET => "GCONPROD_WATER_TARGET"
  | GCONPROD_GAS_TARGET => "GCONPROD_GAS_TARGET"
  | GCONPROD_LIQUID_TARGET => "GCONPROD_LIQUID_TARGET"
  | GCONINJE_SURFACE_MAX_RATE => "GCONINJE_SURFACE_MAX_RATE"
  | GCONINJE_RESV_MAX_RATE => "GCONINJE_RESV_MAX_RATE"
  | GCONINJE_TARGET_REINJ_FRACTION => "GCONINJE_TARGET_REINJ_FRACTION"
  | GCONINJE_TARGET_VOID_FRACTION => "GCONINJE_TARGET_VOID_FRACTION"
  | WELTARG_ORAT => "WELTARG_ORAT" | WELTARG_WRAT => "WELTARG_WRAT"
  | WELTARG_GRAT => "WELTARG_GRAT" | WELTARG_LRAT => "WELTARG_LRAT"
  | WELTARG_RESV => "WELTARG_RESV" | WELTARG_BHP => "WELTARG_BHP"
  | WELTARG_THP => "WELTARG_THP" | WELTARG_LIFT => "WELTARG_LIFT"
  end.

End UDAControl.

Module UDQActive.

(** Modelled from the spec: UDQActive.hpp and its implementation are not
    among the sources.  The tracker "records, per well/group-level control,
    which UDQ quantities are currently referenced by a live control" (2):
    a finite map from (entity name, control) to the name of the UDQ that
    drives the control. *)
Record t : Type := mk {
  input_data : gmap (string * UDAControl.t) string
}.

Definition empty : t := mk ∅.

(** Modelled from the spec: [update(config, value, entity_name, control)
    -> count] "records that a given named control is currently driven by a
    UDQ/UDA reference rather than a literal number, returning 1 if this
    registration changed tracked state, 0 otherwise" (4.3).  A value that
    names a UDQ is recorded for the control; a literal number means the
    control is not driven by a UDQ, so a record for it is dropped.  The
    configuration is only consulted, never changed. *)
Definition update {UDQConfig : Type} (udq_config : UDQConfig)
    (value : UDAValue.t) (wgname : string) (control : UDAControl.t)
    (active : t) : Z * t :=
  let key := (wgname, control) in
  match value with
  | UDAValue.Named udq =>
      match input_data active !! key with
      | Some current =>
          if String.eqb current udq then (0, active)
          else (1, mk (<[key := udq]> (input_data active)))
      | None => (1, mk (<[key := udq]> (input_data active)))
      end
  | UDAValue.Numeric _ =>
      match input_data active !! key with
      | Some _ => (1, mk (delete key (input_data active)))
      | None => (0, active)
      end
  end.

(** The tracker agrees with [value] about the control [key]: a named UDQ
    is the one on record, a literal number has no record. *)
Definition settled (value : UDAValue.t) (key : string * UDAControl.t)
    (active : t) : Prop :=
  match value with
  | UDAValue.Named udq => input_data active !! key = Some udq
  | UDAValue.Numeric _ => input_data active !! key = None
  end.

End UDQActive.

(* ------------------------------------------------------------------ *)
(** ** The UDQ evaluator *)

Module UDQ.

(** Modelled from the spec: UDQEnums.hpp is not among the sources.  The
    "entity-kind / target_type: the scope a quantity is defined over (well,
    group, field, region, segment, aquifer, block)" (glossary), with the
    scalar kind of 3 and the [NONE] the class declaration initialises
    [var_type] with. *)
Inductive UDQVarType : Type :=
| NONE | SCALAR | CONNECTION_VAR | FIELD_VAR | REGION_VAR | SEGMENT_VAR
| AQUIFER_VAR | BLOCK_VAR | WELL_VAR | GROUP_VAR | TABLE_LOOKUP.

#[global] Instance UDQVarType_eq_dec : EqDecision UDQVarType.
Proof. solve_decision. Defined.

(** Modelled from the spec: the token types behind the node kinds of 2
    and 4.1: a number, a summary-vector reference, a table lookup, the
    binary operators [+ - * / ^], [UADD], the comparison [>], and the
    unary functions [LOG] and [SUM]. *)
Inductive UDQTokenType : Type :=
| error
| number
| ecl_expr
| table_lookup
| binary_op_add | binary_op_sub | binary_op_mul | binary_op_div
| binary_op_pow | binary_op_uadd
| binary_cmp_gt
| elemental_func_log
| scalar_func_sum.

(** *** Value sets *)

(** Modelled from the spec: UDQSet.hpp is not among the sources.  A Set is
    "a mapping from entity name/index to a double, plus a declared
    entity-kind ... and a defined/undefined flag per entry" (3).  The
    entries are kept in order; an undefined entry is [None]. *)
Record UDQSet : Type := mkSet {
  set_type : UDQVarType;
  values : list (string * option float)
}.

Definition scalar (v : option float) : UDQSet := mkSet SCALAR [(""%string, v)].

(** The value of a scalar Set. *)
Definition scalar_value (s : UDQSet) : option (option float) :=
  match set_type s, values s with
  | SCALAR, [(_, v)] => Some v
  | _, _ => None
  end.

Definition members (s : UDQSet) : list string := map fst (values s).

Definition fully_defined (s : UDQSet) : Prop :=
  Forall (fun e : string * option float => is_Some (snd e)) (values s).

(** The value of entity [wgname], when the Set has a defined one. *)
Definition value_of (wgname : string) (s : UDQSet) : option float :=
  match find (fun e : string * option float => String.eqb (fst e) wgname) (values s) with
  | Some (_, v) => v
  | None => None
  end.

(** "An undefined operand yields an undefined result for that entry." *)
Definition poison (f : float -> float -> float) (a b : option float)
  : option float :=
  match a, b with
  | Some x, Some y => Some (f x y)
  | _, _ => None
  end.

(** "Defined-aware add: like [+] but treats an undefined operand as
    ignorable rather than poisoning the result." *)
Definition pass_through (f : float -> float -> float) (a b : option float)
  : option float :=
  match a, b with
  | Some x, Some y => Some (f x y)
  | Some x, None => Some x
  | None, Some y => Some y
  | None, None => None
  end.

Fixpoint zip_with (g : option float -> option float -> option float)
    (l r : list (string * option float)) : list (string * option float) :=
  match l, r with
  | (k, a) :: l', (_, b) :: r' => (k, g a b) :: zip_with g l' r'
  | _, _ => []
  end.

(** Modelled from the spec: "arithmetic between two Sets of different
    entity-kinds is only legal when one side is a scalar (broadcast) or
    both sides share identical entity membership" (3); "incompatible Set
    shapes in a binary op" is a semantic error (7). *)
Definition elementwise (g : option float -> option float -> option float)
    (lhs rhs : UDQSet) : Result UDQSet :=
  match scalar_value lhs, scalar_value rhs with
  | Some a, Some b => Ok (scalar (g a b))
  | Some a, None =>
      Ok (mkSet (set_type rhs) (map (fun e => (fst e, g a (snd e))) (values rhs)))
  | None, Some b =>
      Ok (mkSet (set_type lhs) (map (fun e => (fst e, g (snd e) b)) (values lhs)))
  | None, None =>
      if decide (members lhs = members rhs)
      then Ok (mkSet (set_type lhs) (zip_with g (values lhs) (values rhs)))
      else Throw (invalid_argument "Incompatible set shapes in binary operation")
  end.

Definition gt (x y : float) : float := if (y <? x)%float then 1%float else 0%float.

(** The Set operators: [+], [-], [*], [/], [>] and [UADD]. *)
Definition add (lhs rhs : UDQSet) := elementwise (poison PrimFloat.add) lhs rhs.
Definition sub (lhs rhs : UDQSet) := elementwise (poison PrimFloat.sub) lhs rhs.
Definition mul (lhs rhs : UDQSet) := elementwise (poison PrimFloat.mul) lhs rhs.
Definition div (lhs rhs : UDQSet) := elementwise (poison PrimFloat.div) lhs rhs.
Definition cmp_gt (lhs rhs : UDQSet) := elementwise (poison gt) lhs rhs.
Definition UADD (lhs rhs : UDQSet) := elementwise (pass_through PrimFloat.add) lhs rhs.

(** The sign multiplier of a node applied to its result. *)
Definition scale_set (sign : float) (s : UDQSet) : UDQSet :=
  mkSet (set_type s)
    (map (fun e => (fst e, option_map (fun x => (sign * x)%float) (snd e))) (values s)).

(** [SUM]: "aggregates a per-entity Set into a scalar by summing all
    defined entries, propagating 'no entries' as zero" (4.1). *)
Definition SUM (arg : UDQSet) : UDQSet :=
  scalar (Some (fold_left
                  (fun acc e => match snd e with
                                | Some x => (acc + x)%float
                                | None => acc
                                end)
                  (values arg) 0%float)).

(** Every entry through a function that can fail; the first failure is
    the outcome. *)
Fixpoint map_entries (f : float -> Result float)
    (l : list (string * option float)) : Result (list (string * option float)) :=
  match l with
  | [] => Ok []
  | (k, None) :: l' =>
      do rest <- map_entries f l'; Ok ((k, None) :: rest)
  | (k, Some x) :: l' =>
      do y <- f x; do rest <- map_entries f l'; Ok ((k, Some y) :: rest)
  end.

(** *** The AST node (UDQASTNode.hpp) *)

(** The data members of the class; a null [shared_ptr] child is [None]. *)
#[warnings="-register-all"]
Inductive UDQASTNode : Type := mkNode {
  var_type : UDQVarType;
  type : UDQTokenType;
  value : string + float;
  sign : float;
  selector : list string;
  left : option UDQASTNode;
  right : option UDQASTNode
}.

(** The constructors of the class. *)
Definition node_of_number (scalar_value : float) : UDQASTNode :=
  mkNode SCALAR number (inr scalar_value) 1 [] None None.

Definition node_leaf (kind : UDQVarType) (type_arg : UDQTokenType)
    (value_arg : string + float) (selector : list string) : UDQASTNode :=
  mkNode kind type_arg value_arg 1 selector None None.

Definition node_unary (kind : UDQVarType) (type_arg : UDQTokenType)
    (value_arg : string + float) (left_arg : UDQASTNode) : UDQASTNode :=
  mkNode kind type_arg value_arg 1 [] (Some left_arg) None.

Definition node_binary (kind : UDQVarType) (type_arg : UDQTokenType)
    (value_arg : string + float) (left_arg right_arg : UDQASTNode) : UDQASTNode :=
  mkNode kind type_arg value_arg 1 [] (Some left_arg) (Some right_arg).

(** The mutators the class declares; each gives the changed node. *)
Definition scale (sign_factor : float) (this : UDQASTNode) : UDQASTNode :=
  mkNode (var_type this) (type this) (value this)
    (sign this * sign_factor)%float (selector this) (left this) (right this).

Definition set_left (arg : UDQASTNode) (this : UDQASTNode) : UDQASTNode :=
  mkNode (var_type this) (type this) (value this) (sign this)
    (selector this) (Some arg) (right this).

Definition set_right (arg : UDQASTNode) (this : UDQASTNode) : UDQASTNode :=
  mkNode (var_type this) (type this) (value this) (sign this)
    (selector this) (left this) (Some arg).

(** *** The evaluation context *)

(** Modelled from the spec: UDQContext.hpp is not among the sources.  The
    context is "lookup of current values for any summary-vector keyword +
    entity-name, lookup of auxiliary region/aquifer tables, and
    enumeration of all entity names of each kind" (3).  A field-level
    vector is stored under the entity name [FIELD]. *)
Record UDQContext : Type := mkContext {
  wells : list string;
  groups : list string;
  regions : list string;
  segments : list string;
  keywords : gset string;
  summary : gmap (string * string) float;
  tables : gmap (string * list string) float
}.

Definition entities (kind : UDQVarType) (context : UDQContext) : list string :=
  match kind with
  | WELL_VAR => wells context
  | GROUP_VAR => groups context
  | REGION_VAR => regions context
  | SEGMENT_VAR => segments context
  | FIELD_VAR => ["FIELD"%string]
  | _ => []
  end.

(** A selector pattern against an entity name; [*] stands for any run of
    characters. *)
Fixpoint wildcard_match (pattern : string) : string -> bool :=
  match pattern with
  | EmptyString => fun s => match s with EmptyString => true | _ => false end
  | String c pattern' =>
      if Ascii.eqb c "*" then
        fix star (s : string) : bool :=
          wildcard_match pattern' s
          || match s with
             | EmptyString => false
             | String _ s' => star s'
             end
      else
        fun s => match s with
                 | EmptyString => false
                 | String d s' => Ascii.eqb c d && wildcard_match pattern' s'
                 end
  end.

Definition selected (selector : list string) (wgname : string) : bool :=
  match selector with
  | [] => true
  | _ => existsb (fun pattern => wildcard_match pattern wgname) selector
  end.

(** The kind combinations a reference supports: its own kind, a
    field-level or scalar reference under any target, and any reference
    under a field-level or scalar target (where an enclosing [SUM] or a
    selector reduces it). *)
Definition supported_kinds (kind eval_target : UDQVarType) : bool :=
  match kind, eval_target with
  | FIELD_VAR, _ | SCALAR, _ => true
  | _, FIELD_VAR | _, SCALAR | _, NONE => true
  | _, _ => bool_decide (kind = eval_target)
  end.

(** *** Evaluation *)

(** A computation that is handed the context, can fail, and hands the
    context back. *)
Definition Eval (A : Type) : Type := UDQContext -> Result A * UDQContext.

Definition ret {A : Type} (a : A) : Eval A := fun context => (Ok a, context).

Definition fail {A : Type} (e : exception) : Eval A :=
  fun context => (Throw e, context).

Definition lift {A : Type} (r : Result A) : Eval A :=
  fun context => (r, context).

Definition ebind {A B : Type} (m : Eval A) (k : A -> Eval B) : Eval B :=
  fun context =>
    match m context with
    | (Ok a, context') => k a context'
    | (Throw e, context') => (Throw e, context')
    end.

(** Read access to the context. *)
Definition reads {A : Type} (f : UDQContext -> A) : Eval A :=
  fun context => (Ok (f context), context).

(** A computation that hands the context back as it received it. *)
Definition read_only {A : Type} (m : Eval A) : Prop :=
  forall context, snd (m context) = context.

(** A property of a child node, when there is one. *)
Definition for_child (P : UDQASTNode -> Prop) (child : option UDQASTNode) : Prop :=
  match child with
  | Some node => P node
  | None => True
  end.

Notation "'perform' x <- m ; k" := (ebind m (fun x => k))
  (at level 10, x name, m at level 100, k at level 200).

Section Evaluator.

(** [std::log10] and [std::pow] of the C library. *)
Variable log10 : float -> float.
Variable pow : float -> float -> float.

(** Modelled from the spec: "[LOG(x)] with [x <= 0] fails with a domain
    error rather than producing NaN silently" (4.1). *)
Definition log_checked (x : float) : Result float :=
  if (x <=? 0)%float
  then Throw (domain_error
                ("Argument: " +:+ Double.to_string x
                 +:+ " invalid for function LOG"))
  else Ok (log10 x).

(** The elementwise [LOG] of a Set; undefined entries stay undefined. *)
Definition LOG (arg : UDQSet) : Result UDQSet :=
  do vs <- map_entries log_checked (values arg);
  Ok (mkSet (set_type arg) vs).

Definition POW (lhs rhs : UDQSet) := elementwise (poison pow) lhs rhs.

(** Modelled from the spec: a number leaf "returns a scalar Set
    broadcastable to any target_type" (4.2). *)
Definition eval_number (value : string + float) : Eval UDQSet :=
  match value with
  | inr numeric_value => ret (scalar (Some numeric_value))
  | inl _ => fail (invalid_argument "Number node without a numeric value")
  end.

(** Modelled from the spec: a reference leaf "resolves via Context to
    the current Set of values for that summary vector at the node's
    entity-kind; if the node carries a selector ... filters/narrows to
    matching entities"; the node fails "when a referenced keyword is
    unknown to Context, a selector matches zero entities where at least
    one is required, ... or target_type/kind combination is
    unsupported" (4.2).  One function stands for the well, group,
    segment and region variants the class declares. *)
Definition eval_expression (kind : UDQVarType) (value : string + float)
    (selector : list string) (eval_target : UDQVarType) : Eval UDQSet :=
  match value with
  | inr _ => fail (invalid_argument "Reference node without a keyword")
  | inl string_value =>
      perform known <- reads (fun context => bool_decide (string_value ∈ keywords context));
      if negb known then
        fail (invalid_argument ("Unknown keyword " +:+ string_value))
      else if negb (supported_kinds kind eval_target) then
        fail (invalid_argument
                ("Unsupported target type for keyword " +:+ string_value))
      else
        perform chosen <- reads (fun context =>
                           filter (fun e => selected selector e = true)
                                  (entities kind context));
        match selector, chosen with
        | _ :: _, [] =>
            fail (invalid_argument
                    ("Selector of " +:+ string_value +:+ " matches no entity"))
        | _, _ =>
            reads (fun context =>
                     mkSet kind
                       (map (fun e => (e, summary context !! (string_value, e)))
                            chosen))
        end
  end.

(** Modelled from the spec: a table-lookup node "resolves the named
    table/region/well argument through Context and ... indexes to
    produce a Set" (4.2). *)
Definition eval_table_lookup (value : string + float)
    (selector : list string) : Eval UDQSet :=
  match value with
  | inr _ => fail (invalid_argument "Table lookup without a key")
  | inl string_value =>
      perform found <- reads (fun context => tables context !! (string_value, selector));
      match found with
      | Some x => ret (scalar (Some x))
      | None => fail (invalid_argument ("Unknown table entry " +:+ string_value))
      end
  end.

(** The operator of a binary token. *)
Definition binary_function (type : UDQTokenType)
  : option (UDQSet -> UDQSet -> Result UDQSet) :=
  match type with
  | binary_op_add => Some add
  | binary_op_sub => Some sub
  | binary_op_mul => Some mul
  | binary_op_div => Some div
  | binary_op_pow => Some POW
  | binary_op_uadd => Some UADD
  | binary_cmp_gt => Some cmp_gt
  | _ => None
  end.

(** Modelled from the spec: a binary node "evaluates both children to
    same target_type, applies the arithmetic/comparison op elementwise"
    (4.2); a binary node without both children is not well formed. *)
Definition eval_binary_function (eval_child : UDQASTNode -> Eval UDQSet)
    (op : UDQSet -> UDQSet -> Result UDQSet)
    (left right : option UDQASTNode) : Eval UDQSet :=
  match left, right with
  | Some l, Some r =>
      perform lhs <- eval_child l;
      perform rhs <- eval_child r;
      lift (op lhs rhs)
  | _, _ => fail (invalid_argument "Binary node without two operands")
  end.

(** Modelled from the spec: a unary function node "evaluates the child,
    applies the scalar function elementwise ([LOG])" (4.2). *)
Definition eval_elemental_unary_function
    (eval_child : UDQASTNode -> Eval UDQSet)
    (left : option UDQASTNode) : Eval UDQSet :=
  match left with
  | Some l => perform arg <- eval_child l; lift (LOG arg)
  | None => fail (invalid_argument "Function node without an argument")
  end.

(** Modelled from the spec: "... or as an aggregate ([SUM])" (4.2). *)
Definition eval_scalar_function (eval_child : UDQASTNode -> Eval UDQSet)
    (left : option UDQASTNode) : Eval UDQSet :=
  match left with
  | Some l => perform arg <- eval_child l; ret (SUM arg)
  | None => fail (invalid_argument "Function node without an argument")
  end.

(** Modelled from the spec: UDQASTNode.cpp is not among the sources.
    [eval(target_type, context) -> Set] dispatches on the node kind (4.2)
    and applies the node's sign multiplier to the result. *)
Fixpoint eval (eval_target : UDQVarType) (this : UDQASTNode) {struct this}
  : Eval UDQSet :=
  match this with
  | mkNode kind type value sign selector left right =>
      perform result <-
        (match type with
        | number => eval_number value
        | ecl_expr => eval_expression kind value selector eval_target
        | table_lookup => eval_table_lookup value selector
        | elemental_func_log =>
            eval_elemental_unary_function (eval eval_target) left
        | scalar_func_sum =>
            eval_scalar_function (eval eval_target) left
        | error => fail (invalid_argument "Should not be here")
        | _ =>
            match binary_function type with
            | Some op =>
                eval_binary_function (eval eval_target) op left right
            | None => fail (invalid_argument "Should not be here")
            end
        end);
      ret (scale_set sign result)
  end.

End Evaluator.

(** *** The UDQ configuration *)

(** Modelled from the spec: UDQConfig is not among the sources.  The deck
    statements [DEFINE <NAME> <expr>] and [ASSIGN <NAME> <literal>] (6);
    the expression is given parsed. *)
Inductive UDQInput : Type :=
| DEFINE (ast : UDQASTNode)
| ASSIGN (value : float).

Inductive Statement : Type :=
| Define (name : string) (ast : UDQASTNode)
| Assign (name : string) (value : float)
| Units (name : string) (unit_string : string).

(** Modelled from the spec: "an ordered map keyed by name" in which a
    "later [DEFINE]/[ASSIGN] for the same name silently replaces the
    earlier one", with the "original declaration order preserved for the
    list of active quantities" (9). *)
Record UDQConfig : Type := mkConfig {
  input : list (string * UDQInput)
}.

Definition empty_config : UDQConfig := mkConfig [].

Fixpoint replace_or_append (name : string) (def : UDQInput)
    (l : list (string * UDQInput)) : list (string * UDQInput) :=
  match l with
  | [] => [(name, def)]
  | (k, v) :: l' =>
      if String.eqb k name then (name, def) :: l'
      else (k, v) :: replace_or_append name def l'
  end.

Definition add_define (name : string) (ast : UDQASTNode) (config : UDQConfig) :=
  mkConfig (replace_or_append name (DEFINE ast) (input config)).

Definition add_assign (name : string) (value : float) (config : UDQConfig) :=
  mkConfig (replace_or_append name (ASSIGN value) (input config)).

Definition add_statement (config : UDQConfig) (st : Statement) : UDQConfig :=
  match st with
  | Define name ast => add_define name ast config
  | Assign name value => add_assign name value config
  | Units _ _ => config
  end.

(** The configuration a UDQ keyword section leaves behind. *)
Definition load (statements : list Statement) : UDQConfig :=
  fold_left add_statement statements empty_config.

Fixpoint lookup_input (name : string) (l : list (string * UDQInput))
  : option UDQInput :=
  match l with
  | [] => None
  | (k, v) :: l' => if String.eqb k name then Some v else lookup_input name l'
  end.

Definition lookup (name : string) (config : UDQConfig) : option UDQInput :=
  lookup_input name (input config).

(** The names of the configured quantities, in declaration order. *)
Definition quantities (config : UDQConfig) : list string :=
  map fst (input config).

(** What a statement binds, when it binds its name to a new content. *)
Definition binding (name : string) (st : Statement) : option UDQInput :=
  match st with
  | Define n ast => if String.eqb n name then Some (DEFINE ast) else None
  | Assign n value => if String.eqb n name then Some (ASSIGN value) else None
  | Units _ _ => None
  end.

(** The content the last statement for [name] gives it. *)
Fixpoint last_binding (name : string) (statements : list Statement)
  : option UDQInput :=
  match statements with
  | [] => None
  | st :: rest =>
      match last_binding name rest with
      | Some def => Some def
      | None => binding name st
      end
  end.

(** "[<NAME>] prefix encodes target entity-kind" (6). *)
Definition varType (keyword : string) : UDQVarType :=
  match keyword with
  | String "W" _ => WELL_VAR
  | String "G" _ => GROUP_VAR
  | String "F" _ => FIELD_VAR
  | String "R" _ => REGION_VAR
  | String "S" _ => SEGMENT_VAR
  | String "C" _ => CONNECTION_VAR
  | String "A" _ => AQUIFER_VAR
  | String "B" _ => BLOCK_VAR
  | _ => NONE
  end.

(** Modelled from the spec: the value of a configured quantity at one
    evaluation epoch: the Set its defining expression evaluates to for the
    kind its name encodes, or the assigned constant for every entity of
    that kind. *)
Definition eval_quantity (log10 : float -> float)
    (pow : float -> float -> float) (name : string) (config : UDQConfig)
  : Eval UDQSet :=
  match lookup name config with
  | Some (DEFINE ast) => eval log10 pow (varType name) ast
  | Some (ASSIGN value) =>
      reads (fun context =>
               mkSet (varType name)
                 (map (fun e => (e, Some value)) (entities (varType name) context)))
  | None => fail (invalid_argument ("Unknown quantity " +:+ name))
  end.

(** *** The test fixture (tests/UDQ_TEST_WCONPROD_IUAD-2.DATA) *)

Definition well_rate (keyword well : string) : UDQASTNode :=
  node_leaf WELL_VAR ecl_expr (inl keyword) [well].

(** [(KEYWORD ENTITY - offset) * factor]. *)
Definition capacity (kind : UDQVarType) (reference : UDQASTNode)
    (offset factor : float) : UDQASTNode :=
  node_binary kind binary_op_mul (inl "*"%string)
    (node_binary kind binary_op_sub (inl "-"%string)
       reference (node_of_number offset))
    (node_of_number factor).

(** The first eight statements of the UDQ section, up to the second
    [DEFINE WUOPRL]. *)
#[warnings="-inexact-float"]
Definition fixture_statements : list Statement :=
  [ Define "WUOPRL" (capacity WELL_VAR (well_rate "WOPR" "PROD1") 150 0.90);
    Define "WULPRL" (capacity WELL_VAR (well_rate "WLPR" "PROD1") 200 0.90);
    Define "WUOPRU" (capacity WELL_VAR (well_rate "WOPR" "PROD2") 250 0.80);
    Define "GUOPRU"
      (capacity GROUP_VAR (node_leaf GROUP_VAR ecl_expr (inl "GOPR"%string) ["GRP1"%string])
         449 0.77);
    Define "WULPRU" (capacity WELL_VAR (well_rate "WLPR" "PROD2") 300 0.80);
    Assign "WULPRL" 400;
    Define "FULPR"
      (capacity FIELD_VAR (node_leaf FIELD_VAR ecl_expr (inl "FLPR"%string) [])
         543 0.65);
    Define "WUOPRL" (capacity WELL_VAR (well_rate "WOPR" "PROD1") 170 0.60)
  ]%string.

(** An evaluation epoch of the fixture in which well PROD1 produces oil
    at the rate [x]. *)
Definition fixture_context (x : float) : UDQContext :=
  mkContext
    ["PROD1"; "PROD2"; "WINJ1"; "WINJ2"]%string
    ["FIELD"; "GRP1"; "WGRP1"; "WGRP2"]%string
    [] []
    {[ "WOPR"%string ]}
    {[ ("WOPR", "PROD1")%string := x ]}
    ∅.

End UDQ.

(* ------------------------------------------------------------------ *)
(** ** Deck records *)

Module Deck.

(** One item of a [DeckRecord], as the handlers query it:
    [defaultApplied(0)], [hasValue(0)] and the stored value. *)
Record DeckItem (T : Type) : Type := mkItem {
  defaultApplied : bool;
  hasValue : bool;
  get : T
}.
Arguments mkItem {T} _ _ _.
Arguments defaultApplied {T} _.
Arguments hasValue {T} _.
Arguments get {T} _.

(** A floating-point item: the number as written ([get<double>(0)]) and
    converted to SI units ([getSIDouble(0)]). *)
Record Dimensioned : Type := mkDimensioned {
  raw : float;
  si : float
}.

Definition getSIDouble (item : DeckItem Dimensioned) : float := si (get item).
Definition getDouble (item : DeckItem Dimensioned) : float := raw (get item).

(** [getTrimmedString(0)]; the item holds the text with the blanks around
    it already removed. *)
Definition getTrimmedString (item : DeckItem string) : string := get item.

(** The items of a WCONINJE record [handleWCONINJE] reads. *)
Module WCONINJE.
Record Record_ : Type := mk {
  TYPE : DeckItem string;
  RATE : DeckItem UDAValue.t;
  RESV : DeckItem UDAValue.t;
  VFP_TABLE : DeckItem Z;
  THP : DeckItem UDAValue.t;
  BHP : DeckItem UDAValue.t;
  CMODE : DeckItem string;
  VAPOIL_C : DeckItem Dimensioned
}.
End WCONINJE.

(** The items of a WCONINJH record [handleWCONINJH] reads. *)
Module WCONINJH.
Record Record_ : Type := mk {
  TYPE : DeckItem string;
  RATE : DeckItem float;
  BHP : DeckItem Dimensioned;
  THP : DeckItem Dimensioned;
  CMODE : DeckItem string;
  VAPOIL_C : DeckItem Dimensioned
}.
End WCONINJH.

End Deck.

(* ------------------------------------------------------------------ *)
(** ** Well enumerations (ScheduleTypes.hpp, Well.hpp) *)

Module InjectorType.

Inductive t : Type := WATER | GAS | OIL | MULTI.

Definition eqb (a b : t) : bool :=
  match a, b with
  | WATER, WATER | GAS, GAS | OIL, OIL | MULTI, MULTI => true
  | _, _ => false
  end.

(** Modelled from the spec: the string tables of ScheduleTypes are not
    among the sources; an unknown name is "an invalid ... string" that
    "fails at deck-processing time" (7).  The test deck writes a water
    injector as 'WAT'. *)
Definition InjectorTypeFromString (stringValue : string) : Result t :=
  if String.eqb stringValue "OIL" then Ok OIL
  else if String.eqb stringValue "WATER" || String.eqb stringValue "WAT"
          || String.eqb stringValue "WTR" || String.eqb stringValue "W"
  then Ok WATER
  else if String.eqb stringValue "GAS" || String.eqb stringValue "G"
  then Ok GAS
  else if String.eqb stringValue "MULTI" then Ok MULTI
  else Throw (invalid_argument ("Unknown injector type " +:+ stringValue)).

End InjectorType.

Module InjectorCMode.

Inductive t : Type := RATE | RESV | BHP | THP | GRUP | CMODE_UNDEFINED.

Definition eqb (a b : t) : bool :=
  match a, b with
  | RATE, RATE | RESV, RESV | BHP, BHP | THP, THP | GRUP, GRUP
  | CMODE_UNDEFINED, CMODE_UNDEFINED => true
  | _, _ => false
  end.

(** [static_cast<int>(mode)]: every mode is one bit of the
    [injectionControls] mask. *)
Definition to_int (m : t) : Z :=
  match m with
  | RATE => 1
  | RESV => 2
  | BHP => 4
  | THP => 8
  | GRUP => 16
  | CMODE_UNDEFINED => 512
  end.

(** The position of the bit of a mode in the mask. *)
Definition bit (m : t) : Z :=
  match m with
  | RATE => 0
  | RESV => 1
  | BHP => 2
  | THP => 3
  | GRUP => 4
  | CMODE_UNDEFINED => 9
  end.

(** Modelled from the spec: the string tables of ScheduleTypes are not
    among the sources; "an invalid control mode string ... fails at
    deck-processing time" (7).  A mode is written by the name of its
    enumerator. *)
Definition WellInjectorCModeFromString (stringValue : string) : Result t :=
  if String.eqb stringValue "RATE" then Ok RATE
  else if String.eqb stringValue "RESV" then Ok RESV
  else if String.eqb stringValue "BHP" then Ok BHP
  else if String.eqb stringValue "THP" then Ok THP
  else if String.eqb stringValue "GRUP" then Ok GRUP
  else Throw (invalid_argument
                ("Unknown control mode " +:+ stringValue
                 +:+ " encountered in injector well"))%string.

(** Modelled from the spec: see [WellInjectorCModeFromString]. *)
Definition WellInjectorCMode2String (enumValue : t) : Result string :=
  match enumValue with
  | RATE => Ok "RATE"
  | RESV => Ok "RESV"
  | BHP => Ok "BHP"
  | THP => Ok "THP"
  | GRUP => Ok "GRUP"
  | CMODE_UNDEFINED =>
      Throw (invalid_argument
               ("Unhandled enum value: " +:+ pretty (to_int CMODE_UNDEFINED)
                +:+ " in WellInjectorCMode2String"))
  end%string.

End InjectorCMode.

Module WELTARGCMode.

Inductive t : Type :=
| ORAT | WRAT | GRAT | LRAT | CRAT | RESV | BHP | THP | VFP | LIFT | GUID.

(** Modelled from the spec: the string tables of ScheduleTypes are not
    among the sources; a mode prints as the name of its enumerator. *)
Definition WellWELTARGCMode2String (cmode : t) : string :=
  match cmode with
  | ORAT => "ORAT" | WRAT => "WRAT" | GRAT => "GRAT" | LRAT => "LRAT"
  | CRAT => "CRAT" | RESV => "RESV" | BHP => "BHP" | THP => "THP"
  | VFP => "VFP" | LIFT => "LIFT" | GUID => "GUID"
  end.

End WELTARGCMode.

(** [OpmLog]: the messages logged so far, oldest first. *)
Module OpmLog.
Inductive Message : Type :=
| Warning (text : string).
Definition t : Type := list Message.
Definition warning (msg : string) (log : t) : t := (log ++ [Warning msg])%list.
End OpmLog.

(* ------------------------------------------------------------------ *)
(** ** Well::WellInjectionProperties (WellInjectionProperties.cpp) *)

Module Well.

Import Deck.

Record WellInjectionProperties : Type := mkProps {
  name : string;
  surfaceInjectionRate : UDAValue.t;
  reservoirInjectionRate : UDAValue.t;
  BHPTarget : UDAValue.t;
  THPTarget : UDAValue.t;
  bhp_hist_limit : float;
  thp_hist_limit : float;
  BHPH : float;
  THPH : float;
  VFPTableNumber : Z;
  predictionMode : bool;
  injectionControls : Z;
  injectorType : InjectorType.t;
  controlMode : InjectorCMode.t;
  rsRvInj : float;
  gas_inj_composition : option (list float)
}.

(** *** Assignments to one member *)

Definition set_surfaceInjectionRate (v : UDAValue.t) (p : WellInjectionProperties) :=
  mkProps (name p) v (reservoirInjectionRate p) (BHPTarget p) (THPTarget p)
    (bhp_hist_limit p) (thp_hist_limit p) (BHPH p) (THPH p)
    (VFPTableNumber p) (predictionMode p) (injectionControls p)
    (injectorType p) (controlMode p) (rsRvInj p) (gas_inj_composition p).

Definition set_reservoirInjectionRate (v : UDAValue.t) (p : WellInjectionProperties) :=
  mkProps (name p) (surfaceInjectionRate p) v (BHPTarget p) (THPTarget p)
    (bhp_hist_limit p) (thp_hist_limit p) (BHPH p) (THPH p)
    (VFPTableNumber p) (predictionMode p) (injectionControls p)
    (injectorType p) (controlMode p) (rsRvInj p) (gas_inj_composition p).

Definition set_BHPTarget (v : UDAValue.t) (p : WellInjectionProperties) :=
  mkProps (name p) (surfaceInjectionRate p) (reservoirInjectionRate p) v
    (THPTarget p) (bhp_hist_limit p) (thp_hist_limit p) (BHPH p) (THPH p)
    (VFPTableNumber p) (predictionMode p) (injectionControls p)
    (injectorType p) (controlMode p) (rsRvInj p) (gas_inj_composition p).

Definition set_THPTarget (v : UDAValue.t) (p : WellInjectionProperties) :=
  mkProps (name p) (surfaceInjectionRate p) (reservoirInjectionRate p)
    (BHPTarget p) v (bhp_hist_limit p) (thp_hist_limit p) (BHPH p) (THPH p)
    (VFPTableNumber p) (predictionMode p) (injectionControls p)
    (injectorType p) (controlMode p) (rsRvInj p) (gas_inj_composition p).

Definition set_bhp_hist_limit (v : float) (p : WellInjectionProperties) :=
  mkProps (name p) (surfaceInjectionRate p) (reservoirInjectionRate p)
    (BHPTarget p) (THPTarget p) v (thp_hist_limit p) (BHPH p) (THPH p)
    (VFPTableNumber p) (predictionMode p) (injectionControls p)
    (injectorType p) (controlMode p) (rsRvInj p) (gas_inj_composition p).

Definition set_BHPH (v : float) (p : WellInjectionProperties) :=
  mkProps (name p) (surfaceInjectionRate p) (reservoirInjectionRate p)
    (BHPTarget p) (THPTarget p) (bhp_hist_limit p) (thp_hist_limit p) v
    (THPH p) (VFPTableNumber p) (predictionMode p) (injectionControls p)
    (injectorType p) (controlMode p) (rsRvInj p) (gas_inj_composition p).

Definition set_THPH (v : float) (p : WellInjectionProperties) :=
  mkProps (name p) (surfaceInjectionRate p) (reservoirInjectionRate p)
    (BHPTarget p) (THPTarget p) (bhp_hist_limit p) (thp_hist_limit p)
    (BHPH p) v (VFPTableNumber p) (predictionMode p) (injectionControls p)
    (injectorType p) (controlMode p) (rsRvInj p) (gas_inj_composition p).

Definition set_VFPTableNumber (v : Z) (p : WellInjectionProperties) :=
  mkProps (name p) (surfaceInjectionRate p) (reservoirInjectionRate p)
    (BHPTarget p) (THPTarget p) (bhp_hist_limit p) (thp_hist_limit p)
    (BHPH p) (THPH p) v (predictionMode p) (injectionControls p)
    (injectorType p) (controlMode p) (rsRvInj p) (gas_inj_composition p).

Definition set_predictionMode (v : bool) (p : WellInjectionProperties) :=
  mkProps (name p) (surfaceInjectionRate p) (reservoirInjectionRate p)
    (BHPTarget p) (THPTarget p) (bhp_hist_limit p) (thp_hist_limit p)
    (BHPH p) (THPH p) (VFPTableNumber p) v (injectionControls p)
    (injectorType p) (controlMode p) (rsRvInj p) (gas_inj_composition p).

Definition set_injectionControls (v : Z) (p : WellInjectionProperties) :=
  mkProps (name p) (surfaceInjectionRate p) (reservoirInjectionRate p)
    (BHPTarget p) (THPTarget p) (bhp_hist_limit p) (thp_hist_limit p)
    (BHPH p) (THPH p) (VFPTableNumber p) (predictionMode p) v
    (injectorType p) (controlMode p) (rsRvInj p) (gas_inj_composition p).

Definition set_injectorType (v : InjectorType.t) (p : WellInjectionProperties) :=
  mkProps (name p) (surfaceInjectionRate p) (reservoirInjectionRate p)
    (BHPTarget p) (THPTarget p) (bhp_hist_limit p) (thp_hist_limit p)
    (BHPH p) (THPH p) (VFPTableNumber p) (predictionMode p)
    (injectionControls p) v (controlMode p) (rsRvInj p)
    (gas_inj_composition p).

Definition set_controlMode (v : InjectorCMode.t) (p : WellInjectionProperties) :=
  mkProps (name p) (surfaceInjectionRate p) (reservoirInjectionRate p)
    (BHPTarget p) (THPTarget p) (bhp_hist_limit p) (thp_hist_limit p)
    (BHPH p) (THPH p) (VFPTableNumber p) (predictionMode p)
    (injectionControls p) (injectorType p) v (rsRvInj p)
    (gas_inj_composition p).

Definition set_rsRvInj (v : float) (p : WellInjectionProperties) :=
  mkProps (name p) (surfaceInjectionRate p) (reservoirInjectionRate p)
    (BHPTarget p) (THPTarget p) (bhp_hist_limit p) (thp_hist_limit p)
    (BHPH p) (THPH p) (VFPTableNumber p) (predictionMode p)
    (injectionControls p) (injectorType p) (controlMode p) v
    (gas_inj_composition p).

Definition set_gas_inj_composition (v : option (list float))
    (p : WellInjectionProperties) :=
  mkProps (name p) (surfaceInjectionRate p) (reservoirInjectionRate p)
    (BHPTarget p) (THPTarget p) (bhp_hist_limit p) (thp_hist_limit p)
    (BHPH p) (THPH p) (VFPTableNumber p) (predictionMode p)
    (injectionControls p) (injectorType p) (controlMode p) (rsRvInj p) v.

(** The constructor [WellInjectionProperties(units, wname)].  The targets
    start as the number zero; the two history limits are not initialised by
    the constructor and are taken as zero. *)
Definition construct (wname : string) : WellInjectionProperties :=
  mkProps wname (UDAValue.Numeric 0) (UDAValue.Numeric 0)
    (UDAValue.Numeric 0) (UDAValue.Numeric 0) 0 0 0 0 0 true 0
    InjectorType.WATER InjectorCMode.CMODE_UNDEFINED 0 None.

(** *** The set of active injection controls *)

(** Modelled from the spec: the three members below are defined inline in
    Well.hpp, which is not among the sources.  [injectionControls] is the
    "active injection-control set", an [int] bit mask (initialised with 0,
    set to 10 in [serializationTestObject]) with one bit per
    [InjectorCMode]. *)
Definition hasInjectionControl (controlModeArg : InjectorCMode.t)
    (this : WellInjectionProperties) : bool :=
  negb (Int32.land (injectionControls this) (InjectorCMode.to_int controlModeArg) =? 0).

(** Modelled from the spec: see [hasInjectionControl]. *)
Definition dropInjectionControl (controlModeArg : InjectorCMode.t)
    (this : WellInjectionProperties) : WellInjectionProperties :=
  let int_arg := InjectorCMode.to_int controlModeArg in
  if negb (Int32.land (injectionControls this) int_arg =? 0)
  then set_injectionControls (Int32.sub (injectionControls this) int_arg) this
  else this.

(** Modelled from the spec: see [hasInjectionControl]. *)
Definition addInjectionControl (controlModeArg : InjectorCMode.t)
    (this : WellInjectionProperties) : WellInjectionProperties :=
  let int_arg := InjectorCMode.to_int controlModeArg in
  if Int32.land (injectionControls this) int_arg =? 0
  then set_injectionControls (Int32.add (injectionControls this) int_arg) this
  else this.

Definition clearControls (this : WellInjectionProperties) :=
  set_injectionControls 0 this.

Definition resetBHPLimit (this : WellInjectionProperties) :=
  set_bhp_hist_limit 0 this.

(** *** Keyword handlers *)

(** The rs/rv concentration of the VAPOIL_C item, as both record handlers
    compute it in their last lines. *)
Definition vapoil_concentration (item : DeckItem Dimensioned)
    (this : WellInjectionProperties) : WellInjectionProperties :=
  let this := set_rsRvInj (getSIDouble item) this in
  if InjectorType.eqb (injectorType this) InjectorType.OIL
     && (0 <? rsRvInj this)%float
  then
    let factor := (getSIDouble item / getDouble item)%float in
    set_rsRvInj (getDouble item / factor)%float this
  else this.

Definition handleWCONINJE (record : WCONINJE.Record_) (bhp_def : float)
    (availableForGroupControl : bool) (well_name : string)
    (location : KeywordLocation) (this : WellInjectionProperties)
  : Result WellInjectionProperties :=
  do type <- InjectorType.InjectorTypeFromString
               (getTrimmedString (WCONINJE.TYPE record));
  let this := set_injectorType type this in
  let this := set_predictionMode true this in
  let this :=
    if negb (defaultApplied (WCONINJE.RATE record)) then
      addInjectionControl InjectorCMode.RATE
        (set_surfaceInjectionRate (get (WCONINJE.RATE record)) this)
    else dropInjectionControl InjectorCMode.RATE this in
  let this :=
    if negb (defaultApplied (WCONINJE.RESV record)) then
      addInjectionControl InjectorCMode.RESV
        (set_reservoirInjectionRate (get (WCONINJE.RESV record)) this)
    else dropInjectionControl InjectorCMode.RESV this in
  let this := set_VFPTableNumber (get (WCONINJE.VFP_TABLE record)) this in
  do this <-
    (if negb (defaultApplied (WCONINJE.THP record)) then
       let this :=
         addInjectionControl InjectorCMode.THP
           (set_THPTarget (get (WCONINJE.THP record)) this) in
       if VFPTableNumber this =? 0 then
         Throw (OpmInputError
                  ("Well " +:+ well_name +:+ " must have a VFP table to handle"
                   +:+ " non-zero THP constraint") location)
       else Ok this
     else Ok (dropInjectionControl InjectorCMode.THP this));
  let this :=
    if defaultApplied (WCONINJE.BHP record) then
      set_BHPTarget (UDAValue.update bhp_def (BHPTarget this)) this
    else set_BHPTarget (get (WCONINJE.BHP record)) this in
  let this := addInjectionControl InjectorCMode.BHP this in
  let this :=
    if availableForGroupControl
    then addInjectionControl InjectorCMode.GRUP this
    else dropInjectionControl InjectorCMode.GRUP this in
  let cmodeString := getTrimmedString (WCONINJE.CMODE record) in
  do controlModeArg <- InjectorCMode.WellInjectorCModeFromString cmodeString;
  do this <-
    (if hasInjectionControl controlModeArg this
     then Ok (set_controlMode controlModeArg this)
     else Throw (invalid_argument
                   ("Tried to set invalid control: " +:+ cmodeString
                    +:+ " for well: " +:+ well_name)));
  Ok (vapoil_concentration (WCONINJE.VAPOIL_C record) this).

Definition handleWELTARG (cmode : WELTARGCMode.t) (new_arg : UDAValue.t)
    (SiFactorP : float) (this : WellInjectionProperties)
  : Result WellInjectionProperties :=
  match cmode with
  | WELTARGCMode.BHP =>
      if predictionMode this then
        Ok (set_BHPTarget (UDAValue.update_value new_arg (BHPTarget this)) this)
      else
        do d <- UDAValue.get_double new_arg;
        Ok (set_bhp_hist_limit (d * SiFactorP)%float this)
  | WELTARGCMode.ORAT =>
      if InjectorType.eqb (injectorType this) InjectorType.OIL then
        Ok (set_surfaceInjectionRate
              (UDAValue.update_value new_arg (surfaceInjectionRate this)) this)
      else Throw (invalid_argument "Well type must be OIL to set the oil rate")
  | WELTARGCMode.WRAT =>
      if InjectorType.eqb (injectorType this) InjectorType.WATER then
        Ok (set_surfaceInjectionRate
              (UDAValue.update_value new_arg (surfaceInjectionRate this)) this)
      else Throw (invalid_argument "Well type must be WATER to set the water rate")
  | WELTARGCMode.GRAT =>
      if InjectorType.eqb (injectorType this) InjectorType.GAS then
        Ok (set_surfaceInjectionRate
              (UDAValue.update_value new_arg (surfaceInjectionRate this)) this)
      else Throw (invalid_argument "Well type must be GAS to set the gas rate")
  | WELTARGCMode.THP =>
      Ok (set_THPTarget (UDAValue.update_value new_arg (THPTarget this)) this)
  | WELTARGCMode.VFP =>
      do d <- UDAValue.get_double new_arg;
      Ok (set_VFPTableNumber (Double.to_int d) this)
  | WELTARGCMode.RESV =>
      Ok (set_reservoirInjectionRate
            (UDAValue.update_value new_arg (reservoirInjectionRate this)) this)
  | WELTARGCMode.GUID => Ok this
  | WELTARGCMode.LRAT | WELTARGCMode.CRAT | WELTARGCMode.LIFT =>
      Throw (invalid_argument "Invalid keyword (MODE) supplied")
  end.

Definition handleWCONINJH (record : WCONINJH.Record_) (vfp_table_nr : Z)
    (bhp_def : float) (is_producer : bool) (well_name : string)
    (loc : KeywordLocation) (log : OpmLog.t) (this : WellInjectionProperties)
  : Result (WellInjectionProperties * OpmLog.t) :=
  let typeItem := WCONINJH.TYPE record in
  if defaultApplied typeItem then
    Throw (invalid_argument
             "Injection type can not be defaulted for keyword WCONINJH")
  else
  do type <- InjectorType.InjectorTypeFromString (getTrimmedString typeItem);
  let this := set_injectorType type this in
  let this :=
    if negb (defaultApplied (WCONINJH.RATE record)) then
      let injectionRate := get (WCONINJH.RATE record) in
      set_surfaceInjectionRate
        (UDAValue.update injectionRate (surfaceInjectionRate this)) this
    else this in
  let this :=
    if hasValue (WCONINJH.BHP record)
    then set_BHPH (getSIDouble (WCONINJH.BHP record)) this else this in
  let this :=
    if hasValue (WCONINJH.THP record)
    then set_THPH (getSIDouble (WCONINJH.THP record)) this else this in
  let cmodeString := getTrimmedString (WCONINJH.CMODE record) in
  do newControlMode <- InjectorCMode.WellInjectorCModeFromString cmodeString;
  do '(newControlMode, log) <-
    (if negb (InjectorCMode.eqb newControlMode InjectorCMode.RATE
              || InjectorCMode.eqb newControlMode InjectorCMode.BHP)
     then
       let inputControlMode := newControlMode in
       let newControlMode := InjectorCMode.RATE in
       let sir := surfaceInjectionRate this in
       do target <-
         (if UDAValue.is_double sir
          then do d <- UDAValue.get_double sir; Ok (Double.to_string d)
          else UDAValue.get_string sir);
       do selected <- InjectorCMode.WellInjectorCMode2String inputControlMode;
       let msg :=
         "Problem with keyword WCONINJH" +:+ String "010" ""
         +:+ "In " +:+ loc_filename loc +:+ " line " +:+ pretty (loc_lineno loc)
         +:+ String "010" ""
         +:+ "Only RATE and BHP controls supported for well " +:+ well_name
         +:+ "." +:+ String "010" ""
         +:+ "Selected control " +:+ selected
         +:+ " reset to RATE, with target = " +:+ target +:+ "." in
       Ok (newControlMode, OpmLog.warning msg log)
     else Ok (newControlMode, log));
  let this :=
    if InjectorCMode.eqb newControlMode InjectorCMode.BHP then
      set_bhp_hist_limit (BHPH this) this
    else
      let switching_from_producer := is_producer in
      let switching_from_prediction := predictionMode this in
      let switching_from_BHP_control :=
        InjectorCMode.eqb (controlMode this) InjectorCMode.BHP in
      if switching_from_prediction || switching_from_BHP_control
         || switching_from_producer
      then set_bhp_hist_limit bhp_def this
      else this in
  let this := addInjectionControl InjectorCMode.BHP this in
  let this := addInjectionControl newControlMode this in
  let this := set_controlMode newControlMode this in
  let this := set_predictionMode false this in
  let this := set_VFPTableNumber vfp_table_nr this in
  Ok (vapoil_concentration (WCONINJH.VAPOIL_C record) this, log).

(** *** Registration with the active-UDA tracker *)

Definition updateUDQActive {UDQConfig : Type} (udq_config : UDQConfig)
    (active : UDQActive.t) (this : WellInjectionProperties)
  : bool * UDQActive.t :=
  let update_count := 0 in
  let '(n, active) :=
    UDQActive.update udq_config (surfaceInjectionRate this) (name this)
      UDAControl.WCONINJE_RATE active in
  let update_count := Int32.add update_count n in
  let '(n, active) :=
    UDQActive.update udq_config (reservoirInjectionRate this) (name this)
      UDAControl.WCONINJE_RESV active in
  let update_count := Int32.add update_count n in
  let '(n, active) :=
    UDQActive.update udq_config (BHPTarget this) (name this)
      UDAControl.WCONINJE_BHP active in
  let update_count := Int32.add update_count n in
  let '(n, active) :=
    UDQActive.update udq_config (THPTarget this) (name this)
      UDAControl.WCONINJE_THP active in
  let update_count := Int32.add update_count n in
  (0 <? update_count, active).

(** The overload that takes the WELTARG mode. *)
Definition updateUDQActive_cmode {UDQConfig : Type} (udq_config : UDQConfig)
    (cmode : WELTARGCMode.t) (active : UDQActive.t)
    (this : WellInjectionProperties) : bool * UDQActive.t :=
  let registered (value : UDAValue.t) (control : UDAControl.t) :=
    let '(n, active) :=
      UDQActive.update udq_config value (name this) control active in
    (0 <? n, active) in
  match cmode with
  | WELTARGCMode.ORAT =>
      if InjectorType.eqb (injectorType this) InjectorType.OIL
      then registered (surfaceInjectionRate this) UDAControl.WELTARG_ORAT
      else (false, active)
  | WELTARGCMode.WRAT =>
      if InjectorType.eqb (injectorType this) InjectorType.WATER
      then registered (surfaceInjectionRate this) UDAControl.WELTARG_WRAT
      else (false, active)
  | WELTARGCMode.GRAT =>
      if InjectorType.eqb (injectorType this) InjectorType.GAS
      then registered (surfaceInjectionRate this) UDAControl.WELTARG_GRAT
      else (false, active)
  | WELTARGCMode.RESV =>
      registered (reservoirInjectionRate this) UDAControl.WELTARG_RESV
  | WELTARGCMode.BHP =>
      registered (BHPTarget this) UDAControl.WELTARG_BHP
  | WELTARGCMode.THP =>
      registered (THPTarget this) UDAControl.WELTARG_THP
  | _ => (false, active)
  end.

Definition update_uda {UDQConfig : Type} (udq_config : UDQConfig)
    (udq_active : UDQActive.t) (control : UDAControl.t) (value : UDAValue.t)
    (this : WellInjectionProperties)
  : Result (WellInjectionProperties * UDQActive.t) :=
  let update_active := true in
  do '(this, update_active) <-
    match control with
    | UDAControl.WCONINJE_RATE =>
        Ok (set_surfaceInjectionRate value this, update_active)
    | UDAControl.WELTARG_ORAT =>
        if InjectorType.eqb (injectorType this) InjectorType.OIL
        then Ok (set_surfaceInjectionRate value this, update_active)
        else Ok (this, false)
    | UDAControl.WELTARG_WRAT =>
        if InjectorType.eqb (injectorType this) InjectorType.WATER
        then Ok (set_surfaceInjectionRate value this, update_active)
        else Ok (this, false)
    | UDAControl.WELTARG_GRAT =>
        if InjectorType.eqb (injectorType this) InjectorType.GAS
        then Ok (set_surfaceInjectionRate value this, update_active)
        else Ok (this, false)
    | UDAControl.WCONINJE_RESV | UDAControl.WELTARG_RESV =>
        Ok (set_reservoirInjectionRate value this, update_active)
    | UDAControl.WCONINJE_BHP | UDAControl.WELTARG_BHP =>
        Ok (set_BHPTarget value this, update_active)
    | UDAControl.WCONINJE_THP | UDAControl.WELTARG_THP =>
        Ok (set_THPTarget value this, update_active)
    | _ =>
        Throw (logic_error
                 ("Unsupported well injection UDA control '"
                  +:+ UDAControl.controlName control +:+ "'"))
    end;
  if update_active : bool then
    Ok (this, snd (UDQActive.update udq_config value (name this) control udq_active))
  else Ok (this, udq_active).

(** *** WTMULT *)

(** The lambda [update_target] of [handleWTMULT]. *)
Definition update_target (cmode : WELTARGCMode.t) (factor : float)
    (target : UDAValue.t) : Result UDAValue.t :=
  if UDAValue.is_defined target then UDAValue.scale factor target
  else Throw (invalid_argument
                ("Cannot apply WTMULT to undefined "
                 +:+ WELTARGCMode.WellWELTARGCMode2String cmode +:+ " target")).

Definition handleWTMULT (cmode : WELTARGCMode.t) (factor : float)
    (this : WellInjectionProperties) : Result WellInjectionProperties :=
  match cmode with
  | WELTARGCMode.BHP =>
      do v <- update_target cmode factor (BHPTarget this);
      Ok (set_BHPTarget v this)
  | WELTARGCMode.ORAT =>
      if InjectorType.eqb (injectorType this) InjectorType.OIL then
        do v <- update_target cmode factor (surfaceInjectionRate this);
        Ok (set_surfaceInjectionRate v this)
      else Throw (invalid_argument "Well type must be OIL to scale the oil rate")
  | WELTARGCMode.WRAT =>
      if InjectorType.eqb (injectorType this) InjectorType.WATER then
        do v <- update_target cmode factor (surfaceInjectionRate this);
        Ok (set_surfaceInjectionRate v this)
      else Throw (invalid_argument "Well type must be WATER to scale the oil rate")
  | WELTARGCMode.GRAT =>
      if InjectorType.eqb (injectorType this) InjectorType.GAS then
        do v <- update_target cmode factor (surfaceInjectionRate this);
        Ok (set_surfaceInjectionRate v this)
      else Throw (invalid_argument "Well type must be GAS to scale the oil rate")
  | WELTARGCMode.THP =>
      do v <- update_target cmode factor (THPTarget this);
      Ok (set_THPTarget v this)
  | WELTARGCMode.RESV =>
      do v <- update_target cmode factor (reservoirInjectionRate this);
      Ok (set_reservoirInjectionRate v this)
  | _ =>
      (* the exception object is built but not thrown *)
      Ok this
  end.

Definition setGasInjComposition (composition : list float)
    (this : WellInjectionProperties) : WellInjectionProperties :=
  set_gas_inj_composition (Some composition) this.

Definition gasInjComposition (this : WellInjectionProperties)
  : Result (list float) :=
  match gas_inj_composition this with
  | Some composition => Ok composition
  | None => Throw (invalid_argument "Gas injection composition not set")
  end.

(** *** The fluid a rate target is about *)

(** The injector type each fluid-specific WELTARG mode asks for. *)
Definition fluid_of_cmode (cmode : WELTARGCMode.t) : option InjectorType.t :=
  match cmode with
  | WELTARGCMode.ORAT => Some InjectorType.OIL
  | WELTARGCMode.WRAT => Some InjectorType.WATER
  | WELTARGCMode.GRAT => Some InjectorType.GAS
  | _ => None
  end.

(** The same for the UDA controls of WELTARG. *)
Definition fluid_of_control (control : UDAControl.t) : option InjectorType.t :=
  match control with
  | UDAControl.WELTARG_ORAT => Some InjectorType.OIL
  | UDAControl.WELTARG_WRAT => Some InjectorType.WATER
  | UDAControl.WELTARG_GRAT => Some InjectorType.GAS
  | _ => None
  end.

(** The name of a fluid as the messages spell it. *)
Definition fluid_name (f : InjectorType.t) : string :=
  match f with
  | InjectorType.WATER => "WATER"
  | InjectorType.GAS => "GAS"
  | InjectorType.OIL => "OIL"
  | InjectorType.MULTI => "MULTI"
  end.

(** *** What the record handlers establish *)

(** The BHP control is active and the selected control mode is one of the
    active controls. *)
Definition controls_consistent (this : WellInjectionProperties) : Prop :=
  hasInjectionControl InjectorCMode.BHP this = true
  /\ hasInjectionControl (controlMode this) this = true.

(** *** The test fixture (tests/UDQ_TEST_WCONPROD_IUAD-2.DATA) *)

Definition item {T : Type} (v : T) : DeckItem T := mkItem false true v.
Definition defaulted {T : Type} (v : T) : DeckItem T := mkItem true true v.

(** ['WINJ1' 'WAT' 'OPEN' 'BHP' 1* 1200 3500 1* /] of WCONINJE. *)
Definition fixture_WCONINJE : WCONINJE.Record_ :=
  WCONINJE.mk (item "WAT"%string)
    (defaulted (UDAValue.Numeric 0))
    (item (UDAValue.Numeric 1200))
    (defaulted 0)
    (defaulted (UDAValue.Numeric 0))
    (item (UDAValue.Numeric 3500))
    (item "BHP"%string)
    (defaulted (mkDimensioned 0 0)).

(** A history record for the same well that asks for THP control:
    ['WINJ1' 'WAT' 'OPEN' 1000 1* 1* 1* 'THP' /] of WCONINJH. *)
Definition history_THP : WCONINJH.Record_ :=
  WCONINJH.mk (item "WAT"%string)
    (item 1000%float)
    (mkItem true false (mkDimensioned 0 0))
    (mkItem true false (mkDimensioned 0 0))
    (item "THP"%string)
    (defaulted (mkDimensioned 0 0)).

Definition fixture_location (keyword : string) (lineno : Z) : KeywordLocation :=
  mkKeywordLocation keyword "UDQ_TEST_WCONPROD_IUAD-2.DATA" lineno.

(** The water injector WINJ1 before any injection keyword is read. *)
Definition WINJ1 : WellInjectionProperties := construct "WINJ1".

(** *** The controls a WCONINJE record asks for *)

(** Whether a record makes the control [c] active: a rate, reservoir rate
    or THP target that is given, the BHP limit always, group control when
    the well is available for it. *)
Definition requested_by_WCONINJE (record : WCONINJE.Record_)
    (availableForGroupControl : bool) (c : InjectorCMode.t) : bool :=
  match c with
  | InjectorCMode.RATE => negb (defaultApplied (WCONINJE.RATE record))
  | InjectorCMode.RESV => negb (defaultApplied (WCONINJE.RESV record))
  | InjectorCMode.THP => negb (defaultApplied (WCONINJE.THP record))
  | InjectorCMode.BHP => true
  | InjectorCMode.GRUP => availableForGroupControl
  | InjectorCMode.CMODE_UNDEFINED => false
  end.

(** *** The controls handed to the simulator *)

(** [Well::InjectionControls], with the members [controls()] fills in; the
    structure is declared in Well.hpp and built from the mask of active
    controls. *)
Record InjectionControls : Type := mkInjectionControls {
  ic_controls : Z;
  surface_rate : float;
  reservoir_rate : float;
  bhp_limit : float;
  thp_limit : float;
  injector_type : InjectorType.t;
  cmode : InjectorCMode.t;
  vfp_table_number : Z;
  prediction_mode : bool;
  rs_rv_inj : float
}.

Section Controls.

(** The unit system and the summary state are only passed on to the
    evaluation of a UDA, which eval_uda.hpp declares; a UDA that cannot be
    evaluated throws. *)
Variables UnitSystem SummaryState : Type.
Variable eval_well_uda :
  UDAValue.t -> string -> SummaryState -> float -> Result float.
Variable eval_well_uda_rate :
  UDAValue.t -> string -> SummaryState -> float -> InjectorType.t ->
  UnitSystem -> Result float.

Definition controls (unit_sys : UnitSystem) (st : SummaryState)
    (udq_def : float) (this : WellInjectionProperties)
  : Result InjectionControls :=
  do surface <- eval_well_uda_rate (surfaceInjectionRate this) (name this) st
                  udq_def (injectorType this) unit_sys;
  do reservoir <- eval_well_uda (reservoirInjectionRate this) (name this) st
                    udq_def;
  do '(bhp, thp) <-
    (if predictionMode this then
       do bhp <- eval_well_uda (BHPTarget this) (name this) st udq_def;
       do thp <- eval_well_uda (THPTarget this) (name this) st udq_def;
       Ok (bhp, thp)
     else Ok (bhp_hist_limit this, thp_hist_limit this));
  Ok (mkInjectionControls (injectionControls this) surface reservoir bhp thp
        (injectorType this) (controlMode this) (VFPTableNumber this)
        (predictionMode this) (rsRvInj this)).

End Controls.

(** [serializationTestObject()]. *)
Definition serializationTestObject : WellInjectionProperties :=
  mkProps "test" (UDAValue.Numeric 1) (UDAValue.Named "FUTEST")
    (UDAValue.Numeric 2) (UDAValue.Numeric 3) 4 5 7 8 9 true 10
    InjectorType.OIL InjectorCMode.BHP 11 (Some [1; 2; 3]%float).

(** *** The member a UDA control is bound to *)

(** The target [update_uda] assigns for a control, for the controls of an
    injector. *)
Definition uda_member (control : UDAControl.t)
  : option (WellInjectionProperties -> UDAValue.t) :=
  match control with
  | UDAControl.WCONINJE_RATE | UDAControl.WELTARG_ORAT
  | UDAControl.WELTARG_WRAT | UDAControl.WELTARG_GRAT =>
      Some surfaceInjectionRate
  | UDAControl.WCONINJE_RESV | UDAControl.WELTARG_RESV =>
      Some reservoirInjectionRate
  | UDAControl.WCONINJE_BHP | UDAControl.WELTARG_BHP => Some BHPTarget
  | UDAControl.WCONINJE_THP | UDAControl.WELTARG_THP => Some THPTarget
  | _ => None
  end.

(** The members a target update never writes. *)
Definition same_controls (this this' : WellInjectionProperties) : Prop :=
  injectionControls this' = injectionControls this
  /\ controlMode this' = controlMode this
  /\ injectorType this' = injectorType this
  /\ predictionMode this' = predictionMode this
  /\ name this' = name this.

(** The WELTARG modes that name no target of an injector. *)
Definition modes_without_injection_target : list WELTARGCMode.t :=
  [WELTARGCMode.LRAT; WELTARGCMode.CRAT; WELTARGCMode.LIFT].

End Well.

(* ------------------------------------------------------------------ *)
(** ** 64-bit integers and the bytes of a value *)

Module Int64.

Definition min_int : Z := - 2 ^ 63.
Definition max_int : Z := 2 ^ 63 - 1.

Definition in_range (z : Z) : Prop := min_int <= z <= max_int.

(** Two's complement wrap-around, also the conversion of a [size_t] to
    [std::int64_t]. *)
Definition wrap (z : Z) : Z := (z + 2 ^ 63) mod 2 ^ 64 - 2 ^ 63.

End Int64.

Module UInt64.

(** Arithmetic of [std::uint64_t] and [size_t] is modulo [2^64]; so is the
    conversion of a signed value to them. *)
Definition wrap (z : Z) : Z := z mod 2 ^ 64.

Definition add (a b : Z) : Z := wrap (a + b).
Definition sub (a b : Z) : Z := wrap (a - b).
Definition mul (a b : Z) : Z := wrap (a * b).
Definition div (a b : Z) : Z := a / b.

End UInt64.

Module Bytes.

(** The [n] bytes of an unsigned value, least significant first. *)
Fixpoint to_bytes (n : nat) (u : Z) : list Z :=
  match n with
  | O => []
  | S n' => u mod 256 :: to_bytes n' (u / 256)
  end.

Definition byte (b : Z) : Prop := 0 <= b < 256.

Fixpoint of_bytes (bs : list Z) : Z :=
  match bs with
  | [] => 0
  | b :: rest => b + 256 * of_bytes rest
  end.

(** [__builtin_bswap32], [__builtin_bswap64] ([_byteswap_ulong] and
    [_byteswap_uint64] with MSVC): the value with the order of its [n] bytes
    reversed. *)
Definition bswap (n : nat) (u : Z) : Z := of_bytes (rev (to_bytes n u)).

End Bytes.

(* ------------------------------------------------------------------ *)
(** ** The file utilities of Opm::EclIO (EclUtil.cpp) *)

Module EclUtil.

(** The exceptions of these functions; [OPM_THROW] is given the class and
    the message.  [std::out_of_range] comes from [std::string::substr]. *)
Inductive Error : Type :=
| invalid_argument (message : string)
| runtime_error (message : string)
| out_of_range.

Inductive Outcome (A : Type) : Type :=
| Return (a : A)
| Raise (e : Error).
Arguments Return {A} a.
Arguments Raise {A} e.

Definition and_then {A B : Type} (r : Outcome A) (k : A -> Outcome B)
  : Outcome B :=
  match r with
  | Return a => k a
  | Raise e => Raise e
  end.

Notation "'attempt' x <- r ; k" := (and_then r (fun x => k))
  (at level 10, x name, r at level 100, k at level 200).
Notation "'attempt' ' p <- r ; k" := (and_then r (fun x => let 'p := x in k))
  (at level 10, p strict pattern, r at level 100, k at level 200).

(** *** [std::string]

    A [std::string] is the list of its characters here; positions and
    counts are [size_t] values carried by [Z]. *)

Definition text : Type := list ascii.

Definition npos : Z := 2 ^ 64 - 1.

Definition size (s : text) : Z := Z.of_nat (length s).

(** The index of the first character that satisfies [p], the head of
    [s] having index [i]. *)
Fixpoint find_if (p : ascii -> bool) (s : text) (i : Z) : Z :=
  match s with
  | [] => npos
  | c :: rest => if p c then i else find_if p rest (i + 1)
  end.

Definition find_from (p : ascii -> bool) (s : text) (pos : Z) : Z :=
  if pos <? size s then find_if p (skipn (Z.to_nat pos) s) pos else npos.

(** [s.find_first_of(c, pos)] *)
Definition find_first_of (c : ascii) (pos : Z) (s : text) : Z :=
  find_from (fun x => Ascii.eqb x c) s pos.

(** [s.find_first_of(chars, pos)] *)
Definition find_first_of_any (chars : text) (pos : Z) (s : text) : Z :=
  find_from (fun x => existsb (Ascii.eqb x) chars) s pos.

(** [s.find_first_not_of(c, pos)] *)
Definition find_first_not_of (c : ascii) (pos : Z) (s : text) : Z :=
  find_from (fun x => negb (Ascii.eqb x c)) s pos.

(** The index of the last character that satisfies [p]. *)
Fixpoint find_last_if (p : ascii -> bool) (s : text) (i : Z) : option Z :=
  match s with
  | [] => None
  | c :: rest =>
      match find_last_if p rest (i + 1) with
      | Some j => Some j
      | None => if p c then Some i else None
      end
  end.

(** [s.find_last_not_of(c)] *)
Definition find_last_not_of (c : ascii) (s : text) : Z :=
  match find_last_if (fun x => negb (Ascii.eqb x c)) s 0 with
  | Some j => j
  | None => npos
  end.

(** [s.substr(pos, count)]: the characters [pos, pos + rcount) with
    [rcount = min(count, size() - pos)]; [std::out_of_range] when
    [pos > size()]. *)
Definition substr (pos count : Z) (s : text) : Outcome text :=
  if size s <? pos then Raise out_of_range
  else Return (firstn (Z.to_nat (Z.min count (size s - pos)))
                 (skipn (Z.to_nat pos) s)).

Fixpoint text_eqb (a b : text) : bool :=
  match a, b with
  | [], [] => true
  | x :: a', y :: b' => Ascii.eqb x y && text_eqb a' b'
  | _, _ => false
  end.

Definition blank : ascii := " "%char.
Definition quote : ascii := "'"%char.

Definition chars (s : string) : text := list_ascii_of_string s.

(** *** Byte order *)

Definition flipEndianInt (num : Z) : Z :=
  Int32.wrap (Bytes.bswap 4 (num mod 2 ^ 32)).

Definition flipEndianLongInt (num : Z) : Z :=
  Int64.wrap (Bytes.bswap 8 (num mod 2 ^ 64)).

(** *** Array types and their block layout *)

Inductive eclArrType : Type := INTE | REAL | DOUB | CHAR | LOGI | MESS | C0NN.

Definition is_MESS (t : eclArrType) : bool :=
  match t with MESS => true | _ => false end.

Definition is_C0NN (t : eclArrType) : bool :=
  match t with C0NN => true | _ => false end.

Section BlockLayout.

(** The constants of EclIOdata.hpp, which is not among the sources. *)
Variables sizeOfInte sizeOfReal sizeOfDoub sizeOfLogi sizeOfChar : Z.
Variables MaxBlockSizeInte MaxBlockSizeReal MaxBlockSizeDoub
          MaxBlockSizeLogi MaxBlockSizeChar : Z.
Variables MaxNumBlockInte MaxNumBlockReal MaxNumBlockDoub
          MaxNumBlockLogi MaxNumBlockChar : Z.
Variables numColumnsInte numColumnsReal numColumnsDoub
          numColumnsLogi numColumnsChar : Z.
Variables columnWidthInte columnWidthReal columnWidthDoub
          columnWidthLogi columnWidthChar : Z.

(** The [default:] branch of the switch is not reached by an
    enumerator. *)
Definition block_size_data_binary (arrType : eclArrType) : Outcome (Z * Z) :=
  match arrType with
  | INTE => Return (sizeOfInte, MaxBlockSizeInte)
  | REAL => Return (sizeOfReal, MaxBlockSizeReal)
  | DOUB => Return (sizeOfDoub, MaxBlockSizeDoub)
  | LOGI => Return (sizeOfLogi, MaxBlockSizeLogi)
  | CHAR => Return (sizeOfChar, MaxBlockSizeChar)
  | C0NN => Return (sizeOfChar, MaxBlockSizeChar)
  | MESS => Raise (invalid_argument "Type 'MESS' have no associated data")
  end.

Definition block_size_data_formatted (arrType : eclArrType)
  : Outcome (Z * Z * Z) :=
  match arrType with
  | INTE => Return (MaxNumBlockInte, numColumnsInte, columnWidthInte)
  | REAL => Return (MaxNumBlockReal, numColumnsReal, columnWidthReal)
  | DOUB => Return (MaxNumBlockDoub, numColumnsDoub, columnWidthDoub)
  | LOGI => Return (MaxNumBlockLogi, numColumnsLogi, columnWidthLogi)
  | CHAR => Return (MaxNumBlockChar, numColumnsChar, columnWidthChar)
  | C0NN => Return (MaxNumBlockChar, numColumnsChar, columnWidthChar)
  | MESS => Raise (invalid_argument "Type 'MESS' have no associated data")
  end.

(** [num] is a [std::int64_t], [elementSize] an [int]; the result and the
    block arithmetic are [std::uint64_t].  A division by zero, undefined in
    C++, is [0] here. *)
Definition sizeOnDiskBinary (num : Z) (arrType : eclArrType) (elementSize : Z)
  : Outcome Z :=
  if is_MESS arrType then
    if 0 <? num then
      Raise (invalid_argument
               "In routine calcSizeOfArray, type MESS can not have size > 0")
    else Return 0
  else if 0 <? num then
    attempt sizeData <- block_size_data_binary arrType;
    let sizeData :=
      if is_C0NN arrType then
        (elementSize,
         Int32.mul (Int32.div (snd sizeData) (fst sizeData)) elementSize)
      else sizeData in
    let sizeOfElement := fst sizeData in
    let maxBlockSize := snd sizeData in
    let maxNumberOfElements := Int32.div maxBlockSize sizeOfElement in
    let numBlocks :=
      UInt64.div (UInt64.wrap num) (UInt64.wrap maxNumberOfElements) in
    let rest :=
      UInt64.sub (UInt64.wrap num)
        (UInt64.mul numBlocks (UInt64.wrap maxNumberOfElements)) in
    let size2Inte := UInt64.mul (UInt64.wrap sizeOfInte) 2 in
    let sizeFullBlocks :=
      UInt64.mul numBlocks (UInt64.add (UInt64.wrap maxBlockSize) size2Inte) in
    let sizeLastBlock :=
      if 0 <? rest then
        UInt64.add (UInt64.mul rest (UInt64.wrap sizeOfElement)) size2Inte
      else 0 in
    Return (UInt64.add sizeFullBlocks sizeLastBlock)
  else Return 0.

(** [nBlocks], [sizeOfLastBlock] and the line counts are [int]s, [blockSize]
    is a [std::int64_t], [size] a [std::uint64_t].  A division by zero,
    undefined in C++ and a trap on x86-64, yields a number here: it happens
    for a block size or a number of columns of zero, and so for a C0NN
    array whose [elementSize + 3] is more than 80. *)
Definition sizeOnDiskFormatted (num : Z) (arrType : eclArrType)
    (elementSize : Z) : Outcome Z :=
  if is_MESS arrType then
    if 0 <? num then
      Raise (invalid_argument
               "In routine calcSizeOfArray, type MESS can not have size > 0")
    else Return 0
  else
    attempt sizeData <- block_size_data_formatted arrType;
    let sizeData :=
      if is_C0NN arrType then
        (fst (fst sizeData),
         Int32.div 80 (Int32.add elementSize 3),
         Int32.add elementSize 3)
      else sizeData in
    let maxBlockSize := fst (fst sizeData) in
    let nColumns := snd (fst sizeData) in
    let columnWidth := snd sizeData in
    let nBlocks := Int32.wrap (Int64.wrap (Z.quot num maxBlockSize)) in
    let sizeOfLastBlock := Int32.wrap (Z.rem num maxBlockSize) in
    let size :=
      if 0 <? nBlocks then
        let nLinesBlock := Int32.div maxBlockSize nColumns in
        let rest := Int32.rem maxBlockSize nColumns in
        let nLinesBlock :=
          if 0 <? rest then Int32.add nLinesBlock 1 else nLinesBlock in
        let blockSize :=
          Int64.wrap (Int32.add (Int32.mul maxBlockSize columnWidth) nLinesBlock) in
        UInt64.wrap (Int64.wrap (nBlocks * blockSize))
      else 0 in
    let nLines := Int32.div sizeOfLastBlock nColumns in
    let rest := Int32.rem sizeOfLastBlock nColumns in
    let size :=
      UInt64.add
        (UInt64.add size (UInt64.wrap (Int32.mul sizeOfLastBlock columnWidth)))
        (UInt64.wrap nLines) in
    Return (if 0 <? rest then UInt64.add size 1 else size).

End BlockLayout.

(** *** Trailing blanks *)

Definition trimr (str1 : text) : Outcome text :=
  if text_eqb str1 (chars "        ") then Return []
  else
    let p := Int32.wrap (find_last_not_of blank str1) in
    substr 0 (UInt64.wrap (Int32.add p 1)) str1.

(** *** Formatted arrays *)

(** The body of the [for] loop, [n] more times; [p1] is the
    [std::int64_t] of the source. *)
Fixpoint readFormattedArray_loop {T : Type} (process : text -> Outcome T)
    (file_str : text) (n : nat) (p1 : Z) (arr : list T) : Outcome (list T) :=
  match n with
  | O => Return arr
  | S n' =>
      let p1 := Int64.wrap (find_first_not_of blank (UInt64.wrap p1) file_str) in
      let p2 := Int64.wrap (find_first_of blank (UInt64.wrap p1) file_str) in
      attempt value <-
        substr (UInt64.wrap p1) (UInt64.wrap (Int64.wrap (p2 - p1))) file_str;
      attempt element <- process value;
      let p1 := Int64.wrap (find_first_not_of blank (UInt64.wrap p2) file_str) in
      readFormattedArray_loop process file_str n' p1 (arr ++ [element])
  end.

(** [size] is an [int]: the loop runs [size] times, not at all when it is
    negative.  The allocation of [arr.reserve(size)] is left out; it fails
    with [std::length_error] for a negative [size]. *)
Definition readFormattedArray {T : Type} (file_str : text) (size : Z)
    (fromPos : Z) (process : text -> Outcome T) : Outcome (list T) :=
  readFormattedArray_loop process file_str (Z.to_nat size) fromPos [].

Definition readFormattedRealRawStrings (file_str : text) (size : Z)
    (fromPos : Z) : Outcome (list text) :=
  readFormattedArray file_str (Int32.wrap size) fromPos (fun val => Return val).

(** The lambda of [readFormattedLogiArray]; [val[0]] of an empty string is
    its terminating null character. *)
Definition logi_value (val : text) : Outcome bool :=
  match val with
  | c :: _ =>
      if Ascii.eqb c "T" then Return true
      else if Ascii.eqb c "F" then Return false
      else Raise (invalid_argument
                    ("Could not convert '" +:+ string_of_list_ascii val
                     +:+ "' to a bool value "))
  | [] =>
      Raise (invalid_argument
               ("Could not convert '" +:+ string_of_list_ascii val
                +:+ "' to a bool value "))
  end.

(** Whether [val] begins with the character [c]. *)
Definition starts_with (c : ascii) (val : text) : bool :=
  match val with
  | x :: _ => Ascii.eqb x c
  | [] => false
  end.

Definition readFormattedLogiArray (file_str : text) (size : Z) (fromPos : Z)
  : Outcome (list bool) :=
  readFormattedArray file_str (Int32.wrap size) fromPos logi_value.

(** What is pushed for the characters between two quotes. *)
Definition char_element (value : text) : Outcome text :=
  if text_eqb value (chars "        ") then Return [] else trimr value.

Fixpoint readFormattedCharArray_loop (file_str : text) (elementSize : Z)
    (n : nat) (p1 : Z) (arr : list text) : Outcome (list text) :=
  match n with
  | O => Return arr
  | S n' =>
      let p1 := Int64.wrap (find_first_of quote (UInt64.wrap p1) file_str) in
      attempt value <-
        substr (UInt64.wrap (Int64.wrap (p1 + 1))) (UInt64.wrap elementSize)
          file_str;
      attempt element <- char_element value;
      let p1 := Int64.wrap (p1 + elementSize + 2) in
      readFormattedCharArray_loop file_str elementSize n' p1 (arr ++ [element])
  end.

(** The loop runs [size] times, not at all when [size] is negative.  Its
    counter is an [int] and [size] a [std::int64_t]: beyond [INT_MAX] turns
    the counter overflows, which C++ leaves undefined.  The allocation of
    [arr.reserve(size)] is left out; it fails with [std::length_error] for
    a negative [size]. *)
Definition readFormattedCharArray (file_str : text) (size : Z) (fromPos : Z)
    (elementSize : Z) : Outcome (list text) :=
  readFormattedCharArray_loop file_str elementSize (Z.to_nat size) fromPos [].

(** *** Headers of formatted arrays *)

Section FormattedHeader.

(** [std::stol] and [std::stoi] of the standard library. *)
Variable stol : text -> Outcome Z.
Variable stoi : text -> Outcome Z.

Record Header : Type := mkHeader {
  arrName : text;
  num : Z;
  arrType : eclArrType;
  elementSize : Z
}.

(** The type and the element size a type string stands for. *)
Definition array_type (arrTypeStr : text) : Outcome (eclArrType * Z) :=
  if text_eqb arrTypeStr (chars "INTE") then Return (INTE, 4)
  else if text_eqb arrTypeStr (chars "REAL") then Return (REAL, 4)
  else if text_eqb arrTypeStr (chars "DOUB") then Return (DOUB, 8)
  else if text_eqb arrTypeStr (chars "CHAR") then Return (CHAR, 8)
  else
    attempt c <- substr 0 1 arrTypeStr;
    if text_eqb c (chars "C") then
      attempt digits <- substr 1 3 arrTypeStr;
      attempt n <- stoi digits;
      Return (C0NN, n)
    else if text_eqb arrTypeStr (chars "LOGI") then Return (LOGI, 4)
    else if text_eqb arrTypeStr (chars "MESS") then Return (MESS, 4)
    else
      Raise (runtime_error
               ("Error, unknown array type '"
                +:+ string_of_list_ascii arrTypeStr +:+ "'")).

(** [readFormattedHeader] once [std::getline] has delivered [line]. *)
Definition readFormattedHeader (line : text) : Outcome Header :=
  let p1 := Int32.wrap (find_first_of quote 0 line) in
  let p2 := Int32.wrap (find_first_of quote (UInt64.wrap (Int32.add p1 1)) line) in
  let p3 := Int32.wrap (find_first_of quote (UInt64.wrap (Int32.add p2 1)) line) in
  let p4 := Int32.wrap (find_first_of quote (UInt64.wrap (Int32.add p3 1)) line) in
  if (p1 =? -1) || (p2 =? -1) || (p3 =? -1) || (p4 =? -1) then
    Raise (runtime_error "Header name and type should be enclosed with '")
  else
    attempt arrName <-
      substr (UInt64.wrap (Int32.add p1 1))
        (UInt64.wrap (Int32.sub (Int32.sub p2 p1) 1)) line;
    attempt antStr <-
      substr (UInt64.wrap (Int32.add p2 1))
        (UInt64.wrap (Int32.sub (Int32.sub p3 p2) 1)) line;
    attempt arrTypeStr <-
      substr (UInt64.wrap (Int32.add p3 1))
        (UInt64.wrap (Int32.sub (Int32.sub p4 p3) 1)) line;
    attempt num <- stol antStr;
    attempt '(arrType, elementSize) <- array_type arrTypeStr;
    if negb (size arrName =? 8) then
      Raise (runtime_error "Header name should be 8 characters")
    else Return (mkHeader arrName num arrType elementSize).

End FormattedHeader.

(** *** Layouts of formatted text, for the statements below *)

(** A field: [fst] blanks, then the characters of [snd]. *)
Definition field (f : nat * text) : text := repeat blank (fst f) ++ snd f.

Definition fields (fs : list (nat * text)) : text := flat_map field fs.

(** A token: not empty and without a blank. *)
Definition token (t : text) : Prop := t <> [] /\ ~ In blank t.

(** An element of a formatted character array: what precedes it on the
    line, then its characters between quotes. *)
Definition quoted (e : text * text) : text := fst e ++ quote :: snd e ++ [quote].

(** Fields whose texts are tokens; all but the first start with a
    blank. *)
Definition separated (fs : list (nat * text)) : Prop :=
  List.Forall (fun f => token (snd f)) fs
  /\ List.Forall (fun f => (1 <= fst f)%nat) (tl fs).

(** Every element in turn, stopping at the first that fails; what
    [readFormattedArray] makes of a list of tokens. *)
Fixpoint process_all {T : Type} (process : text -> Outcome T)
    (values : list text) (arr : list T) : Outcome (list T) :=
  match values with
  | [] => Return arr
  | value :: rest =>
      attempt element <- process value;
      process_all process rest (arr ++ [element])
  end.

End EclUtil.

(* ------------------------------------------------------------------ *)
(** ** Opm::UniformTabulated2DFunction<double>
       (opm/material/common/UniformTabulated2DFunction.hpp) *)

Module UInt32.

(** Arithmetic of [unsigned] is modulo [2^32]. *)
Definition wrap (z : Z) : Z := z mod 2 ^ 32.

Definition add (a b : Z) : Z := wrap (a + b).
Definition sub (a b : Z) : Z := wrap (a - b).
Definition mul (a b : Z) : Z := wrap (a * b).

(** The conversion of an [unsigned] to [double], which is exact. *)
Definition to_double (u : Z) : float := PrimFloat.of_uint63 (Uint63.of_Z u).

End UInt32.

Module Tabulated.

(** How a call ends: with a value, with the [NumericalProblem] exception,
    in a failed [assert], or in a read or write beyond the end of the
    vector of samples, which C++ leaves undefined. *)
Inductive Outcome (A : Type) : Type :=
| Value (a : A)
| NumericalProblem (what : string)
| AssertionFailed
| OutOfBounds.
Arguments Value {A} a.
Arguments NumericalProblem {A} what.
Arguments AssertionFailed {A}.
Arguments OutOfBounds {A}.

Definition and_then {A B : Type} (r : Outcome A) (k : A -> Outcome B)
  : Outcome B :=
  match r with
  | Value a => k a
  | NumericalProblem w => NumericalProblem w
  | AssertionFailed => AssertionFailed
  | OutOfBounds => OutOfBounds
  end.

Notation "'sample' x <- r ; k" := (and_then r (fun x => k))
  (at level 10, x name, r at level 100, k at level 200).

(** The class with [Scalar = double] and [ContainerT = std::vector<double>];
    [m_] and [n_] are [unsigned]. *)
Record UniformTabulated2DFunction : Type := mk {
  samples_ : list float;
  m_ : Z;
  n_ : Z;
  xMin_ : float;
  xMax_ : float;
  yMin_ : float;
  yMax_ : float
}.

(** [std::vector<double>::resize(count)]: the first [count] elements,
    filled up with zeros. *)
Definition vector_resize (count : Z) (v : list float) : list float :=
  firstn (Z.to_nat count) v ++ repeat 0%float (Z.to_nat count - length v).

Definition resize (minX maxX : float) (m : Z) (minY maxY : float) (n : Z)
    (this : UniformTabulated2DFunction) : UniformTabulated2DFunction :=
  mk (vector_resize (UInt32.mul m n) (samples_ this)) m n minX maxX minY maxY.

Definition xMin (this : UniformTabulated2DFunction) : float := xMin_ this.
Definition xMax (this : UniformTabulated2DFunction) : float := xMax_ this.
Definition yMin (this : UniformTabulated2DFunction) : float := yMin_ this.
Definition yMax (this : UniformTabulated2DFunction) : float := yMax_ this.
Definition numX (this : UniformTabulated2DFunction) : Z := m_ this.
Definition numY (this : UniformTabulated2DFunction) : Z := n_ this.

Section Build.

(** Whether the code is compiled with [NDEBUG], which removes the
    assertions and the range check of [eval]. *)
Variable NDEBUG : bool.

(** [std::to_string(double)] of the standard library. *)
Variable to_string : float -> string.

Definition assert {A : Type} (condition : bool) (k : Outcome A) : Outcome A :=
  if NDEBUG then k else if condition then k else AssertionFailed.

Definition iToX (i : Z) (this : UniformTabulated2DFunction) : Outcome float :=
  assert (i <? numX this)
    (Value (xMin this
            + UInt32.to_double i * (xMax this - xMin this)
              / UInt32.to_double (UInt32.sub (numX this) 1))%float).

Definition jToY (j : Z) (this : UniformTabulated2DFunction) : Outcome float :=
  assert (j <? numY this)
    (Value (yMin this
            + UInt32.to_double j * (yMax this - yMin this)
              / UInt32.to_double (UInt32.sub (numY this) 1))%float).

Definition xToI (x : float) (this : UniformTabulated2DFunction) : float :=
  ((x - xMin this) / (xMax this - xMin this)
   * UInt32.to_double (UInt32.sub (numX this) 1))%float.

Definition yToJ (y : float) (this : UniformTabulated2DFunction) : float :=
  ((y - yMin this) / (yMax this - yMin this)
   * UInt32.to_double (UInt32.sub (numY this) 1))%float.

Definition applies (x y : float) (this : UniformTabulated2DFunction) : bool :=
  (xMin this <=? x)%float && (x <=? xMax this)%float
  && (yMin this <=? y)%float && (y <=? yMax this)%float.

(** The position of a sample point in the vector, an [unsigned]. *)
Definition sample_index (i j : Z) (this : UniformTabulated2DFunction) : Z :=
  UInt32.add (UInt32.mul j (m_ this)) i.

Definition getSamplePoint (i j : Z) (this : UniformTabulated2DFunction)
  : Outcome float :=
  assert (i <? m_ this)
    (assert (j <? n_ this)
       (match nth_error (samples_ this) (Z.to_nat (sample_index i j this)) with
        | Some value => Value value
        | None => OutOfBounds
        end)).

(** [v[k] = value] *)
Fixpoint assign (v : list float) (k : nat) (value : float) : list float :=
  match v, k with
  | [], _ => []
  | _ :: rest, O => value :: rest
  | x :: rest, S k' => x :: assign rest k' value
  end.

Definition setSamplePoint (i j : Z) (value : float)
    (this : UniformTabulated2DFunction) : Outcome UniformTabulated2DFunction :=
  assert (i <? m_ this)
    (assert (j <? n_ this)
       (if sample_index i j this <? Z.of_nat (length (samples_ this)) then
          Value (mk (assign (samples_ this)
                       (Z.to_nat (sample_index i j this)) value)
                   (m_ this) (n_ this) (xMin_ this) (xMax_ this)
                   (yMin_ this) (yMax_ this))
        else OutOfBounds)).

(** [max(0, min(int(num) - 2, int(position)))] as an [unsigned]. *)
Definition interval (num : Z) (position : float) : Z :=
  UInt32.wrap
    (Z.max 0 (Z.min (Int32.sub (Int32.wrap num) 2) (Double.to_int position))).

(** The string handed to [NumericalProblem]. *)
Definition out_of_range_message (x y : float)
    (this : UniformTabulated2DFunction) : string :=
  "Attempt to get tabulated value for ("
  +:+ to_string x +:+ ", " +:+ to_string y
  +:+ ") on a table of extent "
  +:+ to_string (xMin this) +:+ " to " +:+ to_string (xMax this)
  +:+ " times "
  +:+ to_string (yMin this) +:+ " to " +:+ to_string (yMax this).

(** [eval] with [Evaluation = double], compiled for the host.  The four
    sample points are read in the order they are written in. *)
Definition eval (x y : float) (extrapolate : bool)
    (this : UniformTabulated2DFunction) : Outcome float :=
  if negb NDEBUG && (negb extrapolate && negb (applies x y this)) then
    NumericalProblem (out_of_range_message x y this)
  else
    let alpha := xToI x this in
    let beta := yToJ y this in
    let i := interval (numX this) alpha in
    let j := interval (numY this) beta in
    let alpha := (alpha - UInt32.to_double i)%float in
    let beta := (beta - UInt32.to_double j)%float in
    sample s00 <- getSamplePoint i j this;
    sample s10 <- getSamplePoint (UInt32.add i 1) j this;
    sample s01 <- getSamplePoint i (UInt32.add j 1) this;
    sample s11 <- getSamplePoint (UInt32.add i 1) (UInt32.add j 1) this;
    let s1 := (s00 * (1 - alpha) + s10 * alpha)%float in
    let s2 := (s01 * (1 - alpha) + s11 * alpha)%float in
    Value (s1 * (1 - beta) + s2 * beta)%float.

End Build.

(** The constructor that is given the tabulation parameters: [resize] on
    an object whose vector of samples is still empty.  The other members
    are not initialised before [resize] sets them. *)
Definition construct (minX maxX : float) (m : Z) (minY maxY : float) (n : Z)
  : UniformTabulated2DFunction :=
  resize minX maxX m minY maxY n (mk [] 0 0 0 0 0 0).

(** A table whose vector holds one sample for each of its [m_ * n_]
    points. *)
Definition addressable (this : UniformTabulated2DFunction) : Prop :=
  0 <= m_ this /\ 0 <= n_ this /\ m_ this * n_ this < 2 ^ 32
  /\ Z.of_nat (length (samples_ this)) = m_ this * n_ this.

End Tabulated.

(* ================================================================== *)
(** * Properties *)

(* ------------------------------------------------------------------ *)
(** ** 32-bit arithmetic *)

Section Int32Facts.

Import Int32.

Lemma wrap_in_range (z : Z) : in_range z -> wrap z = z.
Proof.
  unfold in_range, min_int, max_int, wrap. intros Hz.
  rewrite Z.mod_small; lia.
Qed.

Lemma wrap_range (z : Z) : in_range (wrap z).
Proof.
  unfold in_range, min_int, max_int, wrap.
  pose proof (Z.mod_pos_bound (z + 2 ^ 31) (2 ^ 32) ltac:(lia)). lia.
Qed.

(** Wrapping keeps the 32 low bits. *)
Lemma wrap_testbit (z n : Z) :
  0 <= n < 32 -> Z.testbit (wrap z) n = Z.testbit z n.
Proof.
  intros Hn. unfold wrap.
  rewrite <- (Z.mod_pow2_bits_low (_ - _) 32 n) by lia.
  rewrite <- (Z.mod_pow2_bits_low z 32 n) by lia.
  f_equal.
  pose proof (Z.div_mod (z + 2 ^ 31) (2 ^ 32) ltac:(lia)) as E.
  replace ((z + 2 ^ 31) mod 2 ^ 32 - 2 ^ 31)
    with (z + (- ((z + 2 ^ 31) / 2 ^ 32)) * 2 ^ 32) by lia.
  apply Z.mod_add. lia.
Qed.

End Int32Facts.

(* ------------------------------------------------------------------ *)
(** ** Summary numbers and digit strings *)

Section EclIOFacts.

Import EclIO.

Lemma shl_1_15 : Int32.shl 1 15 = 32768.
Proof. reflexivity. Qed.

(** Under the bounds of the packing, no intermediate result of
    [combineSummaryNumbers] leaves the range of [int]. *)
Lemma combineSummaryNumbers_exact (n1 n2 : Z) :
  0 <= n1 < 2 ^ 15 -> -10 <= n2 ->
  Int32.in_range (n1 + 2 ^ 15 * (n2 + 10)) ->
  combineSummaryNumbers n1 n2 = n1 + 32768 * (n2 + 10).
Proof.
  unfold combineSummaryNumbers, Int32.add, Int32.mul, Int32.in_range,
    Int32.min_int, Int32.max_int.
  intros H1 H2 H3. rewrite shl_1_15.
  rewrite (wrap_in_range (n2 + 10))
    by (unfold Int32.in_range, Int32.min_int, Int32.max_int; lia).
  rewrite (wrap_in_range (32768 * _))
    by (unfold Int32.in_range, Int32.min_int, Int32.max_int; lia).
  apply wrap_in_range.
  unfold Int32.in_range, Int32.min_int, Int32.max_int; lia.
Qed.

(** C8: for 0 <= n1 < 2^15 and n2 >= -10 such that n1 + 2^15 * (n2 + 10)
    fits in a signed 32-bit int, splitting the combined summary number
    gives back exactly the pair (n1, n2). *)
Theorem split_combine_roundtrip (n1 n2 : Z) :
  0 <= n1 < 2 ^ 15 ->
  -10 <= n2 ->
  Int32.in_range (n1 + 2 ^ 15 * (n2 + 10)) ->
  splitSummaryNumber (combineSummaryNumbers n1 n2) = (n1, n2).
Proof.
  intros H1 H2 H3.
  rewrite combineSummaryNumbers_exact by assumption.
  unfold Int32.in_range, Int32.min_int, Int32.max_int in H3.
  unfold splitSummaryNumber, Int32.rem, Int32.div, Int32.sub.
  rewrite shl_1_15.
  set (n := n1 + 32768 * (n2 + 10)).
  assert (Hn : 0 <= n) by (unfold n; lia).
  rewrite Z.rem_mod_nonneg, Z.quot_div_nonneg by lia.
  assert (Hq : n / 32768 = n2 + 10).
  { unfold n. rewrite Z.mul_comm, Z.div_add by lia.
    rewrite Z.div_small; lia. }
  assert (Hr : n mod 32768 = n1).
  { unfold n. rewrite Z.mul_comm, Z.mod_add by lia.
    apply Z.mod_small; lia. }
  rewrite Hq, Hr.
  rewrite (wrap_in_range (n2 + 10))
    by (unfold Int32.in_range, Int32.min_int, Int32.max_int; lia).
  rewrite wrap_in_range
    by (unfold Int32.in_range, Int32.min_int, Int32.max_int; lia).
  f_equal. lia.
Qed.

(** A well number 7 packed with the number 3. *)
Lemma split_combine_roundtrip_witness :
  splitSummaryNumber (combineSummaryNumbers 7 3) = (7, 3).
Proof.
  apply (split_combine_roundtrip 7 3);
    unfold Int32.in_range, Int32.min_int, Int32.max_int; lia.
Defined.

Lemma isdigit_decimal (c : ascii) :
  isdigit c = true <-> In c decimal_digits.
Proof.
  destruct c as [[] [] [] [] [] [] [] []]; vm_compute; split;
    first [ discriminate | reflexivity | tauto | idtac ].
  all: intuition discriminate.
Qed.

Lemma all_of_Forall (pred : ascii -> bool) (s : string) :
  all_of pred s = true <-> Forall (fun c => pred c = true) (chars s).
Proof.
  induction s as [| c s IH]; simpl.
  - split; [constructor | reflexivity].
  - destruct (pred c) eqn:E.
    + rewrite IH. split.
      * intros H. constructor; assumption.
      * intros H. inversion H; assumption.
    + split; [discriminate |].
      intros H. inversion H; congruence.
Qed.

(** C10: [is_number] is true exactly when every character of the string
    is a decimal digit; it is true for the empty string and false for a
    string that holds a sign, a decimal point or an exponent character. *)
Theorem is_number_all_digits :
  (forall s : string,
      is_number s = true <-> Forall (fun c => In c decimal_digits) (chars s))
  /\ is_number "" = true
  /\ (forall (s : string) (c : ascii),
         In c number_punctuation -> In c (chars s) -> is_number s = false).
Proof.
  assert (Hiff : forall s : string,
             is_number s = true
             <-> Forall (fun c => In c decimal_digits) (chars s)).
  { intros s. unfold is_number. rewrite all_of_Forall.
    split; intros H; eapply Forall_impl; try exact H;
      intros c; apply isdigit_decimal. }
  split; [exact Hiff | split; [reflexivity |]].
  intros s c Hc Hin.
  destruct (is_number s) eqn:E; [| reflexivity].
  apply Hiff in E. rewrite List.Forall_forall in E.
  specialize (E c). exfalso.
  assert (Hd : In c decimal_digits) by (apply E; exact Hin).
  vm_compute in Hc, Hd.
  intuition (subst; discriminate).
Qed.

Lemma is_number_all_digits_witness :
  is_number "2024" = true /\ is_number "-1.5e3" = false.
Proof.
  destruct is_number_all_digits as [Hiff [_ Hpunct]].
  split.
  - apply Hiff. repeat (constructor; [vm_compute; tauto |]). constructor.
  - apply (Hpunct "-1.5e3"%string "-"%char); vm_compute; tauto.
Defined.

End EclIOFacts.

(* ------------------------------------------------------------------ *)
(** ** Outcomes of calls *)

Section ResultFacts.

Context {A B : Type}.

Lemma bind_Ok_inv (r : Result A) (k : A -> Result B) (b : B) :
  bind r k = Ok b -> exists a, r = Ok a /\ k a = Ok b.
Proof.
  destruct r as [a | e]; simpl; intros H; [| discriminate].
  exists a. split; [reflexivity | exact H].
Qed.

Lemma bind_Throw (e : exception) (k : A -> Result B) :
  bind (Throw e) k = Throw e.
Proof. reflexivity. Qed.

Lemma bind_Ok (a : A) (k : A -> Result B) : bind (Ok a) k = k a.
Proof. reflexivity. Qed.

End ResultFacts.

(* ------------------------------------------------------------------ *)
(** ** The active injection controls *)

Section ControlMask.

Import Well.

Lemma to_int_bit (m : InjectorCMode.t) :
  InjectorCMode.to_int m = 2 ^ InjectorCMode.bit m.
Proof. destruct m; reflexivity. Qed.

Lemma bit_range (m : InjectorCMode.t) : 0 <= InjectorCMode.bit m < 32.
Proof. destruct m; simpl; lia. Qed.

Lemma bit_eqb (a b : InjectorCMode.t) :
  (InjectorCMode.bit a =? InjectorCMode.bit b) = InjectorCMode.eqb a b.
Proof. destruct a, b; reflexivity. Qed.

Lemma eqb_eq (a b : InjectorCMode.t) :
  InjectorCMode.eqb a b = true <-> a = b.
Proof. destruct a, b; simpl; split; congruence. Qed.

(** Masking with one bit tests that bit. *)
Lemma land_pow2 (x k : Z) :
  0 <= k -> Z.land x (2 ^ k) = if Z.testbit x k then 2 ^ k else 0.
Proof.
  intros Hk. apply Z.bits_inj'. intros n Hn.
  rewrite Z.land_spec, Z.pow2_bits_eqb by lia.
  destruct (Z.eqb_spec k n) as [-> | Hne].
  - destruct (Z.testbit x n) eqn:E; rewrite ?andb_true_r.
    + rewrite Z.pow2_bits_true by lia. reflexivity.
    + rewrite Z.bits_0. reflexivity.
  - rewrite andb_false_r.
    destruct (Z.testbit x k).
    + rewrite Z.pow2_bits_false by lia. reflexivity.
    + rewrite Z.bits_0. reflexivity.
Qed.

Lemma mask_test (x k : Z) :
  0 <= k -> negb (Int32.land x (2 ^ k) =? 0) = Z.testbit x k.
Proof.
  intros Hk. unfold Int32.land. rewrite land_pow2 by assumption.
  destruct (Z.testbit x k); [| reflexivity].
  assert (0 < 2 ^ k) by (apply Z.pow_pos_nonneg; lia).
  destruct (Z.eqb_spec (2 ^ k) 0); [lia | reflexivity].
Qed.

Lemma hasInjectionControl_testbit (c : InjectorCMode.t)
    (this : WellInjectionProperties) :
  hasInjectionControl c this
  = Z.testbit (injectionControls this) (InjectorCMode.bit c).
Proof.
  unfold hasInjectionControl. rewrite to_int_bit.
  apply mask_test. apply bit_range.
Qed.

(** Adding a clear bit sets it and leaves the others. *)
Lemma add_clear_bit (x k n : Z) :
  0 <= k -> 0 <= n < 32 -> Z.testbit x k = false ->
  Z.testbit (Int32.add x (2 ^ k)) n = Z.testbit x n || (k =? n).
Proof.
  intros Hk Hn Hclear. unfold Int32.add.
  rewrite wrap_testbit by assumption.
  assert (Hland : Z.land x (2 ^ k) = 0)
    by (rewrite land_pow2, Hclear by assumption; reflexivity).
  rewrite Z.add_nocarry_lxor, Z.lxor_lor by assumption.
  rewrite Z.lor_spec, Z.pow2_bits_eqb by lia. reflexivity.
Qed.

(** Subtracting a set bit clears it and leaves the others. *)
Lemma sub_set_bit (x k n : Z) :
  0 <= k -> 0 <= n < 32 -> Z.testbit x k = true ->
  Z.testbit (Int32.sub x (2 ^ k)) n = Z.testbit x n && negb (k =? n).
Proof.
  intros Hk Hn Hset. unfold Int32.sub.
  rewrite wrap_testbit by assumption.
  assert (Hdiff : Z.ldiff (2 ^ k) x = 0).
  { apply Z.bits_inj'. intros m Hm.
    rewrite Z.ldiff_spec, Z.pow2_bits_eqb, Z.bits_0 by lia.
    destruct (Z.eqb_spec k m) as [<- | _]; [| reflexivity].
    rewrite Hset. reflexivity. }
  rewrite Z.sub_nocarry_ldiff by assumption.
  rewrite Z.ldiff_spec, Z.pow2_bits_eqb by lia. reflexivity.
Qed.

Lemma has_add (c c' : InjectorCMode.t) (this : WellInjectionProperties) :
  hasInjectionControl c' (addInjectionControl c this)
  = hasInjectionControl c' this || InjectorCMode.eqb c c'.
Proof.
  rewrite !hasInjectionControl_testbit.
  unfold addInjectionControl.
  pose proof (mask_test (injectionControls this) (InjectorCMode.bit c)
                (proj1 (bit_range c))) as Hmask.
  rewrite <- to_int_bit in Hmask.
  destruct (Int32.land (injectionControls this) (InjectorCMode.to_int c) =? 0);
    simpl in Hmask; symmetry in Hmask.
  - simpl. rewrite to_int_bit.
    rewrite add_clear_bit by (try apply bit_range; assumption).
    rewrite bit_eqb. reflexivity.
  - destruct (InjectorCMode.eqb c c') eqn:E.
    + apply eqb_eq in E. subst c'. rewrite Hmask. reflexivity.
    + rewrite orb_false_r. reflexivity.
Qed.

Lemma has_drop (c c' : InjectorCMode.t) (this : WellInjectionProperties) :
  hasInjectionControl c' (dropInjectionControl c this)
  = hasInjectionControl c' this && negb (InjectorCMode.eqb c c').
Proof.
  rewrite !hasInjectionControl_testbit.
  unfold dropInjectionControl.
  pose proof (mask_test (injectionControls this) (InjectorCMode.bit c)
                (proj1 (bit_range c))) as Hmask.
  rewrite <- to_int_bit in Hmask.
  destruct (Int32.land (injectionControls this) (InjectorCMode.to_int c) =? 0);
    simpl in Hmask; symmetry in Hmask; cbn [negb].
  - destruct (InjectorCMode.eqb c c') eqn:E.
    + apply eqb_eq in E. subst c'. rewrite Hmask. reflexivity.
    + rewrite andb_true_r. reflexivity.
  - cbn [injectionControls set_injectionControls]. rewrite to_int_bit.
    rewrite sub_set_bit by (try apply bit_range; assumption).
    rewrite bit_eqb. reflexivity.
Qed.

(** The rs/rv concentration touches neither the controls nor the mode. *)
Lemma vapoil_concentration_controls item this :
  injectionControls (vapoil_concentration item this) = injectionControls this
  /\ controlMode (vapoil_concentration item this) = controlMode this.
Proof.
  unfold vapoil_concentration.
  destruct (_ && _); split; reflexivity.
Qed.

Lemma controls_consistent_ext (p q : WellInjectionProperties) :
  injectionControls q = injectionControls p ->
  controlMode q = controlMode p ->
  controls_consistent p -> controls_consistent q.
Proof.
  unfold controls_consistent. rewrite !hasInjectionControl_testbit.
  intros -> ->. tauto.
Qed.

End ControlMask.

(* ------------------------------------------------------------------ *)
(** ** WCONINJE and WCONINJH *)

Section RecordHandlers.

Import Well Deck.

Lemma has_set_controlMode (c m : InjectorCMode.t) this :
  hasInjectionControl c (set_controlMode m this) = hasInjectionControl c this.
Proof. reflexivity. Qed.

Lemma handleWCONINJE_consistent record bhp_def availableForGroupControl
    well_name location this this' :
  handleWCONINJE record bhp_def availableForGroupControl well_name location this
  = Ok this' ->
  controls_consistent this'.
Proof.
  unfold handleWCONINJE. intros H. cbv zeta in H.
  apply bind_Ok_inv in H as (type & _ & H). cbv beta in H.
  apply bind_Ok_inv in H as (this1 & _ & H). cbv beta in H.
  apply bind_Ok_inv in H as (mode & _ & H). cbv beta in H.
  apply bind_Ok_inv in H as (this2 & Hmode & H). cbv beta in H.
  injection H as <-.
  match type of Hmode with
  | (if hasInjectionControl _ ?X then _ else _) = _ =>
      remember X as x eqn:Ex
  end.
  destruct (hasInjectionControl mode x) eqn:Hhas; [| discriminate].
  injection Hmode as <-.
  destruct (vapoil_concentration_controls
              (WCONINJE.VAPOIL_C record) (set_controlMode mode x)) as [Hc Hm].
  eapply controls_consistent_ext; [exact Hc | exact Hm |].
  split.
  - rewrite has_set_controlMode. subst x.
    destruct availableForGroupControl.
    + rewrite !has_add. cbn [InjectorCMode.eqb].
      rewrite orb_true_r. reflexivity.
    + rewrite has_drop, has_add. cbn [InjectorCMode.eqb negb].
      rewrite orb_true_r. reflexivity.
  - exact Hhas.
Qed.

(** The last assignments of [handleWCONINJH]. *)
Lemma history_tail_consistent (m : InjectorCMode.t) (v : Z) (b : bool) this :
  controls_consistent
    (set_VFPTableNumber v
       (set_predictionMode b
          (set_controlMode m
             (addInjectionControl m
                (addInjectionControl InjectorCMode.BHP this))))).
Proof.
  eapply controls_consistent_ext
    with (p := set_controlMode m
                 (addInjectionControl m
                    (addInjectionControl InjectorCMode.BHP this)));
    [reflexivity | reflexivity |].
  split.
  - rewrite has_set_controlMode, !has_add.
    cbn [InjectorCMode.eqb]. rewrite orb_true_r. reflexivity.
  - cbn [controlMode set_controlMode].
    rewrite has_set_controlMode, has_add.
    replace (InjectorCMode.eqb m m) with true by (destruct m; reflexivity).
    apply orb_true_r.
Qed.

Lemma handleWCONINJH_consistent record vfp_table_nr bhp_def is_producer
    well_name loc log this this' log' :
  handleWCONINJH record vfp_table_nr bhp_def is_producer well_name loc log this
  = Ok (this', log') ->
  controls_consistent this'.
Proof.
  unfold handleWCONINJH. intros H. cbv zeta in H.
  destruct (defaultApplied (WCONINJH.TYPE record)); [discriminate |].
  apply bind_Ok_inv in H as (type & _ & H). cbv beta in H.
  apply bind_Ok_inv in H as (mode & _ & H). cbv beta in H.
  apply bind_Ok_inv in H as ([mode' log1] & _ & H). cbv beta iota in H.
  injection H as <- _.
  match goal with
  | |- controls_consistent (vapoil_concentration ?i ?P) =>
      destruct (vapoil_concentration_controls i P) as [Hc Hm];
      eapply controls_consistent_ext; [exact Hc | exact Hm |]
  end.
  apply history_tail_consistent.
Qed.

(** C9: whenever [handleWCONINJE] or [handleWCONINJH] returns normally,
    the BHP control is in the set of active injection controls and the
    selected control mode is one of the active controls. *)
Theorem record_handlers_keep_controls_consistent :
  (forall record bhp_def availableForGroupControl well_name location this this',
      handleWCONINJE record bhp_def availableForGroupControl well_name
        location this = Ok this' ->
      controls_consistent this')
  /\ (forall record vfp_table_nr bhp_def is_producer well_name loc log this
             this' log',
         handleWCONINJH record vfp_table_nr bhp_def is_producer well_name
           loc log this = Ok (this', log') ->
         controls_consistent this').
Proof.
  split.
  - intros. eapply handleWCONINJE_consistent. eassumption.
  - intros. eapply handleWCONINJH_consistent. eassumption.
Qed.

(** The WCONINJE record of the fixture for WINJ1, and a history record
    after it. *)
Lemma record_handlers_keep_controls_consistent_witness :
  (exists this',
      handleWCONINJE fixture_WCONINJE 689120000 true "WINJ1"
        (fixture_location "WCONINJE" 453) WINJ1 = Ok this'
      /\ controls_consistent this')
  /\ (exists this' log',
         handleWCONINJH history_THP 0 689120000 false "WINJ1"
           (fixture_location "WCONINJH" 460) [] WINJ1 = Ok (this', log')
         /\ controls_consistent this').
Proof.
  destruct record_handlers_keep_controls_consistent as [HE HH].
  split.
  - destruct (handleWCONINJE fixture_WCONINJE 689120000 true "WINJ1"
                (fixture_location "WCONINJE" 453) WINJ1) as [this' | e] eqn:E.
    + exists this'. split; [reflexivity |].
      exact (HE _ _ _ _ _ _ _ E).
    + vm_compute in E. discriminate.
  - destruct (handleWCONINJH history_THP 0 689120000 false "WINJ1"
                (fixture_location "WCONINJH" 460) [] WINJ1)
      as [[this' log'] | e] eqn:E.
    + exists this', log'. split; [reflexivity |].
      exact (HH _ _ _ _ _ _ _ _ _ _ E).
    + vm_compute in E. discriminate.
Defined.

End RecordHandlers.

(* ------------------------------------------------------------------ *)
(** ** Rate targets of another fluid *)

Section FluidMismatch.

Import Well.

Lemma InjectorType_eqb_neq (a b : InjectorType.t) :
  a <> b -> InjectorType.eqb a b = false.
Proof. destruct a, b; simpl; congruence. Qed.

Ltac mismatch_throws :=
  split; [reflexivity | split; [reflexivity |]];
  let Hne := fresh "Hne" in
  intros ? Hne; apply InjectorType_eqb_neq in Hne;
  split; intros; simpl; rewrite Hne; reflexivity.

(** C1, as amended: setting (WELTARG) or scaling (WTMULT) an oil, water or
    gas rate target of an injection well of another injector type fails
    with [std::invalid_argument]; the message names the required well
    type and is the same for every well, so it does not include the well
    name.  A UDA update of such a target does not fail: it returns
    normally and changes neither the properties of the well nor the
    active-UDA tracker. *)
Theorem fluid_mismatch_outcome :
  (forall cmode fluid,
      fluid_of_cmode cmode = Some fluid ->
      exists set_message scale_message,
        String.prefix ("Well type must be " +:+ fluid_name fluid +:+ " to set the ")
          set_message = true
        /\ String.prefix ("Well type must be " +:+ fluid_name fluid +:+ " to scale the ")
             scale_message = true
        /\ forall this,
             injectorType this <> fluid ->
             (forall new_arg SiFactorP,
                 handleWELTARG cmode new_arg SiFactorP this
                 = Throw (invalid_argument set_message))
             /\ (forall factor,
                    handleWTMULT cmode factor this
                    = Throw (invalid_argument scale_message)))
  /\ (forall control fluid,
         fluid_of_control control = Some fluid ->
         forall (UDQConfig : Type) (udq_config : UDQConfig) udq_active value this,
           injectorType this <> fluid ->
           update_uda udq_config udq_active control value this
           = Ok (this, udq_active)).
Proof.
  split.
  - intros cmode fluid Hfluid.
    destruct cmode; simpl in Hfluid; try discriminate; injection Hfluid as <-.
    + exists "Well type must be OIL to set the oil rate"%string,
             "Well type must be OIL to scale the oil rate"%string.
      mismatch_throws.
    + exists "Well type must be WATER to set the water rate"%string,
             "Well type must be WATER to scale the oil rate"%string.
      mismatch_throws.
    + exists "Well type must be GAS to set the gas rate"%string,
             "Well type must be GAS to scale the oil rate"%string.
      mismatch_throws.
  - intros control fluid Hfluid UDQConfig udq_config udq_active value this Hne.
    apply InjectorType_eqb_neq in Hne.
    destruct control; simpl in Hfluid; try discriminate;
      injection Hfluid as <-;
      unfold update_uda; rewrite Hne; reflexivity.
Qed.

Lemma fluid_mismatch_outcome_witness :
  (exists message,
      handleWELTARG WELTARGCMode.GRAT (UDAValue.Numeric 100) 1 WINJ1
      = Throw (invalid_argument message))
  /\ update_uda tt UDQActive.empty UDAControl.WELTARG_GRAT
       (UDAValue.Named "WUINJ") WINJ1
     = Ok (WINJ1, UDQActive.empty).
Proof.
  destruct fluid_mismatch_outcome as [Hset Huda].
  split.
  - destruct (Hset WELTARGCMode.GRAT InjectorType.GAS eq_refl)
      as (set_message & scale_message & _ & _ & H).
    exists set_message.
    apply (H WINJ1). discriminate.
  - apply (Huda UDAControl.WELTARG_GRAT InjectorType.GAS eq_refl).
    discriminate.
Defined.

(** The water injector WINJ1 asked for an oil rate: the two errors do not
    name the well, and the UDA update is not an error at all. *)
Lemma fluid_mismatch_counterexample :
  handleWELTARG WELTARGCMode.ORAT (UDAValue.Numeric 100) 1 WINJ1
  = Throw (invalid_argument "Well type must be OIL to set the oil rate")
  /\ contains "Well type must be OIL to set the oil rate" (name WINJ1) = false
  /\ handleWTMULT WELTARGCMode.ORAT 2 WINJ1
     = Throw (invalid_argument "Well type must be OIL to scale the oil rate")
  /\ contains "Well type must be OIL to scale the oil rate" (name WINJ1) = false
  /\ update_uda tt UDQActive.empty UDAControl.WELTARG_ORAT
       (UDAValue.Named "WUINJ") WINJ1
     = Ok (WINJ1, UDQActive.empty).
Proof. repeat split. Qed.

End FluidMismatch.

(* ------------------------------------------------------------------ *)
(** ** Control modes of WCONINJH *)

Section HistoryControlMode.

Import Well Deck.

(** The target printed in the warning exists for a number and for a UDQ
    name alike. *)
Lemma warning_target (sir : UDAValue.t) :
  exists target,
    (if UDAValue.is_double sir
     then do d <- UDAValue.get_double sir; Ok (Double.to_string d)
     else UDAValue.get_string sir) = Ok target.
Proof. destruct sir; simpl; eexists; reflexivity. Qed.

Lemma parsed_mode_has_name (s : string) (m : InjectorCMode.t) :
  InjectorCMode.WellInjectorCModeFromString s = Ok m ->
  exists mode_name, InjectorCMode.WellInjectorCMode2String m = Ok mode_name.
Proof.
  unfold InjectorCMode.WellInjectorCModeFromString.
  repeat match goal with
         | |- context [if String.eqb ?a ?b then _ else _] =>
             destruct (String.eqb a b)
         end;
    intros H; try discriminate; injection H as <-;
    eexists; reflexivity.
Qed.

(** C2, as amended: what [handleWCONINJH] detects as an error makes it
    throw instead of returning (a defaulted injector type, an unknown
    injector type, an unknown control mode string).  A control mode other than RATE and BHP is not such an
    error: the handler logs one warning, takes RATE as the control mode
    and returns normally.  With RATE or BHP it returns normally with that
    mode and logs nothing. *)
Theorem WCONINJH_control_mode_policy
    (record : WCONINJH.Record_) (vfp_table_nr : Z) (bhp_def : float)
    (is_producer : bool) (well_name : string) (loc : KeywordLocation)
    (log : OpmLog.t) (this : WellInjectionProperties) :
  let call :=
    handleWCONINJH record vfp_table_nr bhp_def is_producer well_name loc log this in
  let type_string := getTrimmedString (WCONINJH.TYPE record) in
  let cmode_string := getTrimmedString (WCONINJH.CMODE record) in
  (defaultApplied (WCONINJH.TYPE record) = true ->
   call = Throw (invalid_argument
                   "Injection type can not be defaulted for keyword WCONINJH"))
  /\ (forall e,
         defaultApplied (WCONINJH.TYPE record) = false ->
         InjectorType.InjectorTypeFromString type_string = Throw e ->
         call = Throw e)
  /\ (forall type e,
         defaultApplied (WCONINJH.TYPE record) = false ->
         InjectorType.InjectorTypeFromString type_string = Ok type ->
         InjectorCMode.WellInjectorCModeFromString cmode_string = Throw e ->
         call = Throw e)
  /\ (forall type mode,
         defaultApplied (WCONINJH.TYPE record) = false ->
         InjectorType.InjectorTypeFromString type_string = Ok type ->
         InjectorCMode.WellInjectorCModeFromString cmode_string = Ok mode ->
         mode <> InjectorCMode.RATE -> mode <> InjectorCMode.BHP ->
         exists this' msg,
           call = Ok (this', OpmLog.warning msg log)
           /\ controlMode this' = InjectorCMode.RATE)
  /\ (forall type mode,
         defaultApplied (WCONINJH.TYPE record) = false ->
         InjectorType.InjectorTypeFromString type_string = Ok type ->
         InjectorCMode.WellInjectorCModeFromString cmode_string = Ok mode ->
         mode = InjectorCMode.RATE \/ mode = InjectorCMode.BHP ->
         exists this', call = Ok (this', log) /\ controlMode this' = mode).
Proof.
  intros call type_string cmode_string. subst call type_string cmode_string.
  unfold handleWCONINJH. cbv zeta.
  split; [| split; [| split; [| split]]].
  - intros ->. reflexivity.
  - intros e -> ->. reflexivity.
  - intros type e -> -> ->. reflexivity.
  - intros type mode -> -> Hmode Hrate Hbhp.
    rewrite Hmode. cbn [bind].
    destruct (parsed_mode_has_name _ _ Hmode) as [mode_name Hname].
    rewrite Hname.
    replace (InjectorCMode.eqb mode InjectorCMode.RATE
             || InjectorCMode.eqb mode InjectorCMode.BHP) with false
      by (destruct mode; try reflexivity; congruence).
    cbn [negb].
    match goal with
    | |- context [UDAValue.is_double ?X] =>
        destruct (warning_target X) as [target Htarget]
    end.
    rewrite Htarget. cbn [bind InjectorCMode.eqb].
    eexists. eexists. split; [reflexivity |].
    match goal with
    | |- controlMode (vapoil_concentration ?i ?P) = _ =>
        rewrite (proj2 (vapoil_concentration_controls i P))
    end.
    reflexivity.
  - intros type mode -> -> Hmode Hsupported.
    rewrite Hmode. cbn [bind].
    replace (InjectorCMode.eqb mode InjectorCMode.RATE
             || InjectorCMode.eqb mode InjectorCMode.BHP) with true
      by (destruct Hsupported; subst mode; reflexivity).
    cbn [negb bind].
    eexists. split; [reflexivity |].
    match goal with
    | |- controlMode (vapoil_concentration ?i ?P) = _ =>
        rewrite (proj2 (vapoil_concentration_controls i P))
    end.
    reflexivity.
Qed.

(** The record [history_THP] for the injector WINJ1. *)
Lemma WCONINJH_control_mode_policy_witness :
  exists this' msg,
    handleWCONINJH history_THP 0 689120000 false "WINJ1"
      (fixture_location "WCONINJH" 460) [] WINJ1
    = Ok (this', OpmLog.warning msg [])
    /\ controlMode this' = InjectorCMode.RATE.
Proof.
  refine (proj1 (proj2 (proj2 (proj2
            (WCONINJH_control_mode_policy history_THP 0 689120000 false "WINJ1"
               (fixture_location "WCONINJH" 460) [] WINJ1))))
            InjectorType.WATER InjectorCMode.THP _ _ _ _ _);
    first [reflexivity | discriminate].
Defined.

(** WINJ1 is given a history record that selects THP control: the call
    does not fail, the well is put under RATE control and the
    substitution is reported in a warning. *)
Lemma WCONINJH_THP_counterexample :
  exists this',
    handleWCONINJH history_THP 0 689120000 false "WINJ1"
      (fixture_location "WCONINJH" 460) [] WINJ1
    = Ok (this',
          [OpmLog.Warning
             ("Problem with keyword WCONINJH" +:+ String "010" ""
              +:+ "In UDQ_TEST_WCONPROD_IUAD-2.DATA line 460" +:+ String "010" ""
              +:+ "Only RATE and BHP controls supported for well WINJ1."
              +:+ String "010" ""
              +:+ "Selected control THP reset to RATE, with target = 1000.000000.")])
    /\ controlMode this' = InjectorCMode.RATE
    /\ hasInjectionControl InjectorCMode.THP this' = false.
Proof.
  eexists. split; [vm_compute; reflexivity |].
  split; reflexivity.
Qed.

End HistoryControlMode.

(* ------------------------------------------------------------------ *)
(** ** The active-UDA tracker *)

Section Tracker.

Import Well.

Context {UDQConfig : Type} (udq_config : UDQConfig).

Abbreviation update := (UDQActive.update udq_config).

Lemma mk_inj (m m' : gmap (string * UDAControl.t) string) :
  UDQActive.mk m = UDQActive.mk m' -> m = m'.
Proof. intros [= ->]. reflexivity. Qed.

Lemma update_count value wgname control active :
  fst (update value wgname control active) = 0
  \/ fst (update value wgname control active) = 1.
Proof.
  unfold UDQActive.update.
  destruct value as [d | udq];
    destruct (UDQActive.input_data active !! (wgname, control)) as [current |];
    try destruct (String.eqb current udq); simpl; auto.
Qed.

Lemma update_zero value wgname control active :
  fst (update value wgname control active) = 0 ->
  snd (update value wgname control active) = active.
Proof.
  unfold UDQActive.update.
  destruct value as [d | udq];
    destruct (UDQActive.input_data active !! (wgname, control)) as [current |];
    try destruct (String.eqb current udq); simpl; intros H;
    first [reflexivity | discriminate].
Qed.

(** The count is 1 exactly when the tracked state is another one. *)
Lemma update_changes value wgname control active :
  fst (update value wgname control active) = 1
  <-> snd (update value wgname control active) <> active.
Proof.
  unfold UDQActive.update. destruct active as [m]. simpl.
  destruct value as [d | udq];
    destruct (m !! (wgname, control)) as [current |] eqn:E; simpl.
  - split; [| reflexivity]. intros _ H. apply mk_inj in H.
    rewrite <- H, lookup_delete_eq in E. discriminate.
  - split; [discriminate | congruence].
  - destruct (String.eqb_spec current udq) as [-> | Hne]; simpl.
    + split; [discriminate | congruence].
    + split; [| reflexivity]. intros _ H. apply mk_inj in H.
      rewrite <- H, lookup_insert_eq in E. congruence.
  - split; [| reflexivity]. intros _ H. apply mk_inj in H.
    rewrite <- H, lookup_insert_eq in E. discriminate.
Qed.

Lemma update_settles value wgname control active :
  UDQActive.settled value (wgname, control)
    (snd (update value wgname control active)).
Proof.
  unfold UDQActive.update, UDQActive.settled.
  destruct value as [d | udq];
    destruct (UDQActive.input_data active !! (wgname, control))
      as [current |] eqn:E; simpl.
  - apply lookup_delete_eq.
  - exact E.
  - destruct (String.eqb_spec current udq) as [-> | Hne]; simpl.
    + exact E.
    + apply lookup_insert_eq.
  - apply lookup_insert_eq.
Qed.

Lemma update_settled value wgname control active :
  UDQActive.settled value (wgname, control) active ->
  update value wgname control active = (0, active).
Proof.
  unfold UDQActive.update, UDQActive.settled.
  destruct value as [d | udq]; intros ->; [reflexivity |].
  rewrite String.eqb_refl. reflexivity.
Qed.

Lemma update_other value wgname control active key :
  (wgname, control) <> key ->
  UDQActive.input_data (snd (update value wgname control active)) !! key
  = UDQActive.input_data active !! key.
Proof.
  intros Hne. unfold UDQActive.update.
  destruct value as [d | udq];
    destruct (UDQActive.input_data active !! (wgname, control)) as [current |];
    try destruct (String.eqb current udq); simpl;
    rewrite ?lookup_insert_ne, ?lookup_delete_ne by assumption; reflexivity.
Qed.

Lemma settled_other value' key value wgname control active :
  (wgname, control) <> key ->
  UDQActive.settled value' key active ->
  UDQActive.settled value' key (snd (update value wgname control active)).
Proof.
  intros Hne. unfold UDQActive.settled.
  destruct value'; rewrite update_other by assumption; trivial.
Qed.

(** Carries what is settled across the next update, which is for
    another control. *)
Ltac step_update :=
  match goal with
  | |- context [UDQActive.update udq_config ?v ?n ?c ?a] =>
      let Hnew := fresh "Hnew" in
      pose proof (update_settles v n c a) as Hnew;
      repeat match goal with
             | H : UDQActive.settled ?v' ?k a |- _ =>
                 apply (settled_other v' k v n c a ltac:(congruence)) in H
             end;
      destruct (UDQActive.update udq_config v n c a) as [? ?];
      cbn [fst snd] in *
  end.

Lemma updateUDQActive_settles (this : WellInjectionProperties) active :
  let active' := snd (updateUDQActive udq_config active this) in
  UDQActive.settled (surfaceInjectionRate this)
    (name this, UDAControl.WCONINJE_RATE) active'
  /\ UDQActive.settled (reservoirInjectionRate this)
       (name this, UDAControl.WCONINJE_RESV) active'
  /\ UDQActive.settled (BHPTarget this)
       (name this, UDAControl.WCONINJE_BHP) active'
  /\ UDQActive.settled (THPTarget this)
       (name this, UDAControl.WCONINJE_THP) active'.
Proof.
  unfold updateUDQActive.
  do 4 step_update.
  auto.
Qed.

Lemma updateUDQActive_settled (this : WellInjectionProperties) active :
  UDQActive.settled (surfaceInjectionRate this)
    (name this, UDAControl.WCONINJE_RATE) active ->
  UDQActive.settled (reservoirInjectionRate this)
    (name this, UDAControl.WCONINJE_RESV) active ->
  UDQActive.settled (BHPTarget this)
    (name this, UDAControl.WCONINJE_BHP) active ->
  UDQActive.settled (THPTarget this)
    (name this, UDAControl.WCONINJE_THP) active ->
  updateUDQActive udq_config active this = (false, active).
Proof.
  intros H1 H2 H3 H4. unfold updateUDQActive.
  rewrite (update_settled _ _ _ _ H1), (update_settled _ _ _ _ H2),
    (update_settled _ _ _ _ H3), (update_settled _ _ _ _ H4).
  reflexivity.
Qed.

Lemma updateUDQActive_cmode_again cmode (this : WellInjectionProperties) active :
  let active' := snd (updateUDQActive_cmode udq_config cmode active this) in
  updateUDQActive_cmode udq_config cmode active' this = (false, active').
Proof.
  unfold updateUDQActive_cmode.
  destruct cmode; try reflexivity;
    try (destruct (InjectorType.eqb (injectorType this) _); [| reflexivity]);
    match goal with
    | |- context [UDQActive.update _ ?v ?n ?c active] =>
        pose proof (update_settles v n c active) as Hs;
        destruct (UDQActive.update udq_config v n c active) as [k a'];
        simpl in Hs |- *;
        rewrite (update_settled _ _ _ _ Hs); reflexivity
    end.
Qed.

End Tracker.

(** C3: the update of the active-UDA tracker returns 1 exactly when the
    registration changes the tracked state and 0 otherwise; the same
    registration made again returns 0; and a second identical call of
    either [updateUDQActive] returns false. *)
Theorem UDQActive_update_idempotent :
  forall (UDQConfig : Type) (udq_config : UDQConfig),
    (forall value wgname control active,
        let '(count, active') :=
          UDQActive.update udq_config value wgname control active in
        (count = 1 <-> active' <> active)
        /\ (count = 0 <-> active' = active)
        /\ UDQActive.update udq_config value wgname control active' = (0, active'))
    /\ (forall (this : Well.WellInjectionProperties) active,
           let '(_, active') := Well.updateUDQActive udq_config active this in
           Well.updateUDQActive udq_config active' this = (false, active'))
    /\ (forall cmode (this : Well.WellInjectionProperties) active,
           let '(_, active') :=
             Well.updateUDQActive_cmode udq_config cmode active this in
           Well.updateUDQActive_cmode udq_config cmode active' this
           = (false, active')).
Proof.
  intros UDQConfig udq_config. split; [| split].
  - intros value wgname control active.
    pose proof (update_count udq_config value wgname control active) as Hc.
    pose proof (update_changes udq_config value wgname control active) as Hch.
    pose proof (update_settles udq_config value wgname control active) as Hs.
    pose proof (update_zero udq_config value wgname control active) as Hz.
    destruct (UDQActive.update udq_config value wgname control active)
      as [count active'].
    simpl in Hc, Hch, Hs, Hz.
    split; [exact Hch | split].
    + split.
      * exact Hz.
      * intros Heq. destruct Hc as [Hc | Hc]; [exact Hc |].
        apply Hch in Hc. contradiction.
    + apply update_settled. exact Hs.
  - intros this active.
    pose proof (updateUDQActive_settles udq_config this active) as Hs.
    destruct (Well.updateUDQActive udq_config active this) as [changed active'].
    simpl in Hs. destruct Hs as (H1 & H2 & H3 & H4).
    apply updateUDQActive_settled; assumption.
  - intros cmode this active.
    pose proof (updateUDQActive_cmode_again udq_config cmode this active) as H.
    destruct (Well.updateUDQActive_cmode udq_config cmode active this)
      as [changed active'].
    exact H.
Qed.

(* ------------------------------------------------------------------ *)
(** ** Value sets *)

Section ValueSets.

Import UDQ.

Lemma pass_through_poison (f : float -> float -> float) (a b : option float) :
  is_Some a -> is_Some b -> pass_through f a b = poison f a b.
Proof. intros [x ->] [y ->]. reflexivity. Qed.

Lemma zip_with_defined (f : float -> float -> float) l r :
  Forall (fun e : string * option float => is_Some (snd e)) l ->
  Forall (fun e : string * option float => is_Some (snd e)) r ->
  zip_with (pass_through f) l r = zip_with (poison f) l r.
Proof.
  intros Hl. revert r.
  induction Hl as [| [k a] l Ha Hl IH]; intros r Hr; [reflexivity |].
  destruct Hr as [| [k' b] r Hb Hr]; [reflexivity |].
  simpl in *. rewrite pass_through_poison, IH by assumption. reflexivity.
Qed.

Lemma map_left_defined (f : float -> float -> float) (a : option float) r :
  is_Some a ->
  Forall (fun e : string * option float => is_Some (snd e)) r ->
  map (fun e : string * option float => (fst e, pass_through f a (snd e))) r
  = map (fun e => (fst e, poison f a (snd e))) r.
Proof.
  intros Ha Hr. induction Hr as [| e r He Hr IH]; [reflexivity |].
  simpl. rewrite pass_through_poison, IH by assumption. reflexivity.
Qed.

Lemma map_right_defined (f : float -> float -> float) (b : option float) l :
  is_Some b ->
  Forall (fun e : string * option float => is_Some (snd e)) l ->
  map (fun e : string * option float => (fst e, pass_through f (snd e) b)) l
  = map (fun e => (fst e, poison f (snd e) b)) l.
Proof.
  intros Hb Hl. induction Hl as [| e l He Hl IH]; [reflexivity |].
  simpl. rewrite pass_through_poison, IH by assumption. reflexivity.
Qed.

Lemma scalar_value_defined (s : UDQSet) (v : option float) :
  fully_defined s -> scalar_value s = Some v -> is_Some v.
Proof.
  unfold fully_defined, scalar_value.
  destruct (set_type s); try discriminate.
  destruct (values s) as [| [k a] [| e l]]; try discriminate.
  intros H [= <-]. inversion H; assumption.
Qed.

(** On fully defined operands the two ways to treat an undefined entry
    cannot be told apart. *)
Lemma elementwise_defined (f : float -> float -> float) (A B : UDQSet) :
  fully_defined A -> fully_defined B ->
  elementwise (pass_through f) A B = elementwise (poison f) A B.
Proof.
  intros HA HB. unfold elementwise.
  destruct (scalar_value A) as [a |] eqn:EA;
    destruct (scalar_value B) as [b |] eqn:EB.
  - rewrite (pass_through_poison f a b
               (scalar_value_defined A a HA EA)
               (scalar_value_defined B b HB EB)).
    reflexivity.
  - rewrite (map_left_defined f a (values B)
               (scalar_value_defined A a HA EA) HB).
    reflexivity.
  - rewrite (map_right_defined f b (values A)
               (scalar_value_defined B b HB EB) HA).
    reflexivity.
  - destruct (decide (members A = members B)); [| reflexivity].
    rewrite zip_with_defined by assumption. reflexivity.
Qed.

(** C6: for Sets A and B in which every entry is defined, [A UADD B] is
    the same Set as [A + B]. *)
Theorem UADD_is_add_when_defined (A B : UDQSet) :
  fully_defined A -> fully_defined B -> UADD A B = add A B.
Proof. apply elementwise_defined. Qed.

(** The oil rates of two producers added to their water rates. *)
Lemma UADD_is_add_when_defined_witness :
  let A := mkSet WELL_VAR [("PROD1"%string, Some 100%float);
                           ("PROD2"%string, Some 200%float)] in
  let B := mkSet WELL_VAR [("PROD1"%string, Some 30%float);
                           ("PROD2"%string, Some 40%float)] in
  UADD A B = add A B.
Proof.
  intros A B.
  apply UADD_is_add_when_defined; unfold fully_defined; simpl;
    repeat (constructor; [eexists; reflexivity |]); constructor.
Defined.

(** With an undefined entry the two operators do differ. *)
Example UADD_differs_when_undefined :
  let A := mkSet WELL_VAR [("PROD1"%string, Some 100%float);
                           ("PROD2"%string, None)] in
  let B := mkSet WELL_VAR [("PROD1"%string, Some 30%float);
                           ("PROD2"%string, Some 40%float)] in
  UADD A B = Ok (mkSet WELL_VAR [("PROD1"%string, Some 130%float);
                                 ("PROD2"%string, Some 40%float)])
  /\ add A B = Ok (mkSet WELL_VAR [("PROD1"%string, Some 130%float);
                                   ("PROD2"%string, None)]).
Proof. split; reflexivity. Qed.

End ValueSets.

(* ------------------------------------------------------------------ *)
(** ** Evaluation of the AST *)

Section NodeInduction.

Import UDQ.

Variable P : UDQASTNode -> Prop.

Hypothesis step :
  forall kind type value sign selector left right,
    for_child P left -> for_child P right ->
    P (mkNode kind type value sign selector left right).

(** Induction over a node and its children. *)
Fixpoint UDQASTNode_induction (this : UDQASTNode) : P this :=
  match this with
  | mkNode kind type value sign selector left right =>
      step kind type value sign selector left right
        (match left return for_child P left with
         | Some l => UDQASTNode_induction l
         | None => I
         end)
        (match right return for_child P right with
         | Some r => UDQASTNode_induction r
         | None => I
         end)
  end.

End NodeInduction.

Section Evaluation.

Import UDQ.

Variable log10 : float -> float.
Variable pow : float -> float -> float.

Lemma read_only_ret {A : Type} (a : A) : read_only (ret a).
Proof. intros context. reflexivity. Qed.

Lemma read_only_fail {A : Type} (e : exception) : read_only (@fail A e).
Proof. intros context. reflexivity. Qed.

Lemma read_only_lift {A : Type} (r : Result A) : read_only (lift r).
Proof. intros context. reflexivity. Qed.

Lemma read_only_reads {A : Type} (f : UDQContext -> A) : read_only (reads f).
Proof. intros context. reflexivity. Qed.

Lemma read_only_ebind {A B : Type} (m : Eval A) (k : A -> Eval B) :
  read_only m -> (forall a, read_only (k a)) -> read_only (ebind m k).
Proof.
  intros Hm Hk context. unfold ebind.
  specialize (Hm context).
  destruct (m context) as [[a | e] context']; simpl in Hm; subst context'.
  - apply Hk.
  - reflexivity.
Qed.

Ltac read_only_steps :=
  repeat first
    [ apply read_only_ret | apply read_only_fail | apply read_only_lift
    | apply read_only_reads
    | apply read_only_ebind; [| intros ?]
    | assumption ].

Lemma eval_expression_read_only kind value selector eval_target :
  read_only (eval_expression kind value selector eval_target).
Proof.
  unfold eval_expression. destruct value as [string_value | d];
    [| apply read_only_fail].
  apply read_only_ebind; [apply read_only_reads |]. intros known.
  destruct (negb known); [apply read_only_fail |].
  destruct (negb (supported_kinds kind eval_target)); [apply read_only_fail |].
  apply read_only_ebind; [apply read_only_reads |]. intros chosen.
  destruct selector, chosen; read_only_steps.
Qed.

Lemma eval_table_lookup_read_only value selector :
  read_only (eval_table_lookup value selector).
Proof.
  unfold eval_table_lookup. destruct value; [| apply read_only_fail].
  apply read_only_ebind; [apply read_only_reads |].
  intros [x |]; read_only_steps.
Qed.

(** Evaluation hands the context back as it received it. *)
Lemma eval_read_only (eval_target : UDQVarType) (this : UDQASTNode) :
  read_only (eval log10 pow eval_target this).
Proof.
  induction this as [kind type value sign selector left right IHl IHr]
    using UDQASTNode_induction.
  cbn [eval].
  apply read_only_ebind; [| intros; apply read_only_ret].
  assert (Hbin : forall op,
             read_only (eval_binary_function (eval log10 pow eval_target)
                          op left right)).
  { intros op. unfold eval_binary_function.
    destruct left as [l |], right as [r |]; simpl in IHl, IHr;
      read_only_steps. }
  assert (Hun : read_only (eval_elemental_unary_function log10
                             (eval log10 pow eval_target) left)).
  { unfold eval_elemental_unary_function.
    destruct left as [l |]; simpl in IHl; read_only_steps. }
  assert (Hsum : read_only (eval_scalar_function
                              (eval log10 pow eval_target) left)).
  { unfold eval_scalar_function.
    destruct left as [l |]; simpl in IHl; read_only_steps. }
  destruct type; cbn [binary_function];
    first [ apply read_only_fail
          | apply Hbin | exact Hun | exact Hsum
          | apply eval_expression_read_only
          | apply eval_table_lookup_read_only
          | idtac ].
  unfold eval_number. destruct value; read_only_steps.
Qed.

(** *** LOG *)

Lemma log_checked_domain (x : float) :
  (x <=? 0)%float = true ->
  exists msg, log_checked log10 x = Throw (domain_error msg).
Proof. unfold log_checked. intros ->. eexists. reflexivity. Qed.

Lemma log_checked_only_domain_errors (x : float) (e : exception) :
  log_checked log10 x = Throw e -> exists msg, e = domain_error msg.
Proof.
  unfold log_checked. destruct (x <=? 0)%float; [| discriminate].
  intros [= <-]. eexists. reflexivity.
Qed.

Lemma map_entries_domain l wgname x :
  In (wgname, Some x) l -> (x <=? 0)%float = true ->
  exists msg, map_entries (log_checked log10) l = Throw (domain_error msg).
Proof.
  induction l as [| [k [y |]] l IH]; intros Hin Hx; [destruct Hin | |].
  - simpl. destruct (log_checked log10 y) as [z | e] eqn:Ey.
    + destruct Hin as [Heq | Hin].
      * injection Heq as -> ->.
        destruct (log_checked_domain x Hx) as [msg Hmsg]. congruence.
      * destruct (IH Hin Hx) as [msg ->]. exists msg. reflexivity.
    + destruct (log_checked_only_domain_errors y e Ey) as [msg ->].
      exists msg. reflexivity.
  - simpl. destruct Hin as [Heq | Hin]; [discriminate |].
    destruct (IH Hin Hx) as [msg ->]. exists msg. reflexivity.
Qed.

(** The Set function [LOG] on an argument with an entry [x <= 0]. *)
Lemma LOG_domain (arg : UDQSet) wgname x :
  In (wgname, Some x) (values arg) -> (x <=? 0)%float = true ->
  exists msg, LOG log10 arg = Throw (domain_error msg).
Proof.
  intros Hin Hx. unfold LOG.
  destruct (map_entries_domain _ _ _ Hin Hx) as [msg ->].
  exists msg. reflexivity.
Qed.

(** C5: evaluating [LOG] of an argument that holds a value [x <= 0] fails
    with a domain error; no Set (and so no NaN or infinity in one) is
    returned. *)
Theorem LOG_of_nonpositive_is_domain_error
    (eval_target kind : UDQVarType) (value : string + float) (sign : float)
    (selector : list string) (argument : UDQASTNode) (right : option UDQASTNode)
    (context : UDQContext) (arg : UDQSet) (wgname : string) (x : float) :
  fst (eval log10 pow eval_target argument context) = Ok arg ->
  In (wgname, Some x) (values arg) ->
  (x <=? 0)%float = true ->
  exists msg,
    fst (eval log10 pow eval_target
           (mkNode kind elemental_func_log value sign selector (Some argument) right)
           context)
    = Throw (domain_error msg).
Proof.
  intros Harg Hin Hx.
  destruct (LOG_domain arg wgname x Hin Hx) as [msg Hmsg].
  exists msg. cbn [eval].
  unfold ebind at 1. unfold eval_elemental_unary_function, ebind.
  destruct (eval log10 pow eval_target argument context) as [r context'].
  simpl in Harg. subst r.
  unfold lift. rewrite Hmsg. reflexivity.
Qed.

(** The node [l UADD r] evaluates as the node [l + r] does when both
    operands evaluate to fully defined Sets. *)
Lemma eval_UADD_as_add
    (eval_target kind : UDQVarType) (value : string + float) (sign : float)
    (selector : list string) (l r : UDQASTNode) (context : UDQContext)
    (A B : UDQSet) :
  fst (eval log10 pow eval_target l context) = Ok A ->
  fst (eval log10 pow eval_target r context) = Ok B ->
  fully_defined A -> fully_defined B ->
  eval log10 pow eval_target
    (mkNode kind binary_op_uadd value sign selector (Some l) (Some r)) context
  = eval log10 pow eval_target
      (mkNode kind binary_op_add value sign selector (Some l) (Some r)) context.
Proof.
  intros HA HB HdA HdB. cbn [eval binary_function].
  unfold eval_binary_function, ebind.
  pose proof (eval_read_only eval_target l context) as Hl.
  destruct (eval log10 pow eval_target l context) as [ra cl].
  simpl in HA, Hl. subst ra cl. cbv beta iota.
  destruct (eval log10 pow eval_target r context) as [rb cr].
  simpl in HB. subst rb. cbv beta iota.
  unfold lift, UADD, add.
  rewrite (elementwise_defined PrimFloat.add A B HdA HdB). reflexivity.
Qed.

End Evaluation.

(** [LOG(-1)] in a field-level expression. *)
Lemma LOG_of_nonpositive_is_domain_error_witness :
  exists msg,
    fst (UDQ.eval (fun x => x) (fun x _ => x) UDQ.FIELD_VAR
           (UDQ.node_unary UDQ.FIELD_VAR UDQ.elemental_func_log (inl "LOG"%string)
              (UDQ.node_of_number (-1)))
           (UDQ.fixture_context 300))
    = Throw (domain_error msg).
Proof.
  apply (LOG_of_nonpositive_is_domain_error (fun x => x) (fun x _ => x)
           UDQ.FIELD_VAR UDQ.FIELD_VAR (inl "LOG"%string) 1 []
           (UDQ.node_of_number (-1)) None (UDQ.fixture_context 300)
           (UDQ.scalar (Some (-1)%float)) ""%string (-1)%float);
    [reflexivity | left; reflexivity | reflexivity].
Defined.

(* ------------------------------------------------------------------ *)
(** ** Redefinition of a quantity *)

Section Redefinition.

Import UDQ.

Lemma lookup_replace_or_append (name n : string) (def : UDQInput) l :
  lookup_input name (replace_or_append n def l)
  = if String.eqb n name then Some def else lookup_input name l.
Proof.
  induction l as [| [k v] l IH]; simpl.
  - reflexivity.
  - destruct (String.eqb_spec k n) as [-> | Hkn]; simpl.
    + destruct (String.eqb n name); reflexivity.
    + destruct (String.eqb_spec k name) as [-> | Hk].
      * destruct (String.eqb_spec n name) as [-> | _]; [congruence | reflexivity].
      * exact IH.
Qed.

Lemma lookup_add_statement (name : string) (config : UDQConfig) (st : Statement) :
  lookup name (add_statement config st)
  = match binding name st with
    | Some def => Some def
    | None => lookup name config
    end.
Proof.
  destruct st as [n ast | n value | n u]; simpl; unfold lookup; simpl;
    rewrite ?lookup_replace_or_append;
    try destruct (String.eqb n name); reflexivity.
Qed.

Lemma lookup_fold (name : string) (statements : list Statement)
    (config : UDQConfig) :
  lookup name (fold_left add_statement statements config)
  = match last_binding name statements with
    | Some def => Some def
    | None => lookup name config
    end.
Proof.
  revert config.
  induction statements as [| st rest IH]; intros config; simpl.
  - reflexivity.
  - rewrite IH, lookup_add_statement.
    destruct (last_binding name rest); reflexivity.
Qed.

(** A name is listed once, however often it was defined. *)
Lemma replace_or_append_keeps_names (n : string) (def : UDQInput) l :
  In n (map fst l) ->
  map fst (replace_or_append n def l) = map fst l.
Proof.
  induction l as [| [k v] l IH]; simpl; [tauto |].
  intros Hin. destruct (String.eqb_spec k n) as [-> | Hkn]; simpl.
  - reflexivity.
  - f_equal. apply IH. destruct Hin; [contradiction | assumption].
Qed.

(** C7: when two DEFINE statements bind the same name the second replaces
    the first.  In general a quantity has the content its last statement
    gave it; in the fixture, with WOPR of PROD1 at 300, WUOPRL defined as
    [(WOPR PROD1 - 150) * 0.90] and later as [(WOPR PROD1 - 170) * 0.60]
    evaluates to 78.0 for PROD1, where the first definition alone gives
    135.0. *)
Theorem last_definition_wins :
  (forall statements name,
      lookup name (load statements) = last_binding name statements)
  /\ (forall name first second config,
         lookup name (add_define name second (add_define name first config))
         = Some (DEFINE second))
  /\ (forall log10 pow,
         exists result,
           eval_quantity log10 pow "WUOPRL" (load fixture_statements)
             (fixture_context 300)
           = (Ok result, fixture_context 300)
           /\ value_of "PROD1" result = Some 78%float)
  /\ (forall log10 pow,
         exists result,
           eval_quantity log10 pow "WUOPRL" (load (firstn 1 fixture_statements))
             (fixture_context 300)
           = (Ok result, fixture_context 300)
           /\ value_of "PROD1" result = Some 135%float).
Proof.
  split; [| split; [| split]].
  - intros statements name. unfold load.
    rewrite lookup_fold. destruct (last_binding name statements); reflexivity.
  - intros name first second config. unfold lookup, add_define. simpl.
    rewrite lookup_replace_or_append, String.eqb_refl. reflexivity.
  - intros log10 pow. eexists. split; vm_compute; reflexivity.
  - intros log10 pow. eexists. split; vm_compute; reflexivity.
Qed.

(** The fixture lists WUOPRL once, at the place of its first definition. *)
Example fixture_quantities :
  quantities (load fixture_statements)
  = ["WUOPRL"; "WULPRL"; "WUOPRU"; "GUOPRU"; "WULPRU"; "FULPR"]%string.
Proof. reflexivity. Qed.

End Redefinition.

(* ================================================================== *)
(** * Further properties of the well injection properties *)

Section WellMembers.

Import Well Deck.

(** Adding or dropping a control changes the mask and nothing else. *)
Lemma add_only_mask (c : InjectorCMode.t) (this : WellInjectionProperties) :
  addInjectionControl c this
  = set_injectionControls (injectionControls (addInjectionControl c this)) this.
Proof.
  unfold addInjectionControl.
  destruct (Int32.land _ _ =? 0); [reflexivity | destruct this; reflexivity].
Qed.

Lemma drop_only_mask (c : InjectorCMode.t) (this : WellInjectionProperties) :
  dropInjectionControl c this
  = set_injectionControls (injectionControls (dropInjectionControl c this)) this.
Proof.
  unfold dropInjectionControl.
  destruct (negb _); [reflexivity | destruct this; reflexivity].
Qed.

Ltac by_mask lemma c this := rewrite (lemma c this); reflexivity.

Lemma name_add c this : name (addInjectionControl c this) = name this.
Proof. by_mask add_only_mask c this. Qed.
Lemma name_drop c this : name (dropInjectionControl c this) = name this.
Proof. by_mask drop_only_mask c this. Qed.
Lemma surfaceInjectionRate_add c this :
  surfaceInjectionRate (addInjectionControl c this) = surfaceInjectionRate this.
Proof. by_mask add_only_mask c this. Qed.
Lemma surfaceInjectionRate_drop c this :
  surfaceInjectionRate (dropInjectionControl c this) = surfaceInjectionRate this.
Proof. by_mask drop_only_mask c this. Qed.
Lemma reservoirInjectionRate_add c this :
  reservoirInjectionRate (addInjectionControl c this) = reservoirInjectionRate this.
Proof. by_mask add_only_mask c this. Qed.
Lemma reservoirInjectionRate_drop c this :
  reservoirInjectionRate (dropInjectionControl c this) = reservoirInjectionRate this.
Proof. by_mask drop_only_mask c this. Qed.
Lemma BHPTarget_add c this : BHPTarget (addInjectionControl c this) = BHPTarget this.
Proof. by_mask add_only_mask c this. Qed.
Lemma BHPTarget_drop c this : BHPTarget (dropInjectionControl c this) = BHPTarget this.
Proof. by_mask drop_only_mask c this. Qed.
Lemma THPTarget_add c this : THPTarget (addInjectionControl c this) = THPTarget this.
Proof. by_mask add_only_mask c this. Qed.
Lemma THPTarget_drop c this : THPTarget (dropInjectionControl c this) = THPTarget this.
Proof. by_mask drop_only_mask c this. Qed.
Lemma bhp_hist_limit_add c this :
  bhp_hist_limit (addInjectionControl c this) = bhp_hist_limit this.
Proof. by_mask add_only_mask c this. Qed.
Lemma thp_hist_limit_add c this :
  thp_hist_limit (addInjectionControl c this) = thp_hist_limit this.
Proof. by_mask add_only_mask c this. Qed.
Lemma BHPH_add c this : BHPH (addInjectionControl c this) = BHPH this.
Proof. by_mask add_only_mask c this. Qed.
Lemma THPH_add c this : THPH (addInjectionControl c this) = THPH this.
Proof. by_mask add_only_mask c this. Qed.
Lemma VFPTableNumber_add c this :
  VFPTableNumber (addInjectionControl c this) = VFPTableNumber this.
Proof. by_mask add_only_mask c this. Qed.
Lemma VFPTableNumber_drop c this :
  VFPTableNumber (dropInjectionControl c this) = VFPTableNumber this.
Proof. by_mask drop_only_mask c this. Qed.
Lemma predictionMode_add c this :
  predictionMode (addInjectionControl c this) = predictionMode this.
Proof. by_mask add_only_mask c this. Qed.
Lemma predictionMode_drop c this :
  predictionMode (dropInjectionControl c this) = predictionMode this.
Proof. by_mask drop_only_mask c this. Qed.
Lemma injectorType_add c this :
  injectorType (addInjectionControl c this) = injectorType this.
Proof. by_mask add_only_mask c this. Qed.
Lemma injectorType_drop c this :
  injectorType (dropInjectionControl c this) = injectorType this.
Proof. by_mask drop_only_mask c this. Qed.
Lemma controlMode_add c this :
  controlMode (addInjectionControl c this) = controlMode this.
Proof. by_mask add_only_mask c this. Qed.
Lemma controlMode_drop c this :
  controlMode (dropInjectionControl c this) = controlMode this.
Proof. by_mask drop_only_mask c this. Qed.
Lemma gas_inj_composition_add c this :
  gas_inj_composition (addInjectionControl c this) = gas_inj_composition this.
Proof. by_mask add_only_mask c this. Qed.
Lemma gas_inj_composition_drop c this :
  gas_inj_composition (dropInjectionControl c this) = gas_inj_composition this.
Proof. by_mask drop_only_mask c this. Qed.

(** The rs/rv concentration changes [rsRvInj] and nothing else. *)
Lemma vapoil_only_rsRvInj item this :
  vapoil_concentration item this
  = set_rsRvInj (rsRvInj (vapoil_concentration item this)) this.
Proof.
  unfold vapoil_concentration.
  destruct (_ && _); destruct this; reflexivity.
Qed.

Lemma has_vapoil c item this :
  hasInjectionControl c (vapoil_concentration item this)
  = hasInjectionControl c this.
Proof. rewrite (vapoil_only_rsRvInj item this). reflexivity. Qed.

End WellMembers.

Create Rewrite HintDb well_members.

#[local] Hint Rewrite
  name_add name_drop surfaceInjectionRate_add surfaceInjectionRate_drop
  reservoirInjectionRate_add reservoirInjectionRate_drop
  BHPTarget_add BHPTarget_drop THPTarget_add THPTarget_drop
  bhp_hist_limit_add thp_hist_limit_add BHPH_add THPH_add
  VFPTableNumber_add VFPTableNumber_drop predictionMode_add predictionMode_drop
  injectorType_add injectorType_drop controlMode_add controlMode_drop
  gas_inj_composition_add gas_inj_composition_drop
  has_add has_drop has_vapoil
  : well_members.

(* ------------------------------------------------------------------ *)
(** ** Messages that name their subject *)

Section Messages.

Lemma substring_at_start (n rest : string) :
  substring 0 (String.length n) (n +:+ rest) = n.
Proof.
  induction n as [| c n IH].
  - destruct rest; reflexivity.
  - change (String c (substring 0 (String.length n) (n +:+ rest)) = String c n).
    rewrite IH. reflexivity.
Qed.

Lemma substring_after (before n rest : string) :
  substring (String.length before) (String.length n) (before +:+ n +:+ rest) = n.
Proof.
  induction before as [| c before IH].
  - exact (substring_at_start n rest).
  - exact IH.
Qed.

Lemma contains_substring (s n : string) (m : nat) :
  substring m (String.length n) s = n -> contains s n = true.
Proof.
  intros H. unfold contains.
  destruct (String.index 0 n s) eqn:E; [reflexivity |].
  destruct n as [| c n].
  - destruct s; discriminate.
  - exfalso.
    apply (String.index_correct3 0 m (String c n) s E); [discriminate | lia | exact H].
Qed.

(** A text put together from pieces contains each piece. *)
Lemma contains_middle (before n rest : string) :
  contains (before +:+ n +:+ rest) n = true.
Proof. eapply contains_substring. apply substring_after. Qed.

Lemma contains_end (before n : string) : contains (before +:+ n) n = true.
Proof.
  replace (before +:+ n) with (before +:+ n +:+ "").
  - apply contains_middle.
  - f_equal. induction n as [| c n IH]; [reflexivity |].
    change (String c (n +:+ "") = String c n). f_equal. exact IH.
Qed.

End Messages.

(* ------------------------------------------------------------------ *)
(** ** What a WCONINJE record leaves behind *)

Section WCONINJERecord.

Import Well Deck.

Lemma has_set_surfaceInjectionRate c v this :
  hasInjectionControl c (set_surfaceInjectionRate v this) = hasInjectionControl c this.
Proof. reflexivity. Qed.
Lemma has_set_reservoirInjectionRate c v this :
  hasInjectionControl c (set_reservoirInjectionRate v this) = hasInjectionControl c this.
Proof. reflexivity. Qed.
Lemma has_set_BHPTarget c v this :
  hasInjectionControl c (set_BHPTarget v this) = hasInjectionControl c this.
Proof. reflexivity. Qed.
Lemma has_set_THPTarget c v this :
  hasInjectionControl c (set_THPTarget v this) = hasInjectionControl c this.
Proof. reflexivity. Qed.
Lemma has_set_bhp_hist_limit c v this :
  hasInjectionControl c (set_bhp_hist_limit v this) = hasInjectionControl c this.
Proof. reflexivity. Qed.
Lemma has_set_BHPH c v this :
  hasInjectionControl c (set_BHPH v this) = hasInjectionControl c this.
Proof. reflexivity. Qed.
Lemma has_set_THPH c v this :
  hasInjectionControl c (set_THPH v this) = hasInjectionControl c this.
Proof. reflexivity. Qed.
Lemma has_set_VFPTableNumber c v this :
  hasInjectionControl c (set_VFPTableNumber v this) = hasInjectionControl c this.
Proof. reflexivity. Qed.
Lemma has_set_predictionMode c v this :
  hasInjectionControl c (set_predictionMode v this) = hasInjectionControl c this.
Proof. reflexivity. Qed.
Lemma has_set_injectorType c v this :
  hasInjectionControl c (set_injectorType v this) = hasInjectionControl c this.
Proof. reflexivity. Qed.
Lemma has_set_mode c v this :
  hasInjectionControl c (set_controlMode v this) = hasInjectionControl c this.
Proof. reflexivity. Qed.
Lemma has_set_rsRvInj c v this :
  hasInjectionControl c (set_rsRvInj v this) = hasInjectionControl c this.
Proof. reflexivity. Qed.

Hint Rewrite has_set_surfaceInjectionRate has_set_reservoirInjectionRate
  has_set_BHPTarget has_set_THPTarget has_set_bhp_hist_limit has_set_BHPH
  has_set_THPH has_set_VFPTableNumber has_set_predictionMode
  has_set_injectorType has_set_mode has_set_rsRvInj : well_members.

Lemma parsed_mode_defined (s : string) (m : InjectorCMode.t) :
  InjectorCMode.WellInjectorCModeFromString s = Ok m ->
  m <> InjectorCMode.CMODE_UNDEFINED.
Proof.
  unfold InjectorCMode.WellInjectorCModeFromString.
  repeat match goal with
         | |- context [if String.eqb ?a ?b then _ else _] =>
             destruct (String.eqb a b)
         end;
    intros H; try discriminate; injection H as <-; discriminate.
Qed.

(** Reduces the members of a state written as a chain of assignments. *)
Ltac members :=
  repeat (autorewrite with well_members;
          cbn [name surfaceInjectionRate reservoirInjectionRate BHPTarget
               THPTarget bhp_hist_limit thp_hist_limit BHPH THPH VFPTableNumber
               predictionMode injectorType controlMode rsRvInj
               gas_inj_composition
               set_surfaceInjectionRate set_reservoirInjectionRate set_BHPTarget
               set_THPTarget set_bhp_hist_limit set_BHPH set_THPH
               set_VFPTableNumber set_predictionMode set_injectorType
               set_controlMode set_rsRvInj set_gas_inj_composition
               InjectorCMode.eqb negb orb andb]).

(** The controls after the RATE and RESV items of a record. *)
Lemma rates_controls (record : WCONINJE.Record_) (c : InjectorCMode.t)
    (this : WellInjectionProperties) :
  let rate :=
    if negb (defaultApplied (WCONINJE.RATE record)) then
      addInjectionControl InjectorCMode.RATE
        (set_surfaceInjectionRate (get (WCONINJE.RATE record)) this)
    else dropInjectionControl InjectorCMode.RATE this in
  hasInjectionControl c
    (if negb (defaultApplied (WCONINJE.RESV record)) then
       addInjectionControl InjectorCMode.RESV
         (set_reservoirInjectionRate (get (WCONINJE.RESV record)) rate)
     else dropInjectionControl InjectorCMode.RESV rate)
  = match c with
    | InjectorCMode.RATE => negb (defaultApplied (WCONINJE.RATE record))
    | InjectorCMode.RESV => negb (defaultApplied (WCONINJE.RESV record))
    | _ => hasInjectionControl c this
    end.
Proof.
  cbv zeta.
  destruct (defaultApplied (WCONINJE.RATE record)),
           (defaultApplied (WCONINJE.RESV record)), c;
    cbn [negb]; members; destruct (hasInjectionControl _ this); reflexivity.
Qed.

(** The RATE and RESV items leave the other members alone. *)
Lemma rates_members (record : WCONINJE.Record_) (this : WellInjectionProperties) :
  let rate :=
    if negb (defaultApplied (WCONINJE.RATE record)) then
      addInjectionControl InjectorCMode.RATE
        (set_surfaceInjectionRate (get (WCONINJE.RATE record)) this)
    else dropInjectionControl InjectorCMode.RATE this in
  let resv :=
    if negb (defaultApplied (WCONINJE.RESV record)) then
      addInjectionControl InjectorCMode.RESV
        (set_reservoirInjectionRate (get (WCONINJE.RESV record)) rate)
    else dropInjectionControl InjectorCMode.RESV rate in
  predictionMode resv = predictionMode this
  /\ injectorType resv = injectorType this
  /\ gas_inj_composition resv = gas_inj_composition this
  /\ name resv = name this.
Proof.
  cbv zeta.
  destruct (defaultApplied (WCONINJE.RATE record)),
           (defaultApplied (WCONINJE.RESV record)); cbn [negb];
    rewrite ?predictionMode_add, ?predictionMode_drop, ?injectorType_add,
      ?injectorType_drop, ?gas_inj_composition_add, ?gas_inj_composition_drop,
      ?name_add, ?name_drop;
    cbn [predictionMode injectorType gas_inj_composition name
         set_reservoirInjectionRate set_surfaceInjectionRate];
    rewrite ?predictionMode_add, ?predictionMode_drop, ?injectorType_add,
      ?injectorType_drop, ?gas_inj_composition_add, ?gas_inj_composition_drop,
      ?name_add, ?name_drop;
    auto.
Qed.

Lemma contains_append_r (before s n : string) :
  contains s n = true -> contains (before +:+ s) n = true.
Proof.
  unfold contains at 1.
  destruct (String.index 0 n s) as [m |] eqn:E; [intros _ | discriminate].
  apply String.index_correct1 in E.
  apply (contains_substring _ _ (String.length before + m)).
  transitivity (substring m (String.length n) s); [| exact E].
  clear E. generalize (String.length n). intros k.
  induction before as [| c before IH]; [reflexivity | exact IH].
Qed.

(** X1: when [handleWCONINJE] returns normally, the active controls are
    the ones the record asks for, whatever was active before: RATE, RESV and
    THP exactly when their target is given, BHP always, GRUP exactly when
    the well is available for group control.  The well is in prediction
    mode, with the injector type, control mode, VFP table and BHP target of
    the record (the default BHP where the record has none). *)
Theorem WCONINJE_sets_controls
    (record : WCONINJE.Record_) (bhp_def : float)
    (availableForGroupControl : bool) (well_name : string)
    (location : KeywordLocation) (this this' : WellInjectionProperties) :
  handleWCONINJE record bhp_def availableForGroupControl well_name location this
  = Ok this' ->
  (forall c, c <> InjectorCMode.CMODE_UNDEFINED ->
             hasInjectionControl c this'
             = requested_by_WCONINJE record availableForGroupControl c)
  /\ predictionMode this' = true
  /\ InjectorType.InjectorTypeFromString
       (getTrimmedString (WCONINJE.TYPE record)) = Ok (injectorType this')
  /\ InjectorCMode.WellInjectorCModeFromString
       (getTrimmedString (WCONINJE.CMODE record)) = Ok (controlMode this')
  /\ VFPTableNumber this' = get (WCONINJE.VFP_TABLE record)
  /\ BHPTarget this'
     = (if defaultApplied (WCONINJE.BHP record)
        then UDAValue.Numeric bhp_def
        else get (WCONINJE.BHP record)).
Proof.
  unfold handleWCONINJE. intros H. cbv zeta in H.
  apply bind_Ok_inv in H as (type & Htype & H). cbv beta in H.
  apply bind_Ok_inv in H as (this1 & Hthp & H). cbv beta in H.
  apply bind_Ok_inv in H as (mode & Hmode & H). cbv beta in H.
  apply bind_Ok_inv in H as (this2 & Hhas & H). cbv beta in H.
  injection H as <-.
  match type of Hhas with
  | (if ?b then _ else _) = _ => destruct b; [| discriminate]
  end.
  injection Hhas as <-.
  assert (H1 : (forall c,
                   c = InjectorCMode.RATE \/ c = InjectorCMode.RESV
                   \/ c = InjectorCMode.THP ->
                   hasInjectionControl c this1
                   = requested_by_WCONINJE record availableForGroupControl c)
               /\ VFPTableNumber this1 = get (WCONINJE.VFP_TABLE record)
               /\ predictionMode this1 = true
               /\ injectorType this1 = type).
  { clear Hmode.
    pose proof (rates_members record
                  (set_predictionMode true (set_injectorType type this)))
      as (Rpred & Rtype & _ & _).
    cbv zeta in Rpred, Rtype.
    destruct (defaultApplied (WCONINJE.THP record)) eqn:ETHP;
      cbn [negb] in Hthp;
      try match type of Hthp with
          | (if ?b then _ else _) = _ => destruct b; [discriminate |]
          end;
      injection Hthp as <-;
      (split; [| split; [| split]]);
      [ intros c [-> | [-> | ->]]
      | rewrite ?VFPTableNumber_add, ?VFPTableNumber_drop; reflexivity
      | rewrite ?predictionMode_add, ?predictionMode_drop; exact Rpred
      | rewrite ?injectorType_add, ?injectorType_drop; exact Rtype
      | intros c [-> | [-> | ->]]
      | rewrite ?VFPTableNumber_add, ?VFPTableNumber_drop; reflexivity
      | rewrite ?predictionMode_add, ?predictionMode_drop; exact Rpred
      | rewrite ?injectorType_add, ?injectorType_drop; exact Rtype ];
      rewrite ?has_add, ?has_drop, ?has_set_THPTarget, ?has_set_VFPTableNumber,
        rates_controls;
      cbn [requested_by_WCONINJE InjectorCMode.eqb negb orb andb];
      rewrite ?ETHP, ?orb_false_r, ?orb_true_r, ?andb_true_r, ?andb_false_r;
      reflexivity. }
  destruct H1 as (Hcontrols & Hvfp & Hpred & Htype').
  pose proof (parsed_mode_defined _ _ Hmode) as Hdefined.
  repeat split.
  - intros c Hc.
    destruct (defaultApplied (WCONINJE.BHP record)), availableForGroupControl;
      destruct c; try congruence; members;
      rewrite ?Hcontrols by auto; cbn [requested_by_WCONINJE];
      rewrite ?orb_true_r, ?orb_false_r, ?andb_true_r, ?andb_false_r;
      try reflexivity; destruct (hasInjectionControl _ this1); reflexivity.
  - rewrite (vapoil_only_rsRvInj _ _).
    destruct (defaultApplied (WCONINJE.BHP record)), availableForGroupControl;
      members; exact Hpred.
  - rewrite (vapoil_only_rsRvInj _ _).
    destruct (defaultApplied (WCONINJE.BHP record)), availableForGroupControl;
      members; rewrite Htype'; exact Htype.
  - rewrite (vapoil_only_rsRvInj _ _). exact Hmode.
  - rewrite (vapoil_only_rsRvInj _ _).
    destruct (defaultApplied (WCONINJE.BHP record)), availableForGroupControl;
      members; exact Hvfp.
  - rewrite (vapoil_only_rsRvInj _ _).
    destruct (defaultApplied (WCONINJE.BHP record)), availableForGroupControl;
      members; reflexivity.
Qed.

(** The record of the fixture: RESV, BHP and GRUP become the controls of
    WINJ1. *)
Lemma WCONINJE_sets_controls_witness :
  exists this',
    handleWCONINJE fixture_WCONINJE 689120000 true "WINJ1"
      (fixture_location "WCONINJE" 453) WINJ1 = Ok this'
    /\ hasInjectionControl InjectorCMode.RESV this' = true
    /\ hasInjectionControl InjectorCMode.RATE this' = false.
Proof.
  destruct (handleWCONINJE fixture_WCONINJE 689120000 true "WINJ1"
              (fixture_location "WCONINJE" 453) WINJ1) as [this' | e] eqn:E.
  - exists this'. split; [reflexivity |].
    destruct (WCONINJE_sets_controls _ _ _ _ _ _ _ E) as (Hc & _).
    split; rewrite Hc by discriminate; reflexivity.
  - vm_compute in E. discriminate.
Defined.

(** Runs the THP item and the BHP and GRUP steps, and settles the test of
    the control mode with [Hcheck]. *)
Ltac check_stage Hvfp :=
  match goal with
  | Hcheck : forall S : Well.WellInjectionProperties, _ |- _ =>
      destruct (Deck.defaultApplied (Deck.WCONINJE.THP _)) eqn:?; cbn [negb];
      [| destruct Hvfp as [Hvfp | Hvfp]; [discriminate |];
         rewrite VFPTableNumber_add;
         cbn [Well.VFPTableNumber Well.set_THPTarget Well.set_VFPTableNumber];
         rewrite (proj2 (Z.eqb_neq _ _) Hvfp) ];
      cbn [bind]; cbv beta;
      try eexists;
      apply Hcheck;
      match goal with
      | |- context [Deck.defaultApplied (Deck.WCONINJE.BHP ?r)] =>
          destruct (Deck.defaultApplied (Deck.WCONINJE.BHP r))
      end;
      match goal with
      | |- context [if ?g then Well.addInjectionControl InjectorCMode.GRUP _
                    else _] => destruct g
      end;
      repeat first [ rewrite has_add | rewrite has_drop
                   | rewrite has_set_BHPTarget | rewrite has_set_THPTarget
                   | rewrite has_set_VFPTableNumber | rewrite rates_controls ];
      match goal with
      | |- context [Well.requested_by_WCONINJE _ _ ?m] =>
          destruct m; try congruence;
          cbn [Well.requested_by_WCONINJE InjectorCMode.eqb negb orb andb];
          rewrite ?orb_false_r, ?andb_true_r, ?orb_true_r, ?andb_false_r;
          try reflexivity;
          try match goal with
              | E : Deck.defaultApplied (Deck.WCONINJE.THP _) = _ |- _ =>
                  rewrite E; reflexivity
              end
      end
  end.

(** X2: for a record whose injector type is one, [handleWCONINJE] ends
    in one of four ways, tried in this order.  A THP target without a VFP
    table is an [OpmInputError] at the location of the keyword, and names
    the well.  Else a control mode string that is no control mode is the
    exception of the conversion, unchanged.  Else a control mode the record
    gives no target for is an [std::invalid_argument] that names the well
    and quotes the mode.  Else the call returns normally. *)
Theorem WCONINJE_outcome
    (record : WCONINJE.Record_) (bhp_def : float)
    (availableForGroupControl : bool) (well_name : string)
    (location : KeywordLocation) (this : WellInjectionProperties)
    (type : InjectorType.t) :
  InjectorType.InjectorTypeFromString (getTrimmedString (WCONINJE.TYPE record))
  = Ok type ->
  let call :=
    handleWCONINJE record bhp_def availableForGroupControl well_name location this in
  let cmodeString := getTrimmedString (WCONINJE.CMODE record) in
  let vfp_in_order :=
    defaultApplied (WCONINJE.THP record) = true
    \/ get (WCONINJE.VFP_TABLE record) <> 0 in
  (defaultApplied (WCONINJE.THP record) = false ->
   get (WCONINJE.VFP_TABLE record) = 0 ->
   exists msg,
     call = Throw (OpmInputError msg location)
     /\ contains msg well_name = true)
  /\ (vfp_in_order ->
      forall e,
        InjectorCMode.WellInjectorCModeFromString cmodeString = Throw e ->
        call = Throw e)
  /\ (vfp_in_order ->
      forall mode,
        InjectorCMode.WellInjectorCModeFromString cmodeString = Ok mode ->
        requested_by_WCONINJE record availableForGroupControl mode = false ->
        exists msg,
          call = Throw (invalid_argument msg)
          /\ contains msg well_name = true
          /\ contains msg cmodeString = true)
  /\ (vfp_in_order ->
      forall mode,
        InjectorCMode.WellInjectorCModeFromString cmodeString = Ok mode ->
        requested_by_WCONINJE record availableForGroupControl mode = true ->
        exists this', call = Ok this').
Proof.
  intros Htype call cmodeString vfp_in_order.
  subst call cmodeString vfp_in_order.
  unfold handleWCONINJE. cbv zeta. rewrite Htype. cbn [bind].
  split; [| split; [| split]].
  - intros Ethp Evfp. rewrite Ethp. cbn [negb].
    rewrite VFPTableNumber_add. cbn [VFPTableNumber set_THPTarget set_VFPTableNumber].
    rewrite Evfp. cbn [Z.eqb bind].
    eexists. split; [reflexivity | apply contains_middle].
  - intros Hvfp e Hmode. rewrite Hmode.
    destruct (defaultApplied (WCONINJE.THP record)) eqn:Ethp; cbn [negb].
    + reflexivity.
    + destruct Hvfp as [Hvfp | Hvfp]; [discriminate |].
      rewrite VFPTableNumber_add.
      cbn [VFPTableNumber set_THPTarget set_VFPTableNumber].
      rewrite (proj2 (Z.eqb_neq _ _) Hvfp). reflexivity.
  - intros Hvfp mode Hmode Hreq.
    pose proof (parsed_mode_defined _ _ Hmode) as Hdefined.
    rewrite Hmode.
    assert (Hcheck :
              forall S : WellInjectionProperties,
                hasInjectionControl mode S
                = requested_by_WCONINJE record availableForGroupControl mode ->
                bind (if hasInjectionControl mode S
                      then Ok (set_controlMode mode S)
                      else Throw (invalid_argument
                                    ("Tried to set invalid control: "
                                     +:+ getTrimmedString (WCONINJE.CMODE record)
                                     +:+ " for well: " +:+ well_name)))
                  (fun this0 =>
                     Ok (vapoil_concentration (WCONINJE.VAPOIL_C record) this0))
                = Throw (invalid_argument
                           ("Tried to set invalid control: "
                            +:+ getTrimmedString (WCONINJE.CMODE record)
                            +:+ " for well: " +:+ well_name))).
    { intros S ->. rewrite Hreq. reflexivity. }
    eexists. split; [| split].
    + check_stage Hvfp.
    + do 2 apply contains_append_r. apply contains_end.
    + apply contains_middle.
  - intros Hvfp mode Hmode Hreq.
    pose proof (parsed_mode_defined _ _ Hmode) as Hdefined.
    rewrite Hmode.
    assert (Hcheck :
              forall S : WellInjectionProperties,
                hasInjectionControl mode S
                = requested_by_WCONINJE record availableForGroupControl mode ->
                bind (if hasInjectionControl mode S
                      then Ok (set_controlMode mode S)
                      else Throw (invalid_argument
                                    ("Tried to set invalid control: "
                                     +:+ getTrimmedString (WCONINJE.CMODE record)
                                     +:+ " for well: " +:+ well_name)))
                  (fun this0 =>
                     Ok (vapoil_concentration (WCONINJE.VAPOIL_C record) this0))
                = Ok (vapoil_concentration (WCONINJE.VAPOIL_C record)
                        (set_controlMode mode S))).
    { intros S ->. rewrite Hreq. reflexivity. }
    check_stage Hvfp.
Qed.

(** A RATE control mode on a record that gives no rate. *)
Lemma WCONINJE_outcome_witness :
  exists msg,
    handleWCONINJE
      (WCONINJE.mk (item "WAT"%string) (defaulted (UDAValue.Numeric 0))
         (item (UDAValue.Numeric 1200)) (defaulted 0)
         (defaulted (UDAValue.Numeric 0)) (item (UDAValue.Numeric 3500))
         (item "RATE"%string) (defaulted (mkDimensioned 0 0)))
      689120000 true "WINJ1" (fixture_location "WCONINJE" 453) WINJ1
    = Throw (invalid_argument msg)
    /\ contains msg "WINJ1" = true
    /\ contains msg "RATE" = true.
Proof.
  refine (proj1 (proj2 (proj2
            (WCONINJE_outcome
               (WCONINJE.mk (item "WAT"%string) (defaulted (UDAValue.Numeric 0))
                  (item (UDAValue.Numeric 1200)) (defaulted 0)
                  (defaulted (UDAValue.Numeric 0)) (item (UDAValue.Numeric 3500))
                  (item "RATE"%string) (defaulted (mkDimensioned 0 0)))
               689120000 true "WINJ1" (fixture_location "WCONINJE" 453) WINJ1
               InjectorType.WATER eq_refl)))
            _ InjectorCMode.RATE eq_refl eq_refl).
  left. reflexivity.
Defined.

End WCONINJERecord.

(* ------------------------------------------------------------------ *)
(** ** What a WCONINJH record leaves behind *)

Section WCONINJHRecord.

Import Well Deck.

(** The mode [handleWCONINJH] goes on with is RATE or BHP. *)
Lemma history_mode (mode mode' : InjectorCMode.t) (log log1 : OpmLog.t)
    (warned : Result (InjectorCMode.t * OpmLog.t)) :
  (forall r, warned = Ok r -> fst r = InjectorCMode.RATE) ->
  (if negb (InjectorCMode.eqb mode InjectorCMode.RATE
            || InjectorCMode.eqb mode InjectorCMode.BHP)
   then warned else Ok (mode, log)) = Ok (mode', log1) ->
  mode' = InjectorCMode.RATE \/ mode' = InjectorCMode.BHP.
Proof.
  intros Hw. destruct mode; cbn [InjectorCMode.eqb orb negb]; intros H;
    first [ injection H as <- _; auto
          | left; exact (Hw _ H) ].
Qed.

Lemma handleWCONINJH_post
    (record : WCONINJH.Record_) (vfp_table_nr : Z) (bhp_def : float)
    (is_producer : bool) (well_name : string) (loc : KeywordLocation)
    (log log' : OpmLog.t) (this this' : WellInjectionProperties) :
  handleWCONINJH record vfp_table_nr bhp_def is_producer well_name loc log this
  = Ok (this', log') ->
  predictionMode this' = false
  /\ VFPTableNumber this' = vfp_table_nr
  /\ (controlMode this' = InjectorCMode.RATE
      \/ controlMode this' = InjectorCMode.BHP)
  /\ InjectorType.InjectorTypeFromString
       (getTrimmedString (WCONINJH.TYPE record)) = Ok (injectorType this')
  /\ (forall c,
         hasInjectionControl c this'
         = hasInjectionControl c this
           || InjectorCMode.eqb InjectorCMode.BHP c
           || InjectorCMode.eqb (controlMode this') c)
  /\ BHPH this'
     = (if hasValue (WCONINJH.BHP record)
        then getSIDouble (WCONINJH.BHP record) else BHPH this)
  /\ bhp_hist_limit this'
     = (if InjectorCMode.eqb (controlMode this') InjectorCMode.BHP
        then BHPH this'
        else if predictionMode this
                || InjectorCMode.eqb (controlMode this) InjectorCMode.BHP
                || is_producer
             then bhp_def
             else bhp_hist_limit this)
  /\ BHPTarget this' = BHPTarget this
  /\ THPTarget this' = THPTarget this
  /\ gas_inj_composition this' = gas_inj_composition this
  /\ thp_hist_limit this' = thp_hist_limit this
  /\ name this' = name this.
Proof.
  unfold handleWCONINJH. intros H. cbv zeta in H.
  destruct (defaultApplied (WCONINJH.TYPE record)); [discriminate |].
  apply bind_Ok_inv in H as (type & Htype & H). cbv beta in H.
  apply bind_Ok_inv in H as (mode & _ & H). cbv beta in H.
  apply bind_Ok_inv in H as ([mode' log1] & Hmode' & H). cbv beta iota in H.
  injection H as <- _.
  apply history_mode in Hmode'.
  2:{ intros r Hr.
      apply bind_Ok_inv in Hr as (target & _ & Hr). cbv beta in Hr.
      apply bind_Ok_inv in Hr as (selected & _ & Hr). cbv beta in Hr.
      injection Hr as <-. reflexivity. }
  rewrite (vapoil_only_rsRvInj _ _).
  match goal with
  | |- context [addInjectionControl mode'
                  (addInjectionControl InjectorCMode.BHP ?L)] =>
      set (limited := L)
  end.
  assert (Hfields :
            injectorType limited = type
            /\ BHPH limited
               = (if hasValue (WCONINJH.BHP record)
                  then getSIDouble (WCONINJH.BHP record) else BHPH this)
            /\ bhp_hist_limit limited
               = (if InjectorCMode.eqb mode' InjectorCMode.BHP
                  then BHPH limited
                  else if predictionMode this
                          || InjectorCMode.eqb (controlMode this) InjectorCMode.BHP
                          || is_producer
                       then bhp_def
                       else bhp_hist_limit this)
            /\ BHPTarget limited = BHPTarget this
            /\ THPTarget limited = THPTarget this
            /\ gas_inj_composition limited = gas_inj_composition this
            /\ thp_hist_limit limited = thp_hist_limit this
            /\ name limited = name this
            /\ forall c, hasInjectionControl c limited = hasInjectionControl c this).
  { subst limited.
    destruct (InjectorCMode.eqb mode' InjectorCMode.BHP),
             (defaultApplied (WCONINJH.RATE record)),
             (hasValue (WCONINJH.BHP record)),
             (hasValue (WCONINJH.THP record));
      cbn [negb predictionMode controlMode set_THPH set_BHPH
           set_surfaceInjectionRate set_injectorType];
      repeat match goal with
             | |- context [if ?b then set_bhp_hist_limit _ _ else _] =>
                 destruct b
             end;
      repeat split. }
  clearbody limited.
  destruct Hfields as (F1 & F2 & F3 & F4 & F5 & F6 & F8 & F9 & F7).
  assert (Hhas : forall c,
             hasInjectionControl c
               (set_rsRvInj
                  (rsRvInj
                     (vapoil_concentration (WCONINJH.VAPOIL_C record)
                        (set_VFPTableNumber vfp_table_nr
                           (set_predictionMode false
                              (set_controlMode mode'
                                 (addInjectionControl mode'
                                    (addInjectionControl InjectorCMode.BHP
                                       limited)))))))
                  (set_VFPTableNumber vfp_table_nr
                     (set_predictionMode false
                        (set_controlMode mode'
                           (addInjectionControl mode'
                              (addInjectionControl InjectorCMode.BHP limited))))))
             = hasInjectionControl c this
               || InjectorCMode.eqb InjectorCMode.BHP c
               || InjectorCMode.eqb mode' c).
  { intros c.
    rewrite has_set_rsRvInj, has_set_VFPTableNumber, has_set_predictionMode,
      has_set_mode, !has_add, F7.
    reflexivity. }
  split; [reflexivity |].
  split; [reflexivity |].
  split; [exact Hmode' |].
  cbn [injectorType BHPH bhp_hist_limit BHPTarget THPTarget gas_inj_composition
       thp_hist_limit name
       controlMode set_rsRvInj set_VFPTableNumber set_predictionMode
       set_controlMode] in *.
  rewrite !injectorType_add, !BHPH_add, !bhp_hist_limit_add, !BHPTarget_add,
    !THPTarget_add, !gas_inj_composition_add, !thp_hist_limit_add, !name_add.
  rewrite F1.
  repeat split; try assumption.
Qed.

(** X3: when [handleWCONINJH] returns normally the well is in history
    mode under RATE or BHP control, with the VFP table of the call and the
    injector type of the record.  The record only adds controls: exactly
    BHP and the control mode join those active before.  The historical BHP
    limit is the BHP of the record under BHP control; otherwise it is the
    default when the well comes from prediction mode, BHP control or
    production, and stays as it was else.  The prediction targets for BHP
    and THP, the historical THP limit, the gas composition and the name are
    not touched. *)
Theorem WCONINJH_postcondition
    (record : WCONINJH.Record_) (vfp_table_nr : Z) (bhp_def : float)
    (is_producer : bool) (well_name : string) (loc : KeywordLocation)
    (log log' : OpmLog.t) (this this' : WellInjectionProperties) :
  handleWCONINJH record vfp_table_nr bhp_def is_producer well_name loc log this
  = Ok (this', log') ->
  predictionMode this' = false
  /\ VFPTableNumber this' = vfp_table_nr
  /\ (controlMode this' = InjectorCMode.RATE
      \/ controlMode this' = InjectorCMode.BHP)
  /\ InjectorType.InjectorTypeFromString
       (getTrimmedString (WCONINJH.TYPE record)) = Ok (injectorType this')
  /\ (forall c,
         hasInjectionControl c this'
         = hasInjectionControl c this
           || InjectorCMode.eqb InjectorCMode.BHP c
           || InjectorCMode.eqb (controlMode this') c)
  /\ BHPH this'
     = (if hasValue (WCONINJH.BHP record)
        then getSIDouble (WCONINJH.BHP record) else BHPH this)
  /\ bhp_hist_limit this'
     = (if InjectorCMode.eqb (controlMode this') InjectorCMode.BHP
        then BHPH this'
        else if predictionMode this
                || InjectorCMode.eqb (controlMode this) InjectorCMode.BHP
                || is_producer
             then bhp_def
             else bhp_hist_limit this)
  /\ BHPTarget this' = BHPTarget this
  /\ THPTarget this' = THPTarget this
  /\ gas_inj_composition this' = gas_inj_composition this
  /\ thp_hist_limit this' = thp_hist_limit this
  /\ name this' = name this.
Proof. apply handleWCONINJH_post. Qed.

(** The record [history_THP] for the injector WINJ1, which has not seen an
    injection keyword before. *)
Lemma WCONINJH_postcondition_witness :
  exists this' log',
    handleWCONINJH history_THP 0 689120000 false "WINJ1"
      (fixture_location "WCONINJH" 460) [] WINJ1 = Ok (this', log')
    /\ predictionMode this' = false.
Proof.
  destruct (handleWCONINJH history_THP 0 689120000 false "WINJ1"
              (fixture_location "WCONINJH" 460) [] WINJ1)
    as [[this' log'] | e] eqn:E.
  - exists this', log'. split; [reflexivity |].
    exact (proj1 (WCONINJH_postcondition _ _ _ _ _ _ _ _ _ _ E)).
  - vm_compute in E. discriminate.
Defined.

End WCONINJHRecord.

(* ------------------------------------------------------------------ *)
(** ** Target updates *)

Section TargetUpdates.

Import Well Deck.

Lemma same_controls_consistent this this' :
  same_controls this this' -> controls_consistent this -> controls_consistent this'.
Proof.
  intros (Hc & Hm & _). apply controls_consistent_ext; assumption.
Qed.

Ltac target_cases H :=
  repeat match type of H with
         | context [if ?b then _ else _] => destruct b
         | context [bind ?r _] => destruct r; cbn [bind] in H
         end;
  try discriminate.

Lemma handleWELTARG_same_controls cmode new_arg SiFactorP this this' :
  handleWELTARG cmode new_arg SiFactorP this = Ok this' ->
  same_controls this this'.
Proof.
  unfold handleWELTARG. intros H.
  destruct cmode; target_cases H; injection H as <-; repeat split.
Qed.

Lemma handleWTMULT_same_controls cmode factor this this' :
  handleWTMULT cmode factor this = Ok this' -> same_controls this this'.
Proof.
  unfold handleWTMULT. intros H.
  destruct cmode; target_cases H; injection H as <-; repeat split.
Qed.

Lemma update_uda_same_controls {UDQConfig : Type} (udq_config : UDQConfig)
    udq_active control value this this' udq_active' :
  update_uda udq_config udq_active control value this = Ok (this', udq_active') ->
  same_controls this this'.
Proof.
  unfold update_uda. intros H.
  destruct control; try discriminate;
    try destruct (InjectorType.eqb (injectorType this) _);
    cbn [bind] in H; cbv beta iota in H;
    injection H as <- _; repeat split.
Qed.

End TargetUpdates.

Section TargetUpdateProperties.

Import Well Deck.

(** X4: WELTARG, WTMULT and UDA updates never change which controls are
    active, the control mode, the injector type, the prediction/history
    mode or the well name; so a well whose BHP control and control mode are
    among the active controls stays that way. *)
Theorem target_updates_keep_controls :
  (forall cmode new_arg SiFactorP this this',
      handleWELTARG cmode new_arg SiFactorP this = Ok this' ->
      same_controls this this'
      /\ (controls_consistent this -> controls_consistent this'))
  /\ (forall cmode factor this this',
         handleWTMULT cmode factor this = Ok this' ->
         same_controls this this'
         /\ (controls_consistent this -> controls_consistent this'))
  /\ (forall (UDQConfig : Type) (udq_config : UDQConfig) udq_active control
             value this this' udq_active',
         update_uda udq_config udq_active control value this
         = Ok (this', udq_active') ->
         same_controls this this'
         /\ (controls_consistent this -> controls_consistent this')).
Proof.
  split; [| split].
  - intros cmode new_arg SiFactorP this this' H.
    apply handleWELTARG_same_controls in H.
    split; [exact H | apply same_controls_consistent; exact H].
  - intros cmode factor this this' H.
    apply handleWTMULT_same_controls in H.
    split; [exact H | apply same_controls_consistent; exact H].
  - intros UDQConfig udq_config udq_active control value this this' udq_active' H.
    apply update_uda_same_controls in H.
    split; [exact H | apply same_controls_consistent; exact H].
Qed.

(** X5: a mode that names no target of an injector (LRAT, CRAT, LIFT) is
    an error for WELTARG, "Invalid keyword (MODE) supplied", but not for
    WTMULT: its default branch builds the exception without throwing it, so
    the call returns normally and leaves the properties as they were. *)
Theorem WTMULT_ignores_invalid_mode (cmode : WELTARGCMode.t) (factor : float)
    (new_arg : UDAValue.t) (SiFactorP : float) (this : WellInjectionProperties) :
  In cmode modes_without_injection_target ->
  handleWTMULT cmode factor this = Ok this
  /\ handleWELTARG cmode new_arg SiFactorP this
     = Throw (invalid_argument "Invalid keyword (MODE) supplied").
Proof.
  intros Hin. cbn in Hin.
  destruct Hin as [<- | [<- | [<- | []]]]; split; reflexivity.
Qed.

Lemma WTMULT_ignores_invalid_mode_witness :
  handleWTMULT WELTARGCMode.LRAT 2 WINJ1 = Ok WINJ1
  /\ handleWELTARG WELTARGCMode.LRAT (UDAValue.Numeric 100) 1 WINJ1
     = Throw (invalid_argument "Invalid keyword (MODE) supplied").
Proof.
  apply WTMULT_ignores_invalid_mode. left. reflexivity.
Defined.

(** X6: [update_uda] accepts the ten controls of an injector and nothing
    else.  For a control it accepts it returns normally, and the member the
    control is bound to holds the new value, unless the control is for
    another fluid than the injector's; for any other control it throws
    [std::logic_error] with the name of the control in the message. *)
Theorem update_uda_controls
    (UDQConfig : Type) (udq_config : UDQConfig) (udq_active : UDQActive.t)
    (control : UDAControl.t) (value : UDAValue.t) (this : WellInjectionProperties) :
  match uda_member control with
  | Some member =>
      exists this' udq_active',
        update_uda udq_config udq_active control value this
        = Ok (this', udq_active')
        /\ (match fluid_of_control control with
            | Some fluid => injectorType this = fluid
            | None => True
            end -> member this' = value)
  | None =>
      exists msg,
        update_uda udq_config udq_active control value this
        = Throw (logic_error msg)
        /\ contains msg (UDAControl.controlName control) = true
  end.
Proof.
  destruct control; cbn [uda_member fluid_of_control];
    try (eexists; split;
         [reflexivity
         | apply (contains_middle "Unsupported well injection UDA control '")]);
    unfold update_uda;
    try (destruct (injectorType this) eqn:E; cbn [InjectorType.eqb bind]);
    cbn [bind]; cbv beta iota;
    eexists; eexists; (split; [reflexivity |]);
    intros H; first [reflexivity | discriminate | idtac].
Qed.

Lemma handleWCONINJE_gas record bhp_def availableForGroupControl well_name
    location this this' :
  handleWCONINJE record bhp_def availableForGroupControl well_name location this
  = Ok this' ->
  gas_inj_composition this' = gas_inj_composition this.
Proof.
  unfold handleWCONINJE. intros H. cbv zeta in H.
  apply bind_Ok_inv in H as (type & _ & H). cbv beta in H.
  apply bind_Ok_inv in H as (this1 & Hthp & H). cbv beta in H.
  apply bind_Ok_inv in H as (mode & _ & H). cbv beta in H.
  apply bind_Ok_inv in H as (this2 & Hhas & H). cbv beta in H.
  injection H as <-.
  match type of Hhas with
  | (if ?b then _ else _) = _ => destruct b; [| discriminate]
  end.
  injection Hhas as <-.
  assert (H1 : gas_inj_composition this1 = gas_inj_composition this).
  { pose proof (rates_members record
                  (set_predictionMode true (set_injectorType type this)))
      as (_ & _ & Rgas & _).
    cbv zeta in Rgas.
    destruct (defaultApplied (WCONINJE.THP record)); cbn [negb] in Hthp;
      try match type of Hthp with
          | (if ?b then _ else _) = _ => destruct b; [discriminate |]
          end;
      injection Hthp as <-;
      rewrite ?gas_inj_composition_add, ?gas_inj_composition_drop;
      exact Rgas. }
  rewrite (vapoil_only_rsRvInj _ _).
  cbn [gas_inj_composition set_rsRvInj set_controlMode].
  destruct availableForGroupControl, (defaultApplied (WCONINJE.BHP record));
    rewrite ?gas_inj_composition_add, ?gas_inj_composition_drop;
    cbn [gas_inj_composition set_BHPTarget];
    rewrite ?gas_inj_composition_add, ?gas_inj_composition_drop;
    exact H1.
Qed.

(** X7: the gas composition is what [setGasInjComposition] stored, also
    after the well went through a WCONINJE or a WCONINJH record; asking for
    it on a well that was never given one throws. *)
Theorem gas_composition_round_trip :
  (forall composition this,
      gasInjComposition (setGasInjComposition composition this) = Ok composition)
  /\ (forall wname,
         gasInjComposition (construct wname)
         = Throw (invalid_argument "Gas injection composition not set"))
  /\ (forall record bhp_def availableForGroupControl well_name location
             composition this this',
         handleWCONINJE record bhp_def availableForGroupControl well_name
           location (setGasInjComposition composition this) = Ok this' ->
         gasInjComposition this' = Ok composition)
  /\ (forall record vfp_table_nr bhp_def is_producer well_name loc log
             composition this this' log',
         handleWCONINJH record vfp_table_nr bhp_def is_producer well_name loc
           log (setGasInjComposition composition this) = Ok (this', log') ->
         gasInjComposition this' = Ok composition).
Proof.
  split; [| split; [| split]].
  - reflexivity.
  - reflexivity.
  - intros record bhp_def availableForGroupControl well_name location
      composition this this' H.
    apply handleWCONINJE_gas in H.
    unfold gasInjComposition. rewrite H. reflexivity.
  - intros record vfp_table_nr bhp_def is_producer well_name loc log
      composition this this' log' H.
    apply handleWCONINJH_post in H.
    destruct H as (_ & _ & _ & _ & _ & _ & _ & _ & _ & H & _).
    unfold gasInjComposition. rewrite H. reflexivity.
Qed.

(** X8: after a WCONINJH record, [controls()] does not evaluate the BHP
    and THP targets: whatever their evaluation would do, the limits handed
    to the simulator are the historical ones.  Under BHP control the BHP
    limit is the BHP of the record (the earlier historical BHP when the
    record has none); the THP limit is the one the well had before, the THP
    of the record is not used. *)
Theorem history_controls
    (UnitSystem SummaryState : Type)
    (eval_well_uda : UDAValue.t -> string -> SummaryState -> float -> Result float)
    (eval_well_uda_rate :
       UDAValue.t -> string -> SummaryState -> float -> InjectorType.t ->
       UnitSystem -> Result float)
    (record : WCONINJH.Record_) (vfp_table_nr : Z) (bhp_def : float)
    (is_producer : bool) (well_name : string) (loc : KeywordLocation)
    (log log' : OpmLog.t) (this this' : WellInjectionProperties)
    (unit_sys : UnitSystem) (st : SummaryState) (udq_def surface reservoir : float) :
  handleWCONINJH record vfp_table_nr bhp_def is_producer well_name loc log this
  = Ok (this', log') ->
  eval_well_uda_rate (surfaceInjectionRate this') (name this') st udq_def
    (injectorType this') unit_sys = Ok surface ->
  eval_well_uda (reservoirInjectionRate this') (name this') st udq_def
  = Ok reservoir ->
  exists ic,
    controls UnitSystem SummaryState eval_well_uda eval_well_uda_rate
      unit_sys st udq_def this' = Ok ic
    /\ prediction_mode ic = false
    /\ vfp_table_number ic = vfp_table_nr
    /\ (cmode ic = InjectorCMode.RATE \/ cmode ic = InjectorCMode.BHP)
    /\ (cmode ic = InjectorCMode.BHP ->
        bhp_limit ic
        = (if hasValue (WCONINJH.BHP record)
           then getSIDouble (WCONINJH.BHP record) else BHPH this))
    /\ thp_limit ic = thp_hist_limit this
    /\ surface_rate ic = surface
    /\ reservoir_rate ic = reservoir.
Proof.
  intros H Hs Hr.
  apply handleWCONINJH_post in H.
  destruct H as (Hpred & Hvfp & Hmode & _ & _ & HBHPH & Hlimit & _ & _ & _
                 & Hthp & _).
  unfold controls. rewrite Hs, Hr, Hpred. cbn [bind]. cbv beta iota.
  eexists. split; [reflexivity |].
  cbn [prediction_mode vfp_table_number cmode bhp_limit thp_limit surface_rate
       reservoir_rate].
  repeat split; try assumption.
  intros Hbhp. rewrite Hlimit, Hbhp. cbn [InjectorCMode.eqb]. exact HBHPH.
Qed.

(** The record [history_THP] for WINJ1, with literal targets evaluating to
    themselves. *)
Lemma history_controls_witness :
  exists this' log' ic,
    handleWCONINJH history_THP 0 689120000 false "WINJ1"
      (fixture_location "WCONINJH" 460) [] WINJ1 = Ok (this', log')
    /\ controls unit unit
         (fun v _ _ _ => UDAValue.get_double v)
         (fun v _ _ _ _ _ => UDAValue.get_double v) tt tt 0 this' = Ok ic
    /\ prediction_mode ic = false
    /\ thp_limit ic = thp_hist_limit WINJ1.
Proof.
  destruct (handleWCONINJH history_THP 0 689120000 false "WINJ1"
              (fixture_location "WCONINJH" 460) [] WINJ1)
    as [[this' log'] | e] eqn:E.
  - pose proof E as E'. vm_compute in E'. injection E' as Hthis Hlog.
    assert (Hs : UDAValue.get_double (surfaceInjectionRate this') = Ok 1000%float)
      by (rewrite <- Hthis; reflexivity).
    assert (Hr : UDAValue.get_double (reservoirInjectionRate this') = Ok 0%float)
      by (rewrite <- Hthis; reflexivity).
    destruct (history_controls unit unit
                (fun v _ _ _ => UDAValue.get_double v)
                (fun v _ _ _ _ _ => UDAValue.get_double v)
                _ _ _ _ _ _ _ _ _ _ tt tt 0%float _ _ E Hs Hr)
      as (ic & Hc & Hp & _ & _ & _ & Ht & _).
    exists this', log', ic. repeat split; assumption.
  - vm_compute in E. discriminate.
Defined.

(** X23: what [controls()] reports for a well in history mode does not
    depend on the BHP and THP targets.  So WTMULT on BHP or THP and WELTARG
    on THP change nothing [controls()] reports for such a well, while WELTARG
    on BHP with a number sets the historical BHP limit, which is the BHP
    limit [controls()] then reports, and leaves the BHP target alone. *)
Theorem history_mode_hides_targets
    (UnitSystem SummaryState : Type)
    (eval_well_uda : UDAValue.t -> string -> SummaryState -> float -> Result float)
    (eval_well_uda_rate :
       UDAValue.t -> string -> SummaryState -> float -> InjectorType.t ->
       UnitSystem -> Result float)
    (unit_sys : UnitSystem) (st : SummaryState) (udq_def : float)
    (this : WellInjectionProperties) :
  predictionMode this = false ->
  (forall cmode factor this',
      cmode = WELTARGCMode.BHP \/ cmode = WELTARGCMode.THP ->
      handleWTMULT cmode factor this = Ok this' ->
      controls UnitSystem SummaryState eval_well_uda eval_well_uda_rate
        unit_sys st udq_def this'
      = controls UnitSystem SummaryState eval_well_uda eval_well_uda_rate
          unit_sys st udq_def this)
  /\ (forall new_arg SiFactorP this',
         handleWELTARG WELTARGCMode.THP new_arg SiFactorP this = Ok this' ->
         controls UnitSystem SummaryState eval_well_uda eval_well_uda_rate
           unit_sys st udq_def this'
         = controls UnitSystem SummaryState eval_well_uda eval_well_uda_rate
             unit_sys st udq_def this)
  /\ (forall d SiFactorP,
         exists this',
           handleWELTARG WELTARGCMode.BHP (UDAValue.Numeric d) SiFactorP this
           = Ok this'
           /\ BHPTarget this' = BHPTarget this
           /\ forall ic,
               controls UnitSystem SummaryState eval_well_uda eval_well_uda_rate
                 unit_sys st udq_def this' = Ok ic ->
               bhp_limit ic = (d * SiFactorP)%float).
Proof.
  intros Hpred. split; [| split].
  - intros cmode factor this' [-> | ->] H; cbn [handleWTMULT] in H;
      apply bind_Ok_inv in H as (v & _ & H); injection H as <-;
      unfold controls;
      cbn [set_BHPTarget set_THPTarget surfaceInjectionRate
             reservoirInjectionRate name injectorType predictionMode
             bhp_hist_limit thp_hist_limit injectionControls controlMode
             VFPTableNumber rsRvInj];
      rewrite Hpred; reflexivity.
  - intros new_arg SiFactorP this' H. cbn [handleWELTARG] in H.
    injection H as <-. unfold controls.
    cbn [set_THPTarget surfaceInjectionRate
           reservoirInjectionRate name injectorType predictionMode
           bhp_hist_limit thp_hist_limit injectionControls controlMode
           VFPTableNumber rsRvInj].
    rewrite Hpred. reflexivity.
  - intros d SiFactorP. cbn [handleWELTARG]. rewrite Hpred.
    cbn [UDAValue.get_double bind].
    eexists. split; [reflexivity |]. split; [reflexivity |].
    intros ic Hic. unfold controls in Hic.
    cbn [set_bhp_hist_limit surfaceInjectionRate
           reservoirInjectionRate name injectorType predictionMode
           bhp_hist_limit thp_hist_limit injectionControls controlMode
           VFPTableNumber rsRvInj] in Hic.
    rewrite Hpred in Hic.
    apply bind_Ok_inv in Hic as (surface & _ & Hic). cbv beta in Hic.
    apply bind_Ok_inv in Hic as (reservoir & _ & Hic). cbv beta in Hic.
    cbn [bind] in Hic. injection Hic as <-. reflexivity.
Qed.

(** WINJ1 put into history mode and given a BHP of 250 bar by WELTARG,
    with literal targets evaluating to themselves. *)
Lemma history_mode_hides_targets_witness :
  exists this',
    handleWELTARG WELTARGCMode.BHP (UDAValue.Numeric 250) 100000
      (set_predictionMode false WINJ1)
    = Ok this'
    /\ BHPTarget this' = BHPTarget (set_predictionMode false WINJ1)
    /\ forall ic,
        controls unit unit
          (fun v _ _ _ => UDAValue.get_double v)
          (fun v _ _ _ _ _ => UDAValue.get_double v) tt tt 0 this' = Ok ic ->
        bhp_limit ic = (250 * 100000)%float.
Proof.
  exact (proj2 (proj2 (history_mode_hides_targets unit unit
                         (fun v _ _ _ => UDAValue.get_double v)
                         (fun v _ _ _ _ _ => UDAValue.get_double v) tt tt 0
                         (set_predictionMode false WINJ1) eq_refl))
           250%float 100000%float).
Defined.

End TargetUpdateProperties.

(* ================================================================== *)
(** * Properties of the file utilities *)

Section WrapFacts.

Lemma Int32_wrap_small z : - 2 ^ 31 <= z < 2 ^ 31 -> Int32.wrap z = z.
Proof.
  intros H. unfold Int32.wrap.
  rewrite Z.mod_small by lia. lia.
Qed.

Lemma Int32_wrap_mod u : 0 <= u < 2 ^ 32 -> Int32.wrap u mod 2 ^ 32 = u.
Proof.
  intros H. unfold Int32.wrap.
  rewrite Zminus_mod, Z.mod_mod by lia.
  rewrite <- Zminus_mod.
  replace (u + 2 ^ 31 - 2 ^ 31) with u by lia.
  apply Z.mod_small. lia.
Qed.

Lemma Int32_wrap_of_mod z : - 2 ^ 31 <= z < 2 ^ 31 -> Int32.wrap (z mod 2 ^ 32) = z.
Proof.
  intros H. unfold Int32.wrap.
  rewrite Zplus_mod, Z.mod_mod by lia. rewrite <- Zplus_mod.
  rewrite Z.mod_small by lia. lia.
Qed.

Lemma Int64_wrap_small z : - 2 ^ 63 <= z < 2 ^ 63 -> Int64.wrap z = z.
Proof.
  intros H. unfold Int64.wrap.
  rewrite Z.mod_small by lia. lia.
Qed.

Lemma Int64_wrap_mod u : 0 <= u < 2 ^ 64 -> Int64.wrap u mod 2 ^ 64 = u.
Proof.
  intros H. unfold Int64.wrap.
  rewrite Zminus_mod, Z.mod_mod by lia.
  rewrite <- Zminus_mod.
  replace (u + 2 ^ 63 - 2 ^ 63) with u by lia.
  apply Z.mod_small. lia.
Qed.

Lemma Int64_wrap_of_mod z : - 2 ^ 63 <= z < 2 ^ 63 -> Int64.wrap (z mod 2 ^ 64) = z.
Proof.
  intros H. unfold Int64.wrap.
  rewrite Zplus_mod, Z.mod_mod by lia. rewrite <- Zplus_mod.
  rewrite Z.mod_small by lia. lia.
Qed.

Lemma UInt64_wrap_small z : 0 <= z < 2 ^ 64 -> UInt64.wrap z = z.
Proof. intros H. unfold UInt64.wrap. apply Z.mod_small. lia. Qed.

End WrapFacts.

Section ByteOrder.

Import Bytes.

Lemma to_bytes_length n u : length (to_bytes n u) = n.
Proof. revert u. induction n as [| n IH]; intros u; simpl; [| rewrite IH]; reflexivity. Qed.

Lemma to_bytes_range n u : List.Forall byte (to_bytes n u).
Proof.
  revert u. induction n as [| n IH]; intros u; simpl; constructor.
  - unfold byte. apply Z.mod_pos_bound. lia.
  - apply IH.
Qed.

Lemma of_to_bytes n u : of_bytes (to_bytes n u) = u mod 256 ^ Z.of_nat n.
Proof.
  revert u. induction n as [| n IH]; intros u.
  - simpl. rewrite Z.mod_1_r. reflexivity.
  - cbn [to_bytes of_bytes]. rewrite IH.
    rewrite Nat2Z.inj_succ, Z.pow_succ_r by lia.
    rewrite Z.rem_mul_r by lia. reflexivity.
Qed.

Lemma of_bytes_range bs :
  List.Forall byte bs -> 0 <= of_bytes bs < 256 ^ Z.of_nat (length bs).
Proof.
  induction 1 as [| b bs Hb _ IH].
  - simpl. lia.
  - cbn [of_bytes length]. rewrite Nat2Z.inj_succ, Z.pow_succ_r by lia.
    unfold byte in Hb. lia.
Qed.

Lemma to_of_bytes bs :
  List.Forall byte bs -> to_bytes (length bs) (of_bytes bs) = bs.
Proof.
  induction 1 as [| b bs Hb _ IH].
  - reflexivity.
  - cbn [to_bytes of_bytes length]. unfold byte in Hb.
    replace (b + 256 * of_bytes bs) with (b + of_bytes bs * 256) by lia.
    f_equal.
    + rewrite Z.mod_add by lia. apply Z.mod_small. lia.
    + rewrite Z.div_add by lia.
      rewrite Z.div_small by lia. exact IH.
Qed.

Lemma Forall_byte_rev bs : List.Forall byte bs -> List.Forall byte (rev bs).
Proof.
  intros H. apply List.Forall_forall. intros x Hx.
  apply in_rev in Hx. revert x Hx. apply List.Forall_forall. exact H.
Qed.

Lemma bswap_range n u : 0 <= bswap n u < 256 ^ Z.of_nat n.
Proof.
  unfold bswap.
  pose proof (of_bytes_range (rev (to_bytes n u))
                (Forall_byte_rev _ (to_bytes_range n u))) as H.
  rewrite length_rev, to_bytes_length in H. exact H.
Qed.

Lemma bswap_involutive n u :
  0 <= u < 256 ^ Z.of_nat n -> bswap n (bswap n u) = u.
Proof.
  intros Hu. unfold bswap.
  pose proof (to_of_bytes (rev (to_bytes n u))
                (Forall_byte_rev _ (to_bytes_range n u))) as H.
  rewrite length_rev, to_bytes_length in H.
  rewrite H, rev_involutive, of_to_bytes.
  apply Z.mod_small. exact Hu.
Qed.

(** X9: swapping the byte order twice gives the value back, for every
    [int] and every [std::int64_t]; and the swap moves the lowest byte to
    the top, so that the 16 of a record header reads 0x10000000. *)
Theorem flipEndian_involutive :
  (forall num, Int32.in_range num ->
               EclUtil.flipEndianInt (EclUtil.flipEndianInt num) = num)
  /\ (forall num, Int64.in_range num ->
                  EclUtil.flipEndianLongInt (EclUtil.flipEndianLongInt num) = num)
  /\ (forall b, 0 <= b < 128 ->
                EclUtil.flipEndianInt b = b * 2 ^ 24
                /\ EclUtil.flipEndianLongInt b = b * 2 ^ 56).
Proof.
  split; [| split].
  - intros num [Hlo Hhi]. unfold Int32.min_int, Int32.max_int in *.
    unfold EclUtil.flipEndianInt.
    pose proof (bswap_range 4 (num mod 2 ^ 32)) as Hr.
    change (256 ^ Z.of_nat 4) with (2 ^ 32) in Hr.
    rewrite Int32_wrap_mod by exact Hr.
    rewrite bswap_involutive
      by (change (256 ^ Z.of_nat 4) with (2 ^ 32); apply Z.mod_pos_bound; lia).
    apply Int32_wrap_of_mod. lia.
  - intros num [Hlo Hhi]. unfold Int64.min_int, Int64.max_int in *.
    unfold EclUtil.flipEndianLongInt.
    pose proof (bswap_range 8 (num mod 2 ^ 64)) as Hr.
    change (256 ^ Z.of_nat 8) with (2 ^ 64) in Hr.
    rewrite Int64_wrap_mod by exact Hr.
    rewrite bswap_involutive
      by (change (256 ^ Z.of_nat 8) with (2 ^ 64); apply Z.mod_pos_bound; lia).
    apply Int64_wrap_of_mod. lia.
  - intros b Hb. unfold EclUtil.flipEndianInt, EclUtil.flipEndianLongInt, bswap.
    rewrite !Z.mod_small by lia.
    cbn [to_bytes rev app of_bytes].
    rewrite (Z.mod_small b 256) by lia.
    rewrite (Z.div_small b 256) by lia.
    repeat progress change (0 / 256) with 0.
    change (0 mod 256) with 0.
    cbn [app of_bytes].
    split.
    + rewrite Int32_wrap_small by lia. lia.
    + rewrite Int64_wrap_small by lia. lia.
Qed.

End ByteOrder.

Section TextFacts.

Import EclUtil.

Lemma size_app (a b : text) : size (a ++ b) = size a + size b.
Proof. unfold size. rewrite length_app. lia. Qed.

Lemma size_nonneg (a : text) : 0 <= size a.
Proof. unfold size. lia. Qed.

Lemma size_cons c (a : text) : size (c :: a) = 1 + size a.
Proof. unfold size. cbn [length]. lia. Qed.

Lemma size_repeat c k : size (repeat c k) = Z.of_nat k.
Proof. unfold size. rewrite repeat_length. reflexivity. Qed.

Lemma text_eqb_eq (a b : text) : text_eqb a b = true <-> a = b.
Proof.
  revert b. induction a as [| x a IH]; intros [| y b]; cbn [text_eqb];
    try (split; [discriminate | congruence]); [tauto |].
  rewrite andb_true_iff, Ascii.eqb_eq, IH.
  split; [intros [-> ->]; reflexivity | intros [= -> ->]; tauto].
Qed.

Lemma text_eqb_refl (a : text) : text_eqb a a = true.
Proof. apply text_eqb_eq. reflexivity. Qed.

Lemma text_eqb_neq (a b : text) : a <> b -> text_eqb a b = false.
Proof.
  intros H. destruct (text_eqb a b) eqn:E; [| reflexivity].
  apply text_eqb_eq in E. contradiction.
Qed.

(** [find_if] steps over a prefix without a match, stops at a match and
    reports [npos] where there is none. *)
Lemma find_if_skip p (a b : text) i :
  List.Forall (fun c => p c = false) a ->
  find_if p (a ++ b) i = find_if p b (i + size a).
Proof.
  intros H. revert i. induction H as [| c a Hc _ IH]; intros i.
  - cbn [app]. f_equal. unfold size. simpl. lia.
  - cbn [app find_if]. rewrite Hc, IH. f_equal. rewrite size_cons. lia.
Qed.

Lemma find_if_none p (a : text) i :
  List.Forall (fun c => p c = false) a -> find_if p a i = npos.
Proof.
  intros H. rewrite <- (app_nil_r a), find_if_skip by exact H. reflexivity.
Qed.

Lemma find_if_hit p c (b : text) i : p c = true -> find_if p (c :: b) i = i.
Proof. intros H. cbn [find_if]. rewrite H. reflexivity. Qed.

Lemma find_from_app p (pre s : text) :
  find_from p (pre ++ s) (size pre) = find_if p s (size pre).
Proof.
  unfold find_from. rewrite size_app.
  destruct s as [| c s].
  - change (size []) with 0. rewrite Z.add_0_r, Z.ltb_irrefl. reflexivity.
  - rewrite size_cons.
    pose proof (size_nonneg s).
    destruct (Z.ltb_spec (size pre) (size pre + (1 + size s))); [| lia].
    replace (Z.to_nat (size pre)) with (length pre) by (unfold size; lia).
    rewrite skipn_app, skipn_all, Nat.sub_diag, skipn_O. reflexivity.
Qed.

Lemma find_from_beyond p (s : text) pos : size s <= pos -> find_from p s pos = npos.
Proof.
  intros H. unfold find_from.
  destruct (Z.ltb_spec pos (size s)); [lia | reflexivity].
Qed.

Lemma substr_app (pre s rest : text) count :
  count = size s \/ (rest = [] /\ size s <= count) ->
  substr (size pre) count (pre ++ s ++ rest) = Return s.
Proof.
  intros H. unfold substr. rewrite !size_app.
  pose proof (size_nonneg s). pose proof (size_nonneg rest).
  destruct (Z.ltb_spec (size pre + (size s + size rest)) (size pre)); [lia |].
  f_equal.
  replace (Z.to_nat (size pre)) with (length pre) by (unfold size; lia).
  rewrite skipn_app, skipn_all, Nat.sub_diag, skipn_O. cbn [app].
  replace (Z.to_nat (Z.min _ _)) with (length s)
    by (destruct H as [-> | [-> Hc]]; unfold size in *; cbn [length] in *; lia).
  rewrite firstn_app, firstn_all, Nat.sub_diag. cbn [firstn].
  apply app_nil_r.
Qed.

Lemma all_blank (b : text) :
  List.Forall (fun c => negb (Ascii.eqb c blank) = false) b ->
  b = repeat blank (length b).
Proof.
  induction 1 as [| c b Hc _ IH]; [reflexivity |].
  cbn [length repeat]. rewrite <- IH.
  apply negb_false_iff, Ascii.eqb_eq in Hc. rewrite Hc. reflexivity.
Qed.

Lemma repeat_all_blank k :
  List.Forall (fun c => negb (Ascii.eqb c blank) = false) (repeat blank k).
Proof.
  induction k as [| k IH]; cbn [repeat]; constructor; [reflexivity | exact IH].
Qed.

(** The last match splits the text: a match at distance [size a], and
    none after it. *)
Lemma find_last_if_spec p (s : text) i :
  match find_last_if p s i with
  | Some j =>
      exists a c b, s = a ++ c :: b /\ j = i + size a /\ p c = true
                    /\ List.Forall (fun c => p c = false) b
  | None => List.Forall (fun c => p c = false) s
  end.
Proof.
  revert i. induction s as [| c s IH]; intros i; cbn [find_last_if].
  - constructor.
  - specialize (IH (i + 1)).
    destruct (find_last_if p s (i + 1)) as [j |].
    + destruct IH as (a & c' & b & -> & -> & Hc & Hb).
      exists (c :: a), c', b. rewrite size_cons.
      repeat split; [lia | exact Hc | exact Hb].
    + destruct (p c) eqn:Hc.
      * exists [], c, s. change (size []) with 0.
        repeat split; [lia | exact Hc | exact IH].
      * constructor; assumption.
Qed.

End TextFacts.

Section TrailingBlanks.

Import EclUtil.

Lemma substr_prefix (s rest : text) :
  substr 0 (size s) (s ++ rest) = Return s.
Proof.
  unfold substr. rewrite size_app.
  pose proof (size_nonneg s). pose proof (size_nonneg rest).
  destruct (Z.ltb_spec (size s + size rest) 0); [lia |].
  f_equal. change (Z.to_nat 0) with 0%nat. rewrite skipn_O.
  replace (Z.to_nat (Z.min _ _)) with (length s) by (unfold size in *; lia).
  rewrite firstn_app, firstn_all, Nat.sub_diag. cbn [firstn].
  apply app_nil_r.
Qed.

Lemma trimr_spec (str1 : text) :
  size str1 < 2 ^ 31 ->
  exists r k,
    trimr str1 = Return r
    /\ str1 = r ++ repeat blank k
    /\ (forall r', r <> r' ++ [blank]).
Proof.
  intros Hsize. unfold trimr.
  destruct (text_eqb str1 (chars "        ")) eqn:E.
  - apply text_eqb_eq in E. subst str1.
    exists [], 8%nat. repeat split.
    intros [| ? ?]; discriminate.
  - clear E. unfold find_last_not_of.
    pose proof (find_last_if_spec (fun x => negb (Ascii.eqb x blank)) str1 0) as H.
    destruct (find_last_if _ str1 0) as [j |].
    + destruct H as (a & c & b & -> & -> & Hc & Hb).
      rewrite size_app, size_cons in Hsize.
      pose proof (size_nonneg a). pose proof (size_nonneg b).
      rewrite Int32_wrap_small by lia.
      unfold Int32.add. rewrite Int32_wrap_small by lia.
      rewrite UInt64_wrap_small by lia.
      exists (a ++ [c]), (length b). split; [| split].
      * replace (0 + size a + 1) with (size (a ++ [c]))
          by (rewrite size_app, size_cons; change (size []) with 0; lia).
        replace (a ++ c :: b) with ((a ++ [c]) ++ b)
          by (rewrite <- app_assoc; reflexivity).
        apply substr_prefix.
      * rewrite <- app_assoc. cbn [app]. f_equal. f_equal.
        apply all_blank. exact Hb.
      * intros r' Heq. apply app_inj_tail in Heq as [_ ->].
        discriminate.
    + change (Int32.wrap npos) with (-1).
      change (UInt64.wrap (Int32.add (-1) 1)) with 0.
      exists [], (length str1). split; [| split].
      * change 0 with (size []) at 2. apply (substr_prefix [] str1).
      * cbn [app]. apply all_blank. exact H.
      * intros [| ? ?]; discriminate.
Qed.

(** X10: [trimr] removes the trailing blanks and nothing else: the text
    is the result followed by blanks only, and the result does not end in a
    blank.  Trimming a second time changes nothing. *)
Theorem trimr_strips_trailing_blanks (str1 : text) :
  size str1 < 2 ^ 31 ->
  exists r k,
    trimr str1 = Return r
    /\ str1 = r ++ repeat blank k
    /\ (forall r', r <> r' ++ [blank])
    /\ trimr r = Return r.
Proof.
  intros Hsize.
  destruct (trimr_spec str1 Hsize) as (r & k & Htrim & Hstr & Hlast).
  exists r, k. repeat split; try assumption.
  assert (Hr : size r < 2 ^ 31).
  { rewrite Hstr, size_app in Hsize. pose proof (size_nonneg (repeat blank k)). lia. }
  destruct (trimr_spec r Hr) as (r2 & k2 & Htrim2 & Hstr2 & _).
  rewrite Htrim2. f_equal.
  destruct k2 as [| k2].
  - cbn [repeat] in Hstr2. rewrite app_nil_r in Hstr2. congruence.
  - exfalso. apply (Hlast (r2 ++ repeat blank k2)).
    rewrite Hstr2 at 1. rewrite <- app_assoc. f_equal.
    rewrite <- repeat_cons. reflexivity.
Qed.

Lemma trimr_strips_trailing_blanks_witness :
  exists r k,
    trimr (chars "FOPR    ") = Return r
    /\ chars "FOPR    " = r ++ repeat blank k
    /\ (forall r', r <> r' ++ [blank])
    /\ trimr r = Return r.
Proof.
  apply (trimr_strips_trailing_blanks (chars "FOPR    ")).
  reflexivity.
Defined.

End TrailingBlanks.

Section FormattedArrays.

Import EclUtil.

Context {T : Type} (process : text -> Outcome T).

Lemma token_find_not_blank (t rest : text) i :
  token t -> find_if (fun x => negb (Ascii.eqb x blank)) (t ++ rest) i = i.
Proof.
  intros [Hne Hnb]. destruct t as [| c t]; [contradiction |].
  cbn [app]. apply find_if_hit.
  apply negb_true_iff, Ascii.eqb_neq. intros ->. apply Hnb. left. reflexivity.
Qed.

Lemma token_no_blank (t : text) :
  token t -> List.Forall (fun c => Ascii.eqb c blank = false) t.
Proof.
  intros [_ Hnb]. apply List.Forall_forall. intros c Hc.
  apply Ascii.eqb_neq. intros ->. contradiction.
Qed.

Lemma npos_signed : Int64.wrap npos = -1.
Proof. reflexivity. Qed.

Lemma minus_one_unsigned : UInt64.wrap (-1) = npos.
Proof. reflexivity. Qed.

(** One turn of the loop at the blanks before a token. *)
Lemma readFormattedArray_step (pre : text) k (t rest : text) n arr :
  token t ->
  (rest = [] \/ exists r, rest = blank :: r) ->
  size (pre ++ repeat blank k ++ t ++ rest) < 2 ^ 63 ->
  readFormattedArray_loop process (pre ++ repeat blank k ++ t ++ rest)
    (S n) (size pre) arr
  = attempt element <- process t;
    readFormattedArray_loop process (pre ++ repeat blank k ++ t ++ rest) n
      (Int64.wrap
         (find_if (fun x => negb (Ascii.eqb x blank)) rest
            (size pre + Z.of_nat k + size t)))
      (arr ++ [element]).
Proof.
  intros Ht Hrest Hsize.
  set (file_str := pre ++ repeat blank k ++ t ++ rest) in *.
  assert (Hbound : size pre + Z.of_nat k + size t + size rest < 2 ^ 63).
  { subst file_str. rewrite !size_app, size_repeat in Hsize. lia. }
  pose proof (size_nonneg pre) as Hn1. pose proof (size_nonneg t) as Hn2.
  pose proof (size_nonneg rest) as Hn3.
  cbn [readFormattedArray_loop].
  (* the first character that is not a blank *)
  assert (H1 : Int64.wrap (find_first_not_of blank (UInt64.wrap (size pre)) file_str)
               = size pre + Z.of_nat k).
  { rewrite UInt64_wrap_small by lia.
    unfold find_first_not_of. subst file_str.
    rewrite find_from_app, find_if_skip by apply repeat_all_blank.
    rewrite size_repeat, token_find_not_blank by exact Ht.
    apply Int64_wrap_small. lia. }
  rewrite H1.
  (* the blank that ends the token *)
  assert (Hfile : file_str = (pre ++ repeat blank k) ++ t ++ rest).
  { subst file_str. rewrite <- app_assoc. reflexivity. }
  assert (Hpre : size (pre ++ repeat blank k) = size pre + Z.of_nat k).
  { rewrite size_app, size_repeat. reflexivity. }
  assert (H2 : find_first_of blank (UInt64.wrap (size pre + Z.of_nat k)) file_str
               = find_if (fun x => Ascii.eqb x blank) rest
                   (size pre + Z.of_nat k + size t)).
  { rewrite UInt64_wrap_small by lia.
    unfold find_first_of. rewrite Hfile, <- Hpre, find_from_app.
    apply find_if_skip, token_no_blank, Ht. }
  rewrite H2.
  assert (H3 : substr (UInt64.wrap (size pre + Z.of_nat k))
                 (UInt64.wrap
                    (Int64.wrap
                       (Int64.wrap
                          (find_if (fun x => Ascii.eqb x blank) rest
                             (size pre + Z.of_nat k + size t))
                        - (size pre + Z.of_nat k))))
                 file_str
               = Return t).
  { rewrite (UInt64_wrap_small (size pre + Z.of_nat k)) by lia.
    rewrite Hfile, <- Hpre. apply substr_app.
    destruct Hrest as [-> | [r ->]].
    - right. split; [reflexivity |].
      cbn [find_if]. rewrite npos_signed.
      rewrite Int64_wrap_small by lia.
      unfold UInt64.wrap. rewrite Hpre.
      replace (-1 - (size pre + Z.of_nat k))
        with (2 ^ 64 - 1 - (size pre + Z.of_nat k) + (-1) * 2 ^ 64) by lia.
      rewrite Z.mod_add by lia. rewrite Z.mod_small by lia. lia.
    - left. rewrite find_if_hit by reflexivity.
      rewrite Hpre.
      rewrite (Int64_wrap_small (size pre + Z.of_nat k + size t)) by lia.
      rewrite Int64_wrap_small by lia.
      rewrite UInt64_wrap_small by lia. lia. }
  rewrite H3. cbn [and_then].
  destruct (process t) as [element | e]; cbn [and_then]; [| reflexivity].
  f_equal.
  (* the start of the next token *)
  unfold find_first_not_of.
  destruct Hrest as [-> | [r ->]].
  - cbn [find_if]. rewrite npos_signed, minus_one_unsigned.
    rewrite find_from_beyond; [reflexivity |].
    unfold npos. lia.
  - rewrite find_if_hit by reflexivity.
    rewrite (Int64_wrap_small (size pre + Z.of_nat k + size t)) by lia.
    rewrite UInt64_wrap_small by lia.
    replace file_str with ((pre ++ repeat blank k ++ t) ++ blank :: r)
      by (subst file_str; rewrite <- !app_assoc; reflexivity).
    replace (size pre + Z.of_nat k + size t)
      with (size (pre ++ repeat blank k ++ t))
      by (rewrite !size_app, size_repeat; lia).
    rewrite find_from_app. reflexivity.
Qed.

(** Where nothing but blanks is left, the next turn fails in [substr]. *)
Lemma readFormattedArray_exhausted (file_str : text) n arr :
  size file_str < 2 ^ 63 ->
  readFormattedArray_loop process file_str (S n) (-1) arr = Raise out_of_range.
Proof.
  intros Hsize. pose proof (size_nonneg file_str).
  cbn [readFormattedArray_loop].
  rewrite minus_one_unsigned.
  unfold find_first_not_of, find_first_of.
  rewrite find_from_beyond by (unfold npos; lia).
  rewrite npos_signed, minus_one_unsigned.
  rewrite find_from_beyond by (unfold npos; lia).
  unfold substr.
  destruct (Z.ltb_spec (size file_str) npos); [reflexivity |].
  unfold npos in *. lia.
Qed.

Lemma readFormattedArray_blanks_only (pre : text) j n arr :
  size (pre ++ repeat blank j) < 2 ^ 63 ->
  readFormattedArray_loop process (pre ++ repeat blank j) (S n) (size pre) arr
  = Raise out_of_range.
Proof.
  intros Hsize.
  pose proof (size_nonneg pre). pose proof (size_nonneg (pre ++ repeat blank j)).
  assert (size pre < 2 ^ 63) by (rewrite size_app, size_repeat in Hsize; lia).
  cbn [readFormattedArray_loop].
  rewrite (UInt64_wrap_small (size pre)) by lia.
  unfold find_first_not_of, find_first_of.
  rewrite find_from_app, find_if_none by apply repeat_all_blank.
  rewrite npos_signed, minus_one_unsigned.
  rewrite find_from_beyond by (unfold npos; lia).
  unfold substr.
  destruct (Z.ltb_spec (size (pre ++ repeat blank j)) npos); [reflexivity |].
  unfold npos in *. lia.
Qed.

Lemma and_then_assoc {A B C : Type} (r : Outcome A) (f : A -> Outcome B)
    (g : B -> Outcome C) :
  and_then (and_then r f) g = and_then r (fun a => and_then (f a) g).
Proof. destruct r; reflexivity. Qed.

Lemma and_then_ext {A B : Type} (r : Outcome A) (f g : A -> Outcome B) :
  (forall a, f a = g a) -> and_then r f = and_then r g.
Proof. intros H. destruct r; cbn [and_then]; [apply H | reflexivity]. Qed.

(** All turns over a run of fields, then [n] more from where the last
    token ended. *)
Lemma readFormattedArray_fields (fs : list (nat * text)) :
  forall (pre : text) k (t post : text) n arr,
    token t ->
    List.Forall (fun f => (1 <= fst f)%nat /\ token (snd f)) fs ->
    (post = [] \/ exists r, post = blank :: r) ->
    size (pre ++ repeat blank k ++ t ++ fields fs ++ post) < 2 ^ 63 ->
    readFormattedArray_loop process
      (pre ++ repeat blank k ++ t ++ fields fs ++ post)
      (S (length fs + n)) (size pre) arr
    = attempt arr' <- process_all process (t :: map snd fs) arr;
      readFormattedArray_loop process
        (pre ++ repeat blank k ++ t ++ fields fs ++ post) n
        (Int64.wrap
           (find_if (fun x => negb (Ascii.eqb x blank)) post
              (size pre + Z.of_nat k + size t + size (fields fs))))
        arr'.
Proof.
  induction fs as [| [k' t'] fs IH]; intros pre k t post n arr Ht Hfs Hpost Hsize.
  - cbn [fields flat_map app length Nat.add map process_all] in *.
    change (size []) with 0. rewrite Z.add_0_r.
    rewrite readFormattedArray_step by assumption.
    rewrite and_then_assoc. reflexivity.
  - apply List.Forall_cons_iff in Hfs as [[Hk' Ht'] Hfs].
    cbn [fst snd] in Hk', Ht'.
    cbn [fields flat_map length map] in *. fold (fields fs) in *.
    unfold field in *. cbn [fst snd] in *.
    rewrite <- !app_assoc in *.
    cbn [process_all]. rewrite and_then_assoc.
    rewrite (readFormattedArray_step pre k t
               (repeat blank k' ++ t' ++ fields fs ++ post));
      [ | exact Ht
        | right; destruct k' as [| k']; [lia | cbn [repeat app]; eexists; reflexivity]
        | exact Hsize ].
    apply and_then_ext. intros element.
    rewrite find_if_skip by apply repeat_all_blank.
    rewrite token_find_not_blank by exact Ht'.
    rewrite size_repeat.
    assert (Hlen : size pre + Z.of_nat k + size t + Z.of_nat k'
                   = size (pre ++ repeat blank k ++ t ++ repeat blank k')).
    { rewrite !size_app, !size_repeat. lia. }
    assert (Hfile : pre ++ repeat blank k ++ t ++ repeat blank k' ++ t'
                      ++ fields fs ++ post
                    = (pre ++ repeat blank k ++ t ++ repeat blank k')
                        ++ repeat blank 0 ++ t' ++ fields fs ++ post).
    { cbn [repeat app]. rewrite <- !app_assoc. reflexivity. }
    assert (Hsmall : size (pre ++ repeat blank k ++ t ++ repeat blank k') < 2 ^ 63).
    { rewrite Hfile in Hsize. rewrite size_app in Hsize.
      pose proof (size_nonneg (repeat blank 0 ++ t' ++ fields fs ++ post)). lia. }
    rewrite Hlen, Int64_wrap_small
      by (pose proof (size_nonneg (pre ++ repeat blank k ++ t ++ repeat blank k')); lia).
    rewrite Hfile.
    rewrite (IH _ 0%nat t' post n (arr ++ [element]) Ht' Hfs Hpost)
      by (rewrite <- Hfile; exact Hsize).
    cbn [process_all].
    apply and_then_ext. intros arr'.
    do 2 f_equal. f_equal.
    rewrite !size_app, !size_repeat. lia.
Qed.

Lemma process_all_return (values : list text) (arr : list text) :
  process_all (fun val => Return val) values arr = Return (arr ++ values).
Proof.
  revert arr. induction values as [| v values IH]; intros arr; cbn [process_all and_then].
  - rewrite app_nil_r. reflexivity.
  - rewrite IH, <- app_assoc. reflexivity.
Qed.

Lemma separated_cons k t fs :
  separated ((k, t) :: fs) ->
  token t /\ List.Forall (fun f => (1 <= fst f)%nat /\ token (snd f)) fs.
Proof.
  intros [Htok Hsep]. cbn [tl] in Hsep.
  apply List.Forall_cons_iff in Htok as [Ht Htok]. split; [exact Ht |].
  apply List.Forall_forall. intros f Hf. split.
  - revert f Hf. apply List.Forall_forall. exact Hsep.
  - revert f Hf. apply List.Forall_forall. exact Htok.
Qed.

Lemma readFormattedArray_all (pre : text) fs (post : text) :
  separated fs ->
  (post = [] \/ exists r, post = blank :: r) ->
  size (pre ++ fields fs ++ post) < 2 ^ 63 ->
  readFormattedArray (pre ++ fields fs ++ post) (Z.of_nat (length fs))
    (size pre) process
  = process_all process (map snd fs) [].
Proof.
  intros Hsep Hpost Hsize. unfold readFormattedArray. rewrite Nat2Z.id.
  destruct fs as [| [k t] fs]; [reflexivity |].
  apply separated_cons in Hsep as [Ht Hfs].
  cbn [fields flat_map length map] in *. fold (fields fs) in *.
  unfold field in *. cbn [fst snd] in *. rewrite <- !app_assoc in *.
  rewrite <- (Nat.add_0_r (length fs)).
  rewrite readFormattedArray_fields by assumption.
  cbn [readFormattedArray_loop].
  destruct (process_all process (t :: map snd fs) []); reflexivity.
Qed.

Lemma readFormattedArray_beyond (pre : text) fs j (n : nat) (elements : list T) :
  separated fs ->
  size (pre ++ fields fs ++ repeat blank j) < 2 ^ 63 ->
  process_all process (map snd fs) [] = Return elements ->
  (length fs < n)%nat ->
  readFormattedArray_loop process (pre ++ fields fs ++ repeat blank j) n
    (size pre) []
  = Raise out_of_range.
Proof.
  intros Hsep Hsize Hall Hn.
  destruct fs as [| [k t] fs].
  - cbn [fields flat_map app] in *.
    destruct n as [| n]; [cbn [length] in Hn; lia |].
    apply readFormattedArray_blanks_only. exact Hsize.
  - apply separated_cons in Hsep as [Ht Hfs].
    cbn [fields flat_map length map] in *. fold (fields fs) in *.
    unfold field in *. cbn [fst snd] in *. rewrite <- !app_assoc in *.
    replace n with (S (length fs + S (n - length fs - 2))) by lia.
    rewrite readFormattedArray_fields;
      [ | exact Ht | exact Hfs
        | destruct j as [| j]; [left; reflexivity | right; eexists; reflexivity]
        | exact Hsize ].
    rewrite Hall. cbn [and_then].
    rewrite find_if_none by apply repeat_all_blank.
    rewrite npos_signed.
    apply readFormattedArray_exhausted. exact Hsize.
Qed.

End FormattedArrays.

Section FormattedArrayProperties.

Import EclUtil.

(** X11: [readFormattedArray] reads tokens.  On a text that, from
    [fromPos] on, holds tokens separated by blanks and then ends or goes on
    with a blank, asking for as many elements as there are tokens applies
    [process] to each token in turn, and the result is that of the first
    failure or the list of all results; [readFormattedRealRawStrings]
    returns the tokens themselves. *)
Theorem readFormattedArray_reads_tokens
    (T : Type) (process : text -> Outcome T) (pre : text)
    (fs : list (nat * text)) (post : text) :
  separated fs ->
  (post = [] \/ exists r, post = blank :: r) ->
  size (pre ++ fields fs ++ post) < 2 ^ 63 ->
  readFormattedArray (pre ++ fields fs ++ post) (Z.of_nat (length fs))
    (size pre) process
  = process_all process (map snd fs) []
  /\ (Z.of_nat (length fs) <= Int32.max_int ->
      readFormattedRealRawStrings (pre ++ fields fs ++ post)
        (Z.of_nat (length fs)) (size pre)
      = Return (map snd fs)).
Proof.
  intros Hsep Hpost Hsize. split.
  - apply readFormattedArray_all; assumption.
  - intros Hlen. unfold readFormattedRealRawStrings.
    rewrite Int32_wrap_small by (unfold Int32.max_int in Hlen; lia).
    rewrite readFormattedArray_all by assumption.
    apply process_all_return.
Qed.

Lemma readFormattedArray_reads_tokens_witness :
  readFormattedArray (chars "           1          22" ++ chars " 'REAL'")
    2 0 logi_value
  = process_all logi_value [chars "1"; chars "22"] []
  /\ (2 <= Int32.max_int ->
      readFormattedRealRawStrings
        (chars "           1          22" ++ chars " 'REAL'") 2 0
      = Return [chars "1"; chars "22"]).
Proof.
  apply (readFormattedArray_reads_tokens bool logi_value []
           [(11%nat, chars "1"); (10%nat, chars "22")] (chars " 'REAL'")).
  - split; repeat constructor; try discriminate;
      cbn; intros H; repeat destruct H as [H | H]; try discriminate H; exact H.
  - right. eexists. reflexivity.
  - reflexivity.
Defined.

(** X12: asking [readFormattedArray] for more elements than the text
    holds throws [std::out_of_range]: once the tokens are used up, with
    nothing but blanks left, the next turn calls [substr] at [npos]. *)
Theorem readFormattedArray_past_the_end
    (T : Type) (process : text -> Outcome T) (pre : text)
    (fs : list (nat * text)) (j : nat) (size_ : Z) (elements : list T) :
  separated fs ->
  size (pre ++ fields fs ++ repeat blank j) < 2 ^ 63 ->
  process_all process (map snd fs) [] = Return elements ->
  Z.of_nat (length fs) < size_ ->
  readFormattedArray (pre ++ fields fs ++ repeat blank j) size_ (size pre)
    process
  = Raise out_of_range.
Proof.
  intros Hsep Hsize Hall Hn. unfold readFormattedArray.
  apply (readFormattedArray_beyond process pre fs j (Z.to_nat size_) elements);
    try assumption.
  lia.
Qed.

Lemma readFormattedArray_past_the_end_witness :
  readFormattedArray (chars "           T           F  ") 3 0 logi_value
  = Raise out_of_range.
Proof.
  apply (readFormattedArray_past_the_end bool logi_value []
           [(11%nat, chars "T"); (11%nat, chars "F")] 2 3 [true; false]).
  - split; repeat constructor; try discriminate;
      cbn; intros H; repeat destruct H as [H | H]; try discriminate H; exact H.
  - reflexivity.
  - reflexivity.
  - reflexivity.
Defined.

Lemma logi_value_starts (val : text) :
  logi_value val
  = if starts_with "T" val then Return true
    else if starts_with "F" val then Return false
    else Raise (invalid_argument
                  ("Could not convert '" +:+ string_of_list_ascii val
                   +:+ "' to a bool value ")).
Proof. destruct val as [| c val]; reflexivity. Qed.

Lemma process_all_logi (good : list text) :
  forall (rest : list text) (arr : list bool),
    List.Forall (fun val => starts_with "T" val || starts_with "F" val = true) good ->
    process_all logi_value (good ++ rest) arr
    = process_all logi_value rest (arr ++ map (starts_with "T") good).
Proof.
  induction good as [| val good IH]; intros rest arr Hgood.
  - cbn [app map]. rewrite app_nil_r. reflexivity.
  - apply List.Forall_cons_iff in Hgood as [Hval Hgood].
    cbn [app process_all map]. rewrite logi_value_starts.
    destruct (starts_with "T" val) eqn:ET.
    + cbn [and_then]. rewrite IH by exact Hgood.
      rewrite <- app_assoc. reflexivity.
    + cbn [orb] in Hval. rewrite Hval. cbn [and_then].
      rewrite IH by exact Hgood. rewrite <- app_assoc. reflexivity.
Qed.

(** X24: [readFormattedLogiArray] looks at the first character of each
    token only.  When every token begins with T or F the result holds
    [true] for the former and [false] for the latter; otherwise the first
    token that begins with another character is reported in a
    [std::invalid_argument], whatever follows it. *)
Theorem readFormattedLogiArray_first_character
    (pre : text) (fs : list (nat * text)) (post : text) :
  separated fs ->
  (post = [] \/ exists r, post = blank :: r) ->
  size (pre ++ fields fs ++ post) < 2 ^ 63 ->
  Z.of_nat (length fs) <= Int32.max_int ->
  (List.Forall (fun val => starts_with "T" val || starts_with "F" val = true)
     (map snd fs) ->
   readFormattedLogiArray (pre ++ fields fs ++ post) (Z.of_nat (length fs))
     (size pre)
   = Return (map (starts_with "T") (map snd fs)))
  /\ (forall good bad rest,
         map snd fs = good ++ bad :: rest ->
         List.Forall (fun val => starts_with "T" val || starts_with "F" val = true)
           good ->
         starts_with "T" bad || starts_with "F" bad = false ->
         readFormattedLogiArray (pre ++ fields fs ++ post)
           (Z.of_nat (length fs)) (size pre)
         = Raise (invalid_argument
                    ("Could not convert '" +:+ string_of_list_ascii bad
                     +:+ "' to a bool value "))).
Proof.
  intros Hsep Hpost Hsize Hlen.
  assert (Hread : readFormattedLogiArray (pre ++ fields fs ++ post)
                    (Z.of_nat (length fs)) (size pre)
                  = process_all logi_value (map snd fs) []).
  { unfold readFormattedLogiArray.
    rewrite Int32_wrap_small by (unfold Int32.max_int in Hlen; lia).
    apply readFormattedArray_all; assumption. }
  rewrite Hread. split.
  - intros Hgood.
    rewrite <- (app_nil_r (map snd fs)) at 1.
    rewrite process_all_logi by exact Hgood. reflexivity.
  - intros good bad rest -> Hgood Hbad.
    rewrite process_all_logi by exact Hgood.
    cbn [process_all]. rewrite logi_value_starts.
    apply orb_false_iff in Hbad as [-> ->]. reflexivity.
Qed.

Lemma readFormattedLogiArray_first_character_witness :
  readFormattedLogiArray (chars "  T  FALSE") 2 0 = Return [true; false].
Proof.
  apply (proj1 (readFormattedLogiArray_first_character []
                  [(2%nat, chars "T"); (2%nat, chars "FALSE")] []
                  ltac:(split; repeat constructor; try discriminate;
                        cbn; intros H; repeat destruct H as [H | H];
                        try discriminate H; exact H)
                  ltac:(left; reflexivity)
                  ltac:(reflexivity)
                  ltac:(unfold Int32.max_int; cbn; lia))).
  repeat constructor.
Defined.

End FormattedArrayProperties.

Section CharArrays.

Import EclUtil.

Lemma char_element_trimr (value : text) : char_element value = trimr value.
Proof.
  unfold char_element, trimr.
  destruct (text_eqb value (chars "        ")); reflexivity.
Qed.

Lemma no_quote (a : text) :
  ~ In quote a -> List.Forall (fun c => Ascii.eqb c quote = false) a.
Proof.
  intros H. apply List.Forall_forall. intros c Hc.
  apply Ascii.eqb_neq. intros ->. contradiction.
Qed.

Lemma readFormattedCharArray_step (pre sep value rest : text) elementSize n arr :
  ~ In quote sep ->
  size value = elementSize ->
  size (pre ++ sep ++ quote :: value ++ quote :: rest) < 2 ^ 63 ->
  readFormattedCharArray_loop (pre ++ sep ++ quote :: value ++ quote :: rest)
    elementSize (S n) (size pre) arr
  = attempt element <- trimr value;
    readFormattedCharArray_loop (pre ++ sep ++ quote :: value ++ quote :: rest)
      elementSize n (size (pre ++ sep ++ quote :: value ++ [quote]))
      (arr ++ [element]).
Proof.
  intros Hsep Hvalue Hsize.
  set (file_str := pre ++ sep ++ quote :: value ++ quote :: rest) in *.
  assert (Hbound : size pre + size sep + size value + size rest + 2 < 2 ^ 63).
  { subst file_str.
    rewrite !size_app, size_cons, size_app, size_cons in Hsize. lia. }
  pose proof (size_nonneg pre) as Hn1. pose proof (size_nonneg sep) as Hn2.
  pose proof (size_nonneg value) as Hn3. pose proof (size_nonneg rest) as Hn4.
  cbn [readFormattedCharArray_loop].
  assert (H1 : Int64.wrap (find_first_of quote (UInt64.wrap (size pre)) file_str)
               = size pre + size sep).
  { rewrite UInt64_wrap_small by lia.
    unfold find_first_of. subst file_str.
    rewrite find_from_app, find_if_skip by (apply no_quote; exact Hsep).
    rewrite find_if_hit by reflexivity.
    apply Int64_wrap_small. lia. }
  rewrite H1.
  assert (H2 : substr (UInt64.wrap (Int64.wrap (size pre + size sep + 1)))
                 (UInt64.wrap elementSize) file_str
               = Return value).
  { rewrite Int64_wrap_small by lia.
    rewrite !UInt64_wrap_small by lia.
    replace file_str with ((pre ++ sep ++ [quote]) ++ value ++ quote :: rest)
      by (subst file_str; rewrite <- !app_assoc; reflexivity).
    replace (size pre + size sep + 1) with (size (pre ++ sep ++ [quote]))
      by (rewrite !size_app, size_cons; change (size []) with 0; lia).
    apply substr_app. left. symmetry. exact Hvalue. }
  rewrite H2. cbn [and_then]. rewrite char_element_trimr.
  apply and_then_ext. intros element.
  f_equal.
  rewrite !size_app, size_cons, size_app, size_cons. change (size []) with 0.
  rewrite Int64_wrap_small by lia. lia.
Qed.

Lemma readFormattedCharArray_elements (es : list (text * text)) :
  forall (pre post : text) elementSize n arr,
    List.Forall (fun e => ~ In quote (fst e) /\ size (snd e) = elementSize) es ->
    size (pre ++ flat_map quoted es ++ post) < 2 ^ 63 ->
    readFormattedCharArray_loop (pre ++ flat_map quoted es ++ post) elementSize
      (length es + n) (size pre) arr
    = attempt arr' <- process_all trimr (map snd es) arr;
      readFormattedCharArray_loop (pre ++ flat_map quoted es ++ post)
        elementSize n (size (pre ++ flat_map quoted es)) arr'.
Proof.
  induction es as [| [sep value] es IH]; intros pre post elementSize n arr Hes Hsize.
  - cbn [flat_map app length Nat.add map process_all and_then].
    rewrite app_nil_r. reflexivity.
  - apply List.Forall_cons_iff in Hes as [[Hsep Hvalue] Hes].
    cbn [fst snd] in Hsep, Hvalue.
    cbn [flat_map length map Nat.add process_all] in *.
    change (quoted (sep, value)) with (sep ++ quote :: value ++ [quote]) in *.
    rewrite <- !app_assoc in *. cbn [app] in *. rewrite <- !app_assoc in *.
    cbn [app] in *.
    rewrite readFormattedCharArray_step by assumption.
    rewrite and_then_assoc.
    apply and_then_ext. intros element.
    assert (Hfile2 : pre ++ sep ++ quote :: value ++ quote :: flat_map quoted es ++ post
                     = (pre ++ sep ++ quote :: value ++ [quote])
                         ++ flat_map quoted es ++ post).
    { rewrite <- !app_assoc. cbn [app]. rewrite <- !app_assoc. reflexivity. }
    rewrite Hfile2.
    rewrite IH by (try exact Hes; rewrite <- Hfile2; exact Hsize).
    apply and_then_ext. intros arr'.
    do 2 f_equal.
    rewrite <- !app_assoc. cbn [app]. rewrite <- !app_assoc. reflexivity.
Qed.

Lemma find_from_none p (s : text) pos :
  0 <= pos ->
  List.Forall (fun c => p c = false) (skipn (Z.to_nat pos) s) ->
  find_from p s pos = npos.
Proof.
  intros Hpos H. unfold find_from.
  destruct (pos <? size s); [| reflexivity].
  apply find_if_none. exact H.
Qed.

End CharArrays.

Section CharArrayProperties.

Import EclUtil.

(** X13: [readFormattedCharArray] reads quoted elements by position.  On
    a text that, from [fromPos] on, holds elements of [elementSize]
    characters between quotes, each after characters that are not quotes,
    asking for as many elements as there are returns them with their
    trailing blanks removed; quotes and blanks inside an element are kept. *)
Theorem readFormattedCharArray_reads_elements
    (pre : text) (es : list (text * text)) (post : text) (elementSize : Z) :
  List.Forall (fun e => ~ In quote (fst e) /\ size (snd e) = elementSize) es ->
  size (pre ++ flat_map quoted es ++ post) < 2 ^ 63 ->
  readFormattedCharArray (pre ++ flat_map quoted es ++ post)
    (Z.of_nat (length es)) (size pre) elementSize
  = process_all trimr (map snd es) [].
Proof.
  intros Hes Hsize. unfold readFormattedCharArray. rewrite Nat2Z.id.
  rewrite <- (Nat.add_0_r (length es)).
  rewrite readFormattedCharArray_elements by assumption.
  cbn [readFormattedCharArray_loop].
  destruct (process_all trimr (map snd es) []); reflexivity.
Qed.

Lemma readFormattedCharArray_reads_elements_witness :
  readFormattedCharArray (chars " 'FOPR    ' 'W'1     '") 2 0 8
  = process_all trimr [chars "FOPR    "; chars "W'1     "] [].
Proof.
  apply (readFormattedCharArray_reads_elements []
           [(chars " ", chars "FOPR    "); (chars " ", chars "W'1     ")] [] 8).
  - repeat constructor; cbn; intros H; repeat destruct H as [H | H];
      try discriminate H; exact H.
  - reflexivity.
Defined.

(** X14: where no quote is left in the text, [readFormattedCharArray]
    does not fail: [find_first_of] gives [npos], which is [-1] as a signed
    position, and the element is read at position [0], the start of the
    text. *)
Theorem readFormattedCharArray_without_quote
    (file_str : text) (fromPos elementSize : Z) :
  0 <= fromPos < 2 ^ 63 ->
  0 <= elementSize < 2 ^ 31 ->
  ~ In quote (skipn (Z.to_nat fromPos) file_str) ->
  readFormattedCharArray file_str 1 fromPos elementSize
  = attempt element <- trimr (firstn (Z.to_nat elementSize) file_str);
    Return [element].
Proof.
  intros Hpos Hsize Hquote.
  unfold readFormattedCharArray. change (Z.to_nat 1) with 1%nat.
  cbn [readFormattedCharArray_loop].
  rewrite (UInt64_wrap_small fromPos) by lia.
  unfold find_first_of.
  rewrite find_from_none by (try lia; apply no_quote; exact Hquote).
  rewrite npos_signed. change (UInt64.wrap (Int64.wrap (-1 + 1))) with 0.
  rewrite UInt64_wrap_small by lia.
  unfold substr.
  pose proof (size_nonneg file_str) as Hn.
  destruct (Z.ltb_spec (size file_str) 0); [lia |].
  cbn [and_then]. change (Z.to_nat 0) with 0%nat. rewrite skipn_O.
  rewrite Z.sub_0_r.
  rewrite char_element_trimr.
  replace (firstn (Z.to_nat (Z.min elementSize (size file_str))) file_str)
    with (firstn (Z.to_nat elementSize) file_str).
  - cbn [app]. reflexivity.
  - destruct (Z.le_ge_cases elementSize (size file_str)) as [Hle | Hge].
    + rewrite Z.min_l by exact Hle. reflexivity.
    + rewrite Z.min_r by exact Hge.
      unfold size. rewrite Nat2Z.id.
      rewrite firstn_all, firstn_all2 by (unfold size in Hge; lia).
      reflexivity.
Qed.

Lemma readFormattedCharArray_without_quote_witness :
  readFormattedCharArray (chars " 'FOPR    '            ") 1 11 8
  = attempt element <- trimr (firstn (Z.to_nat 8) (chars " 'FOPR    '            "));
    Return [element].
Proof.
  apply (readFormattedCharArray_without_quote
           (chars " 'FOPR    '            ") 11 8).
  - lia.
  - lia.
  - cbn. intros H; repeat destruct H as [H | H]; try discriminate H; exact H.
Defined.

End CharArrayProperties.

Section FormattedHeaders.

Import EclUtil.

Variable stol : text -> Outcome Z.
Variable stoi : text -> Outcome Z.

(** The function in terms of the four positions it looks up. *)
Lemma readFormattedHeader_positions (line : text) p1 p2 p3 p4 :
  p1 = Int32.wrap (find_first_of quote 0 line) ->
  p2 = Int32.wrap (find_first_of quote (UInt64.wrap (Int32.add p1 1)) line) ->
  p3 = Int32.wrap (find_first_of quote (UInt64.wrap (Int32.add p2 1)) line) ->
  p4 = Int32.wrap (find_first_of quote (UInt64.wrap (Int32.add p3 1)) line) ->
  readFormattedHeader stol stoi line
  = if (p1 =? -1) || (p2 =? -1) || (p3 =? -1) || (p4 =? -1) then
      Raise (runtime_error "Header name and type should be enclosed with '")
    else
      attempt arrName <-
        substr (UInt64.wrap (Int32.add p1 1))
          (UInt64.wrap (Int32.sub (Int32.sub p2 p1) 1)) line;
      attempt antStr <-
        substr (UInt64.wrap (Int32.add p2 1))
          (UInt64.wrap (Int32.sub (Int32.sub p3 p2) 1)) line;
      attempt arrTypeStr <-
        substr (UInt64.wrap (Int32.add p3 1))
          (UInt64.wrap (Int32.sub (Int32.sub p4 p3) 1)) line;
      attempt num <- stol antStr;
      attempt '(arrType, elementSize) <- array_type stoi arrTypeStr;
      if negb (size arrName =? 8) then
        Raise (runtime_error "Header name should be 8 characters")
      else Return (mkHeader arrName num arrType elementSize).
Proof. intros -> -> -> ->. reflexivity. Qed.

Lemma first_quote_found (P a b : text) :
  ~ In quote a ->
  size (P ++ a ++ quote :: b) < 2 ^ 31 ->
  Int32.wrap (find_first_of quote (size P) (P ++ a ++ quote :: b))
  = size P + size a.
Proof.
  intros Ha Hsize.
  rewrite !size_app, size_cons in Hsize.
  pose proof (size_nonneg P). pose proof (size_nonneg a).
  pose proof (size_nonneg b).
  unfold find_first_of.
  rewrite find_from_app, find_if_skip by (apply no_quote; exact Ha).
  rewrite find_if_hit by reflexivity.
  apply Int32_wrap_small. lia.
Qed.

Lemma first_quote_none (P rest : text) :
  ~ In quote rest ->
  Int32.wrap (find_first_of quote (size P) (P ++ rest)) = -1.
Proof.
  intros Hrest. unfold find_first_of.
  rewrite find_from_app, find_if_none by (apply no_quote; exact Hrest).
  reflexivity.
Qed.

Lemma split_first_quote (rest : text) :
  ~ In quote rest
  \/ exists a b, rest = a ++ quote :: b /\ ~ In quote a.
Proof.
  induction rest as [| c rest IH].
  - left. intros [].
  - destruct (Ascii.ascii_dec c quote) as [-> | Hc].
    + right. exists [], rest. split; [reflexivity | intros []].
    + destruct IH as [Hnone | (a & b & -> & Ha)].
      * left. intros [H | H]; [congruence | contradiction].
      * right. exists (c :: a), b. split; [reflexivity |].
        intros [H | H]; [congruence | contradiction].
Qed.

Lemma count_quotes_cons (b : text) :
  count_occ Ascii.ascii_dec (quote :: b) quote
  = S (count_occ Ascii.ascii_dec b quote).
Proof. apply count_occ_cons_eq. reflexivity. Qed.

(** X15: [readFormattedHeader] takes the array name from between the
    first two quotes of the line, the number of elements from between the
    second and the third, and the type from between the third and the
    fourth.  The number is converted first, then the type is recognised, and
    only then a name that is not 8 characters long is rejected. *)
Theorem readFormattedHeader_reads_fields (pre name count type post : text) :
  ~ In quote pre -> ~ In quote name -> ~ In quote count -> ~ In quote type ->
  size (pre ++ quote :: name ++ quote :: count ++ quote :: type ++ quote :: post)
  < 2 ^ 31 ->
  readFormattedHeader stol stoi
    (pre ++ quote :: name ++ quote :: count ++ quote :: type ++ quote :: post)
  = attempt num <- stol count;
    attempt '(arrType, elementSize) <- array_type stoi type;
    if negb (size name =? 8) then
      Raise (runtime_error "Header name should be 8 characters")
    else Return (mkHeader name num arrType elementSize).
Proof.
  intros Hpre Hname Hcount Htype Hsize.
  set (line := pre ++ quote :: name ++ quote :: count ++ quote :: type
                 ++ quote :: post) in *.
  set (P1 := pre ++ [quote]).
  set (P2 := P1 ++ name ++ [quote]).
  set (P3 := P2 ++ count ++ [quote]).
  assert (L1 : line = [] ++ pre ++ quote :: name ++ quote :: count ++ quote :: type
                        ++ quote :: post) by reflexivity.
  assert (L2 : line = P1 ++ name ++ quote :: count ++ quote :: type ++ quote :: post).
  { subst line P1. rewrite <- !app_assoc. reflexivity. }
  assert (L3 : line = P2 ++ count ++ quote :: type ++ quote :: post).
  { rewrite L2. subst P2. rewrite <- !app_assoc. reflexivity. }
  assert (L4 : line = P3 ++ type ++ quote :: post).
  { rewrite L3. subst P3. rewrite <- !app_assoc. reflexivity. }
  assert (S1 : size P1 = size pre + 1).
  { subst P1. rewrite size_app, size_cons. change (size []) with 0. lia. }
  assert (S2 : size P2 = size P1 + size name + 1).
  { subst P2. rewrite !size_app, size_cons. change (size []) with 0. lia. }
  assert (S3 : size P3 = size P2 + size count + 1).
  { subst P3. rewrite !size_app, size_cons. change (size []) with 0. lia. }
  pose proof (size_nonneg pre) as N0. pose proof (size_nonneg name) as N1.
  pose proof (size_nonneg count) as N2. pose proof (size_nonneg type) as N3.
  pose proof (size_nonneg post) as N4.
  assert (Hbound : size P3 + size type + 1 + size post < 2 ^ 31).
  { rewrite L4 in Hsize. rewrite !size_app, size_cons in Hsize. lia. }
  assert (U : forall z, 0 <= z < 2 ^ 31 - 1 -> UInt64.wrap (Int32.add z 1) = z + 1).
  { intros z Hz. unfold Int32.add. rewrite Int32_wrap_small by lia.
    apply UInt64_wrap_small. lia. }
  assert (D : forall hi lo n, 0 <= lo -> hi = lo + 1 + n -> 0 <= n < 2 ^ 31 ->
                              hi < 2 ^ 31 ->
                              UInt64.wrap (Int32.sub (Int32.sub hi lo) 1) = n).
  { intros hi lo n Hlo -> Hn Hhi. unfold Int32.sub.
    rewrite (Int32_wrap_small (lo + 1 + n - lo)) by lia.
    rewrite Int32_wrap_small by lia. rewrite UInt64_wrap_small by lia. lia. }
  assert (H1 : size pre = Int32.wrap (find_first_of quote 0 line)).
  { rewrite L1. change 0 with (size []) at 1.
    rewrite first_quote_found; [reflexivity | exact Hpre | exact Hsize]. }
  assert (H2 : size P1 + size name
               = Int32.wrap (find_first_of quote
                               (UInt64.wrap (Int32.add (size pre) 1)) line)).
  { rewrite U, <- S1 by lia. rewrite L2.
    rewrite first_quote_found; [reflexivity | exact Hname |].
    rewrite <- L2. exact Hsize. }
  assert (H3 : size P2 + size count
               = Int32.wrap (find_first_of quote
                               (UInt64.wrap (Int32.add (size P1 + size name) 1))
                               line)).
  { rewrite U by lia. replace (size P1 + size name + 1) with (size P2) by lia.
    rewrite L3.
    rewrite first_quote_found; [reflexivity | exact Hcount |].
    rewrite <- L3. exact Hsize. }
  assert (H4 : size P3 + size type
               = Int32.wrap (find_first_of quote
                               (UInt64.wrap (Int32.add (size P2 + size count) 1))
                               line)).
  { rewrite U by lia. replace (size P2 + size count + 1) with (size P3) by lia.
    rewrite L4.
    rewrite first_quote_found; [reflexivity | exact Htype |].
    rewrite <- L4. exact Hsize. }
  rewrite (readFormattedHeader_positions line _ _ _ _ H1 H2 H3 H4).
  destruct (Z.eqb_spec (size pre) (-1)); [lia |].
  destruct (Z.eqb_spec (size P1 + size name) (-1)); [lia |].
  destruct (Z.eqb_spec (size P2 + size count) (-1)); [lia |].
  destruct (Z.eqb_spec (size P3 + size type) (-1)); [lia |].
  cbn [orb].
  rewrite !U by lia.
  rewrite (D (size P1 + size name) (size pre) (size name)) by lia.
  rewrite (D (size P2 + size count) (size P1 + size name) (size count)) by lia.
  rewrite (D (size P3 + size type) (size P2 + size count) (size type)) by lia.
  replace (size pre + 1) with (size P1) by lia.
  replace (size P1 + size name + 1) with (size P2) by lia.
  replace (size P2 + size count + 1) with (size P3) by lia.
  rewrite L2 at 1. rewrite substr_app by (left; reflexivity). cbn [and_then].
  rewrite L3 at 1. rewrite substr_app by (left; reflexivity). cbn [and_then].
  rewrite L4 at 1. rewrite substr_app by (left; reflexivity). cbn [and_then].
  reflexivity.
Qed.

(** X16: a line with fewer than four quotes is not a header:
    [readFormattedHeader] throws [std::runtime_error] before it converts
    anything. *)
Theorem readFormattedHeader_needs_four_quotes (line : text) :
  size line < 2 ^ 31 ->
  (count_occ Ascii.ascii_dec line quote < 4)%nat ->
  readFormattedHeader stol stoi line
  = Raise (runtime_error "Header name and type should be enclosed with '").
Proof.
  intros Hsize Hcount.
  assert (U : forall z, 0 <= z < 2 ^ 31 - 1 -> UInt64.wrap (Int32.add z 1) = z + 1).
  { intros z Hz. unfold Int32.add. rewrite Int32_wrap_small by lia.
    apply UInt64_wrap_small. lia. }
  assert (Done : forall p1 p2 p3 p4,
             p1 = -1 \/ p2 = -1 \/ p3 = -1 \/ p4 = -1 ->
             (p1 =? -1) || (p2 =? -1) || (p3 =? -1) || (p4 =? -1) = true).
  { intros p1 p2 p3 p4 H. rewrite !orb_true_iff, !Z.eqb_eq. tauto. }
  rewrite (readFormattedHeader_positions line _ _ _ _ eq_refl eq_refl eq_refl eq_refl).
  match goal with |- (if ?c then _ else _) = _ => enough (c = true) as -> by reflexivity end.
  apply Done.
  (* the first quote *)
  destruct (split_first_quote line) as [Hnone | (a1 & r1 & L1 & Ha1)].
  { left. change 0 with (size []). change line with ([] ++ line) at 1.
    apply first_quote_none. exact Hnone. }
  right.
  assert (H1 : Int32.wrap (find_first_of quote 0 line) = size a1).
  { rewrite L1. change 0 with (size []) at 1.
    change (a1 ++ quote :: r1) with ([] ++ a1 ++ quote :: r1).
    rewrite first_quote_found; [reflexivity | exact Ha1 |].
    cbn [app]. rewrite <- L1. exact Hsize. }
  rewrite H1.
  pose proof (size_nonneg a1) as N1.
  assert (B1 : size a1 + 1 + size r1 = size line).
  { rewrite L1, size_app, size_cons. lia. }
  pose proof (size_nonneg r1) as M1.
  rewrite U by lia.
  set (P1 := a1 ++ [quote]).
  assert (S1 : size P1 = size a1 + 1).
  { subst P1. rewrite size_app, size_cons. change (size []) with 0. lia. }
  assert (L1' : line = P1 ++ r1).
  { rewrite L1. subst P1. rewrite <- app_assoc. reflexivity. }
  rewrite <- S1.
  (* the second quote *)
  destruct (split_first_quote r1) as [Hnone | (a2 & r2 & L2 & Ha2)].
  { left. rewrite L1'. apply first_quote_none. exact Hnone. }
  right.
  assert (H2 : Int32.wrap (find_first_of quote (size P1) line) = size P1 + size a2).
  { rewrite L1', L2.
    rewrite first_quote_found; [reflexivity | exact Ha2 |].
    rewrite <- L2, <- L1'. exact Hsize. }
  rewrite H2.
  pose proof (size_nonneg a2) as N2. pose proof (size_nonneg r2) as M2.
  assert (B2 : size P1 + size a2 + 1 + size r2 = size line).
  { rewrite L1', L2, !size_app, size_cons. lia. }
  rewrite U by lia.
  set (P2 := P1 ++ a2 ++ [quote]).
  assert (S2 : size P2 = size P1 + size a2 + 1).
  { subst P2. rewrite !size_app, size_cons. change (size []) with 0. lia. }
  assert (L2' : line = P2 ++ r2).
  { rewrite L1', L2. subst P2. rewrite <- !app_assoc. reflexivity. }
  rewrite <- S2.
  (* the third quote *)
  destruct (split_first_quote r2) as [Hnone | (a3 & r3 & L3 & Ha3)].
  { left. rewrite L2'. apply first_quote_none. exact Hnone. }
  right.
  assert (H3 : Int32.wrap (find_first_of quote (size P2) line) = size P2 + size a3).
  { rewrite L2', L3.
    rewrite first_quote_found; [reflexivity | exact Ha3 |].
    rewrite <- L3, <- L2'. exact Hsize. }
  rewrite H3.
  pose proof (size_nonneg a3) as N3. pose proof (size_nonneg r3) as M3.
  assert (B3 : size P2 + size a3 + 1 + size r3 = size line).
  { rewrite L2', L3, !size_app, size_cons. lia. }
  rewrite U by lia.
  set (P3 := P2 ++ a3 ++ [quote]).
  assert (S3 : size P3 = size P2 + size a3 + 1).
  { subst P3. rewrite !size_app, size_cons. change (size []) with 0. lia. }
  assert (L3' : line = P3 ++ r3).
  { rewrite L2', L3. subst P3. rewrite <- !app_assoc. reflexivity. }
  rewrite <- S3.
  (* the fourth quote *)
  destruct (split_first_quote r3) as [Hnone | (a4 & r4 & L4 & Ha4)].
  { rewrite L3'. apply first_quote_none. exact Hnone. }
  exfalso.
  rewrite L1, L2, L3, L4 in Hcount.
  repeat (rewrite count_occ_app in Hcount || rewrite count_quotes_cons in Hcount).
  lia.
Qed.

End FormattedHeaders.

Section FormattedHeaderExamples.

Import EclUtil.

(** The header of an INTE array with one element. *)
Lemma readFormattedHeader_reads_fields_witness :
  readFormattedHeader (fun _ => Return 1) (fun _ => Return 0)
    (chars " 'SEQNUM  '           1 'INTE'")
  = attempt num <- Return 1;
    attempt '(arrType, elementSize) <-
      array_type (fun _ => Return 0) (chars "INTE");
    if negb (size (chars "SEQNUM  ") =? 8) then
      Raise (runtime_error "Header name should be 8 characters")
    else Return (mkHeader (chars "SEQNUM  ") num arrType elementSize).
Proof.
  apply (readFormattedHeader_reads_fields (fun _ => Return 1) (fun _ => Return 0)
           (chars " ") (chars "SEQNUM  ") (chars "           1 ")
           (chars "INTE") []);
    try reflexivity;
    cbn; intros H; repeat destruct H as [H | H]; try discriminate H; exact H.
Defined.

(** A header line that lost its last quote. *)
Lemma readFormattedHeader_needs_four_quotes_witness :
  readFormattedHeader (fun _ => Return 1) (fun _ => Return 0)
    (chars " 'SEQNUM  '           1 'INTE")
  = Raise (runtime_error "Header name and type should be enclosed with '").
Proof.
  apply (readFormattedHeader_needs_four_quotes (fun _ => Return 1)
           (fun _ => Return 0) (chars " 'SEQNUM  '           1 'INTE"));
    [reflexivity | vm_compute; lia].
Defined.

End FormattedHeaderExamples.

Section DiskSizes.

Import EclUtil.

Lemma ceil_div (num n : Z) :
  0 <= num -> 0 < n ->
  (num + n - 1) / n = num / n + (if 0 <? num mod n then 1 else 0).
Proof.
  intros Hnum Hn.
  pose proof (Z.div_mod num n ltac:(lia)) as Hdm.
  pose proof (Z.mod_pos_bound num n Hn) as Hr.
  destruct (Z.ltb_spec 0 (num mod n)).
  - symmetry. apply (Z.div_unique _ _ _ (num mod n - 1)); lia.
  - symmetry. apply (Z.div_unique _ _ _ (n - 1)); lia.
Qed.

Lemma Int32_div_pos a b :
  0 <= a <= Int32.max_int -> 0 < b -> Int32.div a b = a / b.
Proof.
  intros Ha Hb. unfold Int32.div, Int32.max_int in *.
  rewrite Z.quot_div_nonneg by lia.
  apply Int32_wrap_small.
  pose proof (Z.div_pos a b ltac:(lia) Hb).
  pose proof (Z.div_le_upper_bound a b a Hb ltac:(nia)). lia.
Qed.

Lemma Int32_rem_pos a b : 0 <= a -> 0 < b -> Int32.rem a b = a mod b.
Proof. intros Ha Hb. unfold Int32.rem. apply Z.rem_mod_nonneg; lia. Qed.

(** The block arithmetic of [sizeOnDiskBinary] for elements of [s] bytes,
    [n] to a block, and a block header and tail of [I] bytes each. *)
Lemma binary_blocks (s n I num : Z) :
  0 < s -> 0 < n -> n * s <= Int32.max_int -> 0 <= I <= Int32.max_int ->
  0 < num ->
  num * s + 2 * I * ((num + n - 1) / n) < 2 ^ 64 ->
  let maxNumberOfElements := Int32.div (n * s) s in
  let numBlocks :=
    UInt64.div (UInt64.wrap num) (UInt64.wrap maxNumberOfElements) in
  let rest :=
    UInt64.sub (UInt64.wrap num)
      (UInt64.mul numBlocks (UInt64.wrap maxNumberOfElements)) in
  let size2Inte := UInt64.mul (UInt64.wrap I) 2 in
  let sizeFullBlocks :=
    UInt64.mul numBlocks (UInt64.add (UInt64.wrap (n * s)) size2Inte) in
  let sizeLastBlock :=
    if 0 <? rest then
      UInt64.add (UInt64.mul rest (UInt64.wrap s)) size2Inte
    else 0 in
  UInt64.add sizeFullBlocks sizeLastBlock
  = num * s + 2 * I * ((num + n - 1) / n).
Proof.
  intros Hs Hn Hb HI Hnum Htotal. unfold Int32.max_int in *.
  rewrite ceil_div in * by lia.
  pose proof (Z.div_mod num n ltac:(lia)) as Hdm.
  pose proof (Z.mod_pos_bound num n Hn) as Hr.
  pose proof (Z.div_pos num n ltac:(lia) Hn) as Hq.
  set (q := num / n) in *. set (r := num mod n) in *.
  assert (Hextra : 0 <= 2 * I * (q + (if 0 <? r then 1 else 0)))
    by (destruct (0 <? r); nia).
  assert (Hnum64 : num < 2 ^ 64) by nia.
  cbv zeta.
  rewrite Int32_div_pos by (unfold Int32.max_int; nia).
  rewrite Z.div_mul by lia.
  unfold UInt64.div, UInt64.sub, UInt64.mul, UInt64.add.
  rewrite (UInt64_wrap_small num) by lia.
  rewrite (UInt64_wrap_small n) by nia.
  rewrite (UInt64_wrap_small I) by lia.
  rewrite (UInt64_wrap_small s) by nia.
  rewrite (UInt64_wrap_small (n * s)) by nia.
  fold q.
  rewrite (UInt64_wrap_small (q * n)) by nia.
  replace (num - q * n) with r by lia.
  rewrite (UInt64_wrap_small r) by lia.
  rewrite (UInt64_wrap_small (I * 2)) by lia.
  rewrite (UInt64_wrap_small (n * s + I * 2)) by nia.
  destruct (Z.ltb_spec 0 r) as [Hpos | Hzero].
  - assert (Hq' : q * (n * s + I * 2) + (r * s + I * 2)
                  = num * s + 2 * I * (q + 1)) by nia.
    assert (0 <= q * (n * s + I * 2)) by nia.
    assert (0 <= r * s + I * 2) by nia.
    rewrite (UInt64_wrap_small (q * (n * s + I * 2))) by lia.
    rewrite (UInt64_wrap_small (r * s)) by nia.
    rewrite (UInt64_wrap_small (r * s + I * 2)) by lia.
    rewrite UInt64_wrap_small by lia. exact Hq'.
  - assert (r = 0) by lia.
    assert (Hq' : q * (n * s + I * 2) + 0 = num * s + 2 * I * (q + 0)) by nia.
    assert (0 <= q * (n * s + I * 2)) by nia.
    rewrite (UInt64_wrap_small (q * (n * s + I * 2))) by lia.
    rewrite UInt64_wrap_small by lia. exact Hq'.
Qed.

Variables sizeOfInte sizeOfReal sizeOfDoub sizeOfLogi sizeOfChar : Z.
Variables MaxBlockSizeInte MaxBlockSizeReal MaxBlockSizeDoub
          MaxBlockSizeLogi MaxBlockSizeChar : Z.

(** X17: the size of a binary array on disk is the size of its elements
    plus, for every block begun, a header and a tail of [sizeOfInte] bytes
    each; a block holds [MaxBlockSize / sizeOf] elements, also for a C0NN
    array, whose elements take [elementSize] bytes. *)
Theorem sizeOnDiskBinary_blocks
    (num : Z) (arrType : eclArrType) (elementSize s perBlock width : Z) :
  block_size_data_binary sizeOfInte sizeOfReal sizeOfDoub sizeOfLogi sizeOfChar
    MaxBlockSizeInte MaxBlockSizeReal MaxBlockSizeDoub MaxBlockSizeLogi
    MaxBlockSizeChar arrType
  = Return (s, perBlock * s) ->
  width = (if is_C0NN arrType then elementSize else s) ->
  0 < s -> 0 < width -> 0 < perBlock ->
  perBlock * s <= Int32.max_int -> perBlock * width <= Int32.max_int ->
  0 <= sizeOfInte <= Int32.max_int ->
  0 < num ->
  num * width + 2 * sizeOfInte * ((num + perBlock - 1) / perBlock) < 2 ^ 64 ->
  sizeOnDiskBinary sizeOfInte sizeOfReal sizeOfDoub sizeOfLogi sizeOfChar
    MaxBlockSizeInte MaxBlockSizeReal MaxBlockSizeDoub MaxBlockSizeLogi
    MaxBlockSizeChar num arrType elementSize
  = Return (num * width
            + 2 * sizeOfInte * ((num + perBlock - 1) / perBlock)).
Proof.
  intros Hdata -> Hs Hwidth Hper Hblock Hblock' HI Hnum Htotal.
  unfold sizeOnDiskBinary.
  destruct (is_MESS arrType) eqn:Hmess.
  { destruct arrType; try discriminate Hmess. discriminate Hdata. }
  destruct (Z.ltb_spec 0 num); [| lia].
  rewrite Hdata. cbn [and_then fst snd].
  destruct (is_C0NN arrType); cbn [fst snd].
  - rewrite (Int32_div_pos (perBlock * s) s) by (unfold Int32.max_int in *; nia).
    rewrite Z.div_mul by lia.
    unfold Int32.mul.
    rewrite (Int32_wrap_small (perBlock * elementSize))
      by (unfold Int32.max_int in *; nia).
    f_equal. apply binary_blocks; assumption.
  - f_equal. apply binary_blocks; assumption.
Qed.

Variables MaxNumBlockInte MaxNumBlockReal MaxNumBlockDoub
          MaxNumBlockLogi MaxNumBlockChar : Z.
Variables numColumnsInte numColumnsReal numColumnsDoub
          numColumnsLogi numColumnsChar : Z.
Variables columnWidthInte columnWidthReal columnWidthDoub
          columnWidthLogi columnWidthChar : Z.

(** X18: the size of a formatted array on disk is [columnWidth]
    characters for every element and one line end for every line begun; a
    block of [MaxNumBlock] elements starts a new line, and a line holds
    [numColumns] elements.  For a C0NN array an element takes
    [elementSize + 3] characters and a line as many elements as fit in 80
    characters.  This holds where a line holds at least one element, so for
    a C0NN array of at most 77 characters an element, where there are at
    most [INT_MAX] full blocks, and where the characters and lines of a block
    fit an [int]. *)
Theorem sizeOnDiskFormatted_lines
    (num : Z) (arrType : eclArrType) (elementSize B C0 W0 C W : Z) :
  block_size_data_formatted
    MaxNumBlockInte MaxNumBlockReal MaxNumBlockDoub MaxNumBlockLogi
    MaxNumBlockChar numColumnsInte numColumnsReal numColumnsDoub
    numColumnsLogi numColumnsChar columnWidthInte columnWidthReal
    columnWidthDoub columnWidthLogi columnWidthChar arrType
  = Return (B, C0, W0) ->
  W = (if is_C0NN arrType then elementSize + 3 else W0) ->
  C = (if is_C0NN arrType then 80 / W else C0) ->
  0 < B -> 0 < C -> 0 < W -> B * W + B <= Int32.max_int ->
  0 <= num -> num / B <= Int32.max_int ->
  sizeOnDiskFormatted
    MaxNumBlockInte MaxNumBlockReal MaxNumBlockDoub MaxNumBlockLogi
    MaxNumBlockChar numColumnsInte numColumnsReal numColumnsDoub
    numColumnsLogi numColumnsChar columnWidthInte columnWidthReal
    columnWidthDoub columnWidthLogi columnWidthChar num arrType elementSize
  = Return (num * W + num / B * ((B + C - 1) / C) + (num mod B + C - 1) / C).
Proof.
  intros Hdata HW HC HB HCpos HWpos Hint Hnum Hblocks.
  unfold Int32.max_int in *.
  unfold sizeOnDiskFormatted.
  destruct (is_MESS arrType) eqn:Hmess.
  { destruct arrType; try discriminate Hmess. discriminate Hdata. }
  rewrite Hdata. cbn [and_then fst snd].
  assert (Hdata' :
            (if is_C0NN arrType
             then (B, Int32.div 80 (Int32.add elementSize 3),
                   Int32.add elementSize 3)
             else (B, C0, W0))
            = (B, C, W)).
  { destruct (is_C0NN arrType).
    - subst W. unfold Int32.add. rewrite Int32_wrap_small by nia.
      rewrite Int32_div_pos by (unfold Int32.max_int; lia).
      rewrite HC. reflexivity.
    - subst. reflexivity. }
  rewrite Hdata'. cbn [fst snd].
  pose proof (Z.div_mod num B ltac:(lia)) as Hdm.
  pose proof (Z.mod_pos_bound num B HB) as Hr.
  pose proof (Z.div_pos num B Hnum HB) as Hq.
  rewrite (Z.quot_div_nonneg num B) by lia.
  rewrite (Z.rem_mod_nonneg num B) by lia.
  set (q := num / B) in *. set (r := num mod B) in *.
  rewrite (Int64_wrap_small q) by lia.
  rewrite (Int32_wrap_small q) by lia.
  rewrite (Int32_wrap_small r) by nia.
  rewrite (Int32_div_pos B C) by (unfold Int32.max_int; nia).
  rewrite (Int32_rem_pos B C) by lia.
  rewrite (Int32_div_pos r C) by (unfold Int32.max_int; nia).
  rewrite (Int32_rem_pos r C) by lia.
  rewrite (ceil_div B C) by lia.
  rewrite (ceil_div r C) by lia.
  pose proof (Z.div_pos B C ltac:(lia) HCpos) as HqB.
  pose proof (Z.div_le_upper_bound B C B HCpos ltac:(nia)) as HqB'.
  pose proof (Z.div_pos r C ltac:(lia) HCpos) as Hqr.
  pose proof (Z.div_le_upper_bound r C r HCpos ltac:(nia)) as Hqr'.
  pose proof (Z.mod_pos_bound B C HCpos) as HrB.
  pose proof (Z.mod_pos_bound r C HCpos) as Hrr.
  set (lb := B / C) in *. set (lr := r / C) in *.
  unfold Int32.mul, Int32.add.
  rewrite (Int32_wrap_small (B * W)) by nia.
  rewrite (Int32_wrap_small (r * W)) by nia.
  assert (Hlines :
            (if 0 <? B mod C then Int32.wrap (lb + 1) else lb)
            = lb + (if 0 <? B mod C then 1 else 0)).
  { destruct (0 <? B mod C); [apply Int32_wrap_small; lia | lia]. }
  rewrite Hlines.
  set (nl := lb + (if 0 <? B mod C then 1 else 0)).
  pose proof (Z.div_mod B C ltac:(lia)) as HdmB. fold lb in HdmB.
  pose proof (Z.div_mod r C ltac:(lia)) as Hdmr. fold lr in Hdmr.
  assert (Hnl : 0 <= nl <= B)
    by (subst nl; destruct (Z.ltb_spec 0 (B mod C)); nia).
  rewrite (Int32_wrap_small (B * W + nl)) by nia.
  rewrite (Int64_wrap_small (B * W + nl)) by nia.
  assert (Hfull : 0 <= q * (B * W + nl) < 2 ^ 62) by nia.
  unfold UInt64.add.
  rewrite (UInt64_wrap_small (r * W)) by nia.
  rewrite (UInt64_wrap_small lr) by nia.
  assert (Hsize :
            (if 0 <? q then UInt64.wrap (Int64.wrap (q * (B * W + nl))) else 0)
            = q * (B * W + nl)).
  { destruct (Z.ltb_spec 0 q).
    - rewrite Int64_wrap_small by lia. apply UInt64_wrap_small. lia.
    - assert (q = 0) by lia. subst q. lia. }
  rewrite Hsize.
  assert (0 <= r * W < 2 ^ 31) by nia.
  rewrite (UInt64_wrap_small (q * (B * W + nl) + r * W)) by lia.
  rewrite (UInt64_wrap_small (q * (B * W + nl) + r * W + lr)) by lia.
  destruct (Z.ltb_spec 0 (r mod C)).
  - rewrite UInt64_wrap_small by lia. f_equal. nia.
  - f_equal. nia.
Qed.

End DiskSizes.

Section DiskSizeExamples.

Import EclUtil.

(** With the constants of EclIOdata.hpp: 2500 strings of 16 characters
    in a C0NN array, 105 to a block. *)
Lemma sizeOnDiskBinary_blocks_witness :
  sizeOnDiskBinary 4 4 8 4 8 4000 4000 8000 4000 840 2500 C0NN 16
  = Return (2500 * 16 + 2 * 4 * ((2500 + 105 - 1) / 105)).
Proof.
  apply (sizeOnDiskBinary_blocks 4 4 8 4 8 4000 4000 8000 4000 840
           2500 C0NN 16 8 105 16);
    first [reflexivity | unfold Int32.max_int; lia].
Defined.

(** With the constants of EclIOdata.hpp: 2500 integers, 1000 to a block
    and 6 to a line of 12 characters each. *)
Lemma sizeOnDiskFormatted_lines_witness :
  sizeOnDiskFormatted 1000 1000 1000 1000 105 6 4 3 25 7 12 17 23 3 11
    2500 INTE 4
  = Return (2500 * 12 + 2500 / 1000 * ((1000 + 6 - 1) / 6)
            + (2500 mod 1000 + 6 - 1) / 6).
Proof.
  apply (sizeOnDiskFormatted_lines 1000 1000 1000 1000 105 6 4 3 25 7
           12 17 23 3 11 2500 INTE 4 1000 6 12 6 12);
    first [reflexivity | unfold Int32.max_int; lia
          | apply Z.leb_le; reflexivity].
Defined.

End DiskSizeExamples.

(* ================================================================== *)
(** * Properties of the tabulated function *)

Section TabulatedFacts.

Import Tabulated.

Lemma UInt32_wrap_small z : 0 <= z < 2 ^ 32 -> UInt32.wrap z = z.
Proof. intros H. unfold UInt32.wrap. apply Z.mod_small. lia. Qed.

Lemma to_int_range (d : float) :
  Int32.min_int <= Double.to_int d <= Int32.max_int.
Proof.
  unfold Double.to_int.
  destruct (Prim2SF d) as [s | s | | s m e];
    try (unfold Int32.min_int, Int32.max_int; lia).
  cbv zeta.
  destruct (andb _ _) eqn:E.
  - apply andb_true_iff in E as [E1 E2].
    apply Z.leb_le in E1, E2. lia.
  - unfold Int32.min_int, Int32.max_int. lia.
Qed.

Lemma sample_index_range (i j : Z) (this : UniformTabulated2DFunction) :
  addressable this -> 0 <= i < m_ this -> 0 <= j < n_ this ->
  sample_index i j this = j * m_ this + i
  /\ 0 <= j * m_ this + i < m_ this * n_ this.
Proof.
  intros (Hm & Hn & Hmn & _) Hi Hj.
  assert (Hin : 0 <= j * m_ this + i < m_ this * n_ this) by nia.
  split; [| exact Hin].
  unfold sample_index, UInt32.add, UInt32.mul.
  rewrite (UInt32_wrap_small (j * m_ this)) by nia.
  apply UInt32_wrap_small. lia.
Qed.

Lemma sample_index_inj (i j i' j' : Z) (this : UniformTabulated2DFunction) :
  0 <= i < m_ this -> 0 <= i' < m_ this ->
  j * m_ this + i = j' * m_ this + i' -> i = i' /\ j = j'.
Proof.
  intros Hi Hi' H.
  assert (j = j') by nia. subst j'. lia.
Qed.

Lemma assign_length v k value : length (assign v k value) = length v.
Proof.
  revert k. induction v as [| x v IH]; intros [| k]; cbn [assign length];
    try reflexivity.
  rewrite IH. reflexivity.
Qed.

Lemma nth_error_assign_same v k value :
  (k < length v)%nat -> nth_error (assign v k value) k = Some value.
Proof.
  revert k. induction v as [| x v IH]; intros [| k] H; cbn [length] in H;
    try lia; cbn [assign nth_error]; [reflexivity |].
  apply IH. lia.
Qed.

Lemma nth_error_assign_other v k k' value :
  k <> k' -> nth_error (assign v k value) k' = nth_error v k'.
Proof.
  revert k k'. induction v as [| x v IH]; intros [| k] [| k'] H;
    cbn [assign nth_error]; try reflexivity; try congruence.
  apply IH. congruence.
Qed.

Lemma assert_true (NDEBUG : bool) {A : Type} (k : Outcome A) :
  assert NDEBUG true k = k.
Proof. unfold assert. destruct NDEBUG; reflexivity. Qed.

Lemma getSamplePoint_addressable NDEBUG (i j : Z) (this : UniformTabulated2DFunction) :
  addressable this -> 0 <= i < m_ this -> 0 <= j < n_ this ->
  exists value,
    getSamplePoint NDEBUG i j this = Value value
    /\ nth_error (samples_ this) (Z.to_nat (j * m_ this + i)) = Some value.
Proof.
  intros Hthis Hi Hj.
  destruct (sample_index_range i j this Hthis Hi Hj) as [Hidx Hin].
  unfold getSamplePoint.
  destruct (Z.ltb_spec i (m_ this)); [| lia].
  destruct (Z.ltb_spec j (n_ this)); [| lia].
  rewrite !assert_true, Hidx.
  destruct Hthis as (_ & _ & _ & Hlen).
  destruct (nth_error (samples_ this) (Z.to_nat (j * m_ this + i))) as [value |] eqn:E.
  - exists value. split; reflexivity.
  - apply nth_error_None in E. lia.
Qed.

Lemma resize_addressable minX maxX m minY maxY n this :
  0 <= m -> 0 <= n -> m * n < 2 ^ 32 ->
  addressable (resize minX maxX m minY maxY n this).
Proof.
  intros Hm Hn Hmn. unfold addressable, resize. cbn [m_ n_ samples_].
  repeat split; try assumption.
  unfold vector_resize, UInt32.mul.
  rewrite UInt32_wrap_small by nia.
  rewrite length_app, length_firstn, repeat_length. nia.
Qed.


Lemma interval_single (position : float) : interval 1 position = 0.
Proof.
  unfold interval.
  change (Int32.sub (Int32.wrap 1) 2) with (-1).
  pose proof (to_int_range position) as Hp.
  rewrite Z.max_l by lia. reflexivity.
Qed.


(** X20: on a table that holds a sample for every point, setting the
    sample of a point succeeds, the point then reads back the value, and
    every other point reads what it read before. *)
Theorem sample_point_round_trip NDEBUG (i j : Z) (value : float)
    (this : UniformTabulated2DFunction) :
  addressable this -> 0 <= i < m_ this -> 0 <= j < n_ this ->
  exists this',
    setSamplePoint NDEBUG i j value this = Value this'
    /\ addressable this'
    /\ m_ this' = m_ this /\ n_ this' = n_ this
    /\ getSamplePoint NDEBUG i j this' = Value value
    /\ (forall i' j',
           0 <= i' < m_ this -> 0 <= j' < n_ this -> (i', j') <> (i, j) ->
           getSamplePoint NDEBUG i' j' this' = getSamplePoint NDEBUG i' j' this).
Proof.
  intros Hthis Hi Hj.
  destruct (sample_index_range i j this Hthis Hi Hj) as [Hidx Hin].
  pose proof Hthis as (Hm & Hn & Hmn & Hlen).
  unfold setSamplePoint.
  destruct (Z.ltb_spec i (m_ this)); [| lia].
  destruct (Z.ltb_spec j (n_ this)); [| lia].
  rewrite !assert_true, Hidx.
  destruct (Z.ltb_spec (j * m_ this + i) (Z.of_nat (length (samples_ this))));
    [| lia].
  eexists. split; [reflexivity |].
  set (this' := mk _ _ _ _ _ _ _).
  assert (Hthis' : addressable this').
  { unfold addressable, this'. cbn [m_ n_ samples_].
    rewrite assign_length. repeat split; assumption. }
  split; [exact Hthis' |]. split; [reflexivity |]. split; [reflexivity |].
  split.
  - destruct (getSamplePoint_addressable NDEBUG i j this' Hthis')
      as (v & Hget & Hnth); [exact Hi | exact Hj |].
    rewrite Hget. f_equal.
    unfold this' in Hnth. cbn [samples_ m_] in Hnth.
    rewrite nth_error_assign_same in Hnth by lia. congruence.
  - intros i' j' Hi' Hj' Hne.
    destruct (getSamplePoint_addressable NDEBUG i' j' this' Hthis')
      as (v' & Hget' & Hnth'); [exact Hi' | exact Hj' |].
    destruct (getSamplePoint_addressable NDEBUG i' j' this Hthis)
      as (v & Hget & Hnth); [exact Hi' | exact Hj' |].
    rewrite Hget', Hget. f_equal.
    unfold this' in Hnth'. cbn [samples_ m_] in Hnth'.
    rewrite nth_error_assign_other in Hnth'.
    + congruence.
    + intros Heq.
      assert (j * m_ this + i = j' * m_ this + i') by lia.
      destruct (sample_index_inj i j i' j' this) as [-> ->]; try assumption.
      apply Hne. reflexivity.
Qed.

Lemma interval_nonneg (num : Z) (position : float) : 0 <= interval num position.
Proof. unfold interval, UInt32.wrap. apply Z.mod_pos_bound. lia. Qed.

(** X22: a table with a single sample point in x direction cannot be
    evaluated: in a debug build every call of [eval] that passes the range
    check ends in a failed assertion, because the interpolation reads the
    sample points [i] and [i + 1]. *)
Theorem eval_needs_two_columns (to_string : float -> string)
    (x y : float) (extrapolate : bool) (this : UniformTabulated2DFunction) :
  addressable this -> m_ this = 1 ->
  extrapolate || applies x y this = true ->
  eval false to_string x y extrapolate this = AssertionFailed.
Proof.
  intros Hthis Hm Hcheck. unfold eval.
  cbn [negb andb].
  destruct (negb extrapolate && negb (applies x y this)) eqn:E.
  { destruct extrapolate, (applies x y this); discriminate. }
  cbv zeta. unfold numX. rewrite Hm, interval_single.
  change (UInt32.add 0 1) with 1.
  pose proof (interval_nonneg (numY this) (yToJ y this)) as Hj.
  set (j := interval (numY this) (yToJ y this)) in *.
  destruct (Z.ltb_spec j (n_ this)) as [Hlt | Hge].
  - destruct (getSamplePoint_addressable false 0 j this Hthis) as (s00 & -> & _);
      [lia | lia |].
    cbn [and_then]. unfold getSamplePoint at 1, assert at 1.
    rewrite Hm. reflexivity.
  - unfold getSamplePoint at 1, assert. rewrite Hm.
    change (0 <? 1) with true. cbv iota.
    destruct (Z.ltb_spec j (n_ this)); [lia | reflexivity].
Qed.

End TabulatedFacts.

Section TabulatedProperties.

Import Tabulated.

(** X19: a table made by the constructor for [m] times [n] sample points,
    fewer than [2^32] in all, holds a sample for every point, and every
    sample is zero. *)
Theorem constructed_table_is_zero
    (NDEBUG : bool) (minX maxX : float) (m : Z) (minY maxY : float) (n : Z) :
  0 <= m -> 0 <= n -> m * n < 2 ^ 32 ->
  addressable (construct minX maxX m minY maxY n)
  /\ (forall i j, 0 <= i < m -> 0 <= j < n ->
                  getSamplePoint NDEBUG i j (construct minX maxX m minY maxY n)
                  = Value 0%float).
Proof.
  intros Hm Hn Hmn.
  pose proof (resize_addressable minX maxX m minY maxY n (mk [] 0 0 0 0 0 0)
                Hm Hn Hmn) as Hthis.
  split; [exact Hthis |].
  intros i j Hi Hj.
  destruct (getSamplePoint_addressable NDEBUG i j _ Hthis) as (v & Hget & Hnth);
    [exact Hi | exact Hj |].
  fold (construct minX maxX m minY maxY n) in Hget.
  rewrite Hget. f_equal.
  unfold resize, vector_resize in Hnth. cbn [samples_ m_] in Hnth.
  rewrite firstn_nil in Hnth. cbn [app] in Hnth.
  apply nth_error_In, repeat_spec in Hnth. exact Hnth.
Qed.

Lemma constructed_table_is_zero_witness :
  addressable (construct 0 1 200 0 1 500)
  /\ (forall i j, 0 <= i < 200 -> 0 <= j < 500 ->
                  getSamplePoint false i j (construct 0 1 200 0 1 500)
                  = Value 0%float).
Proof. apply (constructed_table_is_zero false 0 1 200 0 1 500); lia. Defined.

Lemma sample_point_round_trip_witness :
  exists this',
    setSamplePoint false 1 2 5 (construct 0 1 2 0 1 3) = Value this'
    /\ addressable this'
    /\ m_ this' = 2 /\ n_ this' = 3
    /\ getSamplePoint false 1 2 this' = Value 5%float
    /\ (forall i' j',
           0 <= i' < 2 -> 0 <= j' < 3 -> (i', j') <> (1, 2) ->
           getSamplePoint false i' j' this'
           = getSamplePoint false i' j' (construct 0 1 2 0 1 3)).
Proof.
  apply (sample_point_round_trip false 1 2 5 (construct 0 1 2 0 1 3)).
  - repeat split; first [apply Z.leb_le | apply Z.ltb_lt | idtac]; reflexivity.
  - cbn. lia.
  - cbn. lia.
Defined.


Lemma eval_needs_two_columns_witness :
  eval false Double.to_string 0 0 true (construct 0 1 1 0 1 3) = AssertionFailed.
Proof.
  apply (eval_needs_two_columns Double.to_string 0 0 true
           (construct 0 1 1 0 1 3)).
  - repeat split; first [apply Z.leb_le | apply Z.ltb_lt | idtac]; reflexivity.
  - reflexivity.
  - reflexivity.
Defined.

End TabulatedProperties.
